(** * create-laravel-filament: the installer's helpers and orchestrator

    A shallow embedding of [src/commands/create.js] (the current
    implementation) and of the two file patchers of
    [src/legacy/utils.js], with the properties of the specification
    stated against them.

    JavaScript strings are sequences of UTF-16 code units; a string is a
    [list N] here, so [length], [slice] and [trim] count and cut exactly
    where the source does.

    What the process cannot decide by itself is a [world]: the terminal,
    the commands it spawns, the network probe, the prompts, the clock.
    The files of the project are a [filesystem] that the patchers read
    and write and that every spawned command may change.

    Two things happen before the [try] of [runCreate] and so escape its
    [catch]: the prompts, and the look-up of the default Herd
    directory, whose [fs.mkdir] can reject; [runCreate] then rejects
    and the entry point, index.js, reports the error.  Inside the task
    list every failure takes the same road as a failing command, and
    there the model lets [fs.mkdir], [fs.writeFile] and [process.chdir]
    succeed and a file that exists be readable.  The progress text that
    a task hands to the Listr renderer is not part of the state. *)

From Stdlib Require Import List NArith ZArith Bool Lia String Ascii.
From Stdlib Require Import DecimalString DecimalN.
Import ListNotations.

Set Implicit Arguments.

(* ================================================================== *)
(** * JavaScript strings *)
(* ================================================================== *)

Module JS.

Definition code_unit : Set := N.
Bind Scope N_scope with code_unit.
Definition jsstring : Set := list code_unit.

(** The UTF-16 code units of a text given by its UTF-8 bytes. *)
Fixpoint utf16_of_utf8 (bs : list N) : jsstring :=
  match bs with
  | [] => []
  | b :: r =>
      if (b <? 128)%N then b :: utf16_of_utf8 r
      else if (b <? 224)%N then
        match r with
        | b1 :: r1 => ((b - 192) * 64 + (b1 - 128))%N :: utf16_of_utf8 r1
        | _ => [b]
        end
      else if (b <? 240)%N then
        match r with
        | b1 :: b2 :: r2 =>
            ((b - 224) * 4096 + (b1 - 128) * 64 + (b2 - 128))%N
              :: utf16_of_utf8 r2
        | _ => [b]
        end
      else
        match r with
        | b1 :: b2 :: b3 :: r3 =>
            let cp := ((b - 240) * 262144 + (b1 - 128) * 4096
                       + (b2 - 128) * 64 + (b3 - 128) - 65536)%N in
            (55296 + cp / 1024)%N :: (56320 + cp mod 1024)%N
              :: utf16_of_utf8 r3
        | _ => [b]
        end
  end.

(** A source literal.  Rocq's string syntax has no escapes, so a
    backslash in the argument is one code unit, 92. *)
Definition lit (s : string) : jsstring :=
  utf16_of_utf8 (map N_of_ascii (list_ascii_of_string s)).

(** One ASCII unit. *)
Definition cu (a : ascii) : code_unit := N_of_ascii a.
Arguments cu a%_char.

(** The double quote, and a text between double quotes. *)
Definition DQUOTE : code_unit := 34.
Definition SQUOTE : code_unit := 39.
Definition quoted (s : jsstring) : jsstring := DQUOTE :: s ++ [DQUOTE].

(** [`${v}`] for a string that may be [undefined]. *)
Definition tmpl (v : option jsstring) : jsstring :=
  match v with
  | Some s => s
  | None => lit "undefined"
  end.

(** The line feed of a ['\n'] escape. *)
Definition LF : code_unit := 10%N.

Definition eqs (a b : jsstring) : bool :=
  if list_eq_dec N.eq_dec a b then true else false.

(** ECMAScript LineTerminator. *)
Definition is_line_terminator (c : code_unit) : bool :=
  ((c =? 10) || (c =? 13) || (c =? 8232) || (c =? 8233))%N.

(** ECMAScript WhiteSpace or LineTerminator: what [String.prototype.trim]
    strips and what [\s] matches. *)
Definition is_ws (c : code_unit) : bool :=
  ((c =? 9) || (c =? 11) || (c =? 12) || (c =? 32) || (c =? 160)
   || (c =? 5760) || ((8192 <=? c) && (c <=? 8202)) || (c =? 8239)
   || (c =? 8287) || (c =? 12288) || (c =? 65279))%N
  || is_line_terminator c.

Fixpoint trimStart (s : jsstring) : jsstring :=
  match s with
  | c :: s' => if is_ws c then trimStart s' else s
  | [] => []
  end.

Definition trimEnd (s : jsstring) : jsstring := rev (trimStart (rev s)).

Definition trim (s : jsstring) : jsstring := trimEnd (trimStart s).

Fixpoint startsWith (p s : jsstring) : bool :=
  match p, s with
  | [], _ => true
  | a :: p', b :: s' => (a =? b)%N && startsWith p' s'
  | _ :: _, [] => false
  end.

Definition endsWith (p s : jsstring) : bool := startsWith (rev p) (rev s).

Fixpoint includes (p s : jsstring) : bool :=
  startsWith p s ||
  match s with
  | [] => false
  | _ :: s' => includes p s'
  end.

(** [s.slice(a, b)] for [0 <= a] and [0 <= b]; empty when [b <= a]. *)
Definition slice (a b : nat) (s : jsstring) : jsstring :=
  firstn (b - a) (skipn a s).

(** [s.slice(a)]. *)
Definition slice_from (a : nat) (s : jsstring) : jsstring := skipn a s.

(** [s.split(sep)] for a one-unit separator: never the empty list. *)
Fixpoint split (sep : code_unit) (s : jsstring) : list jsstring :=
  match s with
  | [] => [[]]
  | c :: s' =>
      if (c =? sep)%N then [] :: split sep s'
      else match split sep s' with
           | l :: ls => (c :: l) :: ls
           | [] => [[c]]
           end
  end.

(** [ls.join(sep)]. *)
Fixpoint join (sep : code_unit) (ls : list jsstring) : jsstring :=
  match ls with
  | [] => []
  | [l] => l
  | l :: ls' => l ++ sep :: join sep ls'
  end.

(** The decimal text of a non-negative integer, as [`${n}`] gives it. *)
Definition Number_toString (n : N) : jsstring :=
  lit (NilEmpty.string_of_uint (N.to_uint n)).

(** The number that a text of decimal digits states. *)
Fixpoint digits_of (s : jsstring) : option Decimal.uint :=
  match s with
  | [] => Some Decimal.Nil
  | c :: s' =>
      match digits_of s' with
      | None => None
      | Some d =>
          match c with
          | 48 => Some (Decimal.D0 d) | 49 => Some (Decimal.D1 d)
          | 50 => Some (Decimal.D2 d) | 51 => Some (Decimal.D3 d)
          | 52 => Some (Decimal.D4 d) | 53 => Some (Decimal.D5 d)
          | 54 => Some (Decimal.D6 d) | 55 => Some (Decimal.D7 d)
          | 56 => Some (Decimal.D8 d) | 57 => Some (Decimal.D9 d)
          | _ => None
          end%N
      end
  end.

Definition stated_number (s : jsstring) : option N :=
  match s with
  | [] => None
  | _ => option_map N.of_uint (digits_of s)
  end.

(** ** Regular expressions

    The patterns of the source are sequences of one-unit atoms, each
    optionally repeated, and two anchors.  Matching is the backtracking,
    leftmost, greedy matching of [RegExp.prototype.exec]. *)
Inductive atom :=
| Bos                              (* ^ without the m flag *)
| Bol                              (* ^ under the m flag *)
| Eol                              (* $ without the m flag *)
| One (p : code_unit -> bool)      (* x, [..], \s *)
| Star (p : code_unit -> bool)     (* x* *)
| Plus (p : code_unit -> bool)     (* x+ *)
| Opt (p : code_unit -> bool).     (* x? *)

Definition regex := list atom.

Definition at_line_start (prev : option code_unit) : bool :=
  match prev with
  | None => true
  | Some c => is_line_terminator c
  end.

(** The text left after the longest-first match of [p*] followed by
    whatever [k] matches. *)
Fixpoint match_star (p : code_unit -> bool)
    (k : option code_unit -> jsstring -> option jsstring)
    (prev : option code_unit) (s : jsstring) : option jsstring :=
  match s with
  | c :: s' =>
      if p c then
        match match_star p k (Some c) s' with
        | Some rest => Some rest
        | None => k prev s
        end
      else k prev s
  | [] => k prev s
  end.

(** [match_here r prev s]: the text left after a match of [r] that
    starts at the head of [s], [prev] being the unit before it. *)
Fixpoint match_here (r : regex) (prev : option code_unit) (s : jsstring)
  : option jsstring :=
  match r with
  | [] => Some s
  | Bos :: r' => match prev with
                 | None => match_here r' prev s
                 | Some _ => None
                 end
  | Bol :: r' => if at_line_start prev then match_here r' prev s else None
  | Eol :: r' => match s with
                 | [] => match_here r' prev s
                 | _ :: _ => None
                 end
  | One p :: r' =>
      match s with
      | c :: s' => if p c then match_here r' (Some c) s' else None
      | [] => None
      end
  | Star p :: r' => match_star p (match_here r') prev s
  | Plus p :: r' =>
      match s with
      | c :: s' =>
          if p c then match_star p (match_here r') (Some c) s' else None
      | [] => None
      end
  | Opt p :: r' =>
      match s with
      | c :: s' =>
          if p c then
            match match_here r' (Some c) s' with
            | Some rest => Some rest
            | None => match_here r' prev s
            end
          else match_here r' prev s
      | [] => match_here r' prev s
      end
  end.

(** The leftmost match at or after the head of [s], which is at
    [index]: its index and its text. *)
Fixpoint exec_from (r : regex) (prev : option code_unit) (index : nat)
    (s : jsstring) : option (nat * jsstring) :=
  match match_here r prev s with
  | Some rest => Some (index, firstn (List.length s - List.length rest) s)
  | None =>
      match s with
      | [] => None
      | c :: s' => exec_from r (Some c) (S index) s'
      end
  end.

(** [r.exec(s)] for a pattern without the g flag: [index] and [match[0]]. *)
Definition exec (r : regex) (s : jsstring) : option (nat * jsstring) :=
  exec_from r None 0 s.

(** [s.replace(r, f)] for a pattern without the g flag. *)
Definition replace (r : regex) (f : jsstring -> jsstring) (s : jsstring)
  : jsstring :=
  match exec r s with
  | Some (i, m) => firstn i s ++ f m ++ skipn (i + List.length m) s
  | None => s
  end.

(** A literal unit. *)
Definition ch (c : code_unit) : code_unit -> bool := N.eqb c.

(** A literal unit under the i flag; exact for a pattern unit below 128,
    which only its other ASCII case canonicalizes to. *)
Definition fold_case (c : code_unit) : code_unit :=
  if ((97 <=? c) && (c <=? 122))%N then (c - 32)%N else c.

Definition chi (c : code_unit) : code_unit -> bool :=
  fun x => (fold_case c =? fold_case x)%N.

(** [[^..]] *)
Definition none_of (cs : jsstring) : code_unit -> bool :=
  fun x => negb (existsb (N.eqb x) cs).

(** [[..]] *)
Definition one_of (cs : jsstring) : code_unit -> bool :=
  fun x => existsb (N.eqb x) cs.

(** A literal text, and a literal text under the i flag. *)
Definition text (s : string) : regex := map (fun c => One (ch c)) (lit s).
Definition texti (s : string) : regex := map (fun c => One (chi c)) (lit s).

(** A value that may be [undefined]. *)
Definition truthy (v : option jsstring) : bool :=
  match v with
  | Some (_ :: _) => true
  | _ => false
  end.

(** [v || d] for a string or [undefined] on the left. *)
Definition or_else (v : option jsstring) (d : jsstring) : jsstring :=
  match v with
  | Some (c :: s) => c :: s
  | _ => d
  end.

(** [v === 'text'] *)
Definition is_lit (v : option jsstring) (s : jsstring) : bool :=
  match v with
  | Some x => eqs x s
  | None => false
  end.

(** An [Error] object: the message, the [stdout] and [stderr] that execa
    attaches to its rejections, and the [step] property that the failure
    report of [runCreate] reads. *)
Record js_error := mkError {
  message : jsstring;
  e_stdout : option jsstring;
  e_stderr : option jsstring;
  step : option jsstring
}.

(** [new Error(msg)] *)
Definition new_Error (msg : jsstring) : js_error :=
  {| message := msg; e_stdout := None; e_stderr := None; step := None |}.

(** How a call ends: with a value, or with a thrown error (a rejected
    promise, under [await]). *)
Inductive completion (A : Type) : Type :=
| Normal (a : A)
| Throw (e : js_error).

Arguments Normal {A} a.
Arguments Throw {A} e.

End JS.

Import JS.

(* ================================================================== *)
(** * Helpers of create.js *)
(* ================================================================== *)

(** [isTTY]: both streams of the process. *)
Definition isTTY (stdout_isTTY stdin_isTTY : bool) : bool :=
  stdout_isTTY && stdin_isTTY.

(** The fields of [ctx] that [colorsEnabled] reads.  [color] is [true]
    after [--color], [false] after [--no-color]; [None] is [undefined]. *)
Record color_ctx := mkColorCtx {
  cc_json : bool;
  cc_noColor : option bool;
  cc_color : option bool
}.

Definition is_true (v : option bool) : bool :=
  match v with Some true => true | _ => false end.

Definition is_false (v : option bool) : bool :=
  match v with Some false => true | _ => false end.

Definition colorsEnabled (tty : bool) (ctx : color_ctx) : bool :=
  if cc_json ctx then false
  else if is_true (cc_noColor ctx) then false
  else if is_false (cc_color ctx) then false
  else if negb tty then false
  else if is_true (cc_color ctx) then true
  else true.

(** The marker that [truncate] appends.  The source writes it in a
    template literal as [\\n... ], an escaped backslash and an [n]. *)
Definition truncated_marker (omitted : N) : jsstring :=
  lit "\n... [truncated " ++ Number_toString omitted ++ lit " chars]".

Definition default_max : nat := N.to_nat 8192.

(** [truncate(str = '', max = 8192)] *)
Definition truncate_to (max : nat) (str : option jsstring) : jsstring :=
  let str := match str with Some s => s | None => [] end in
  match str with
  | [] => []
  | _ =>
      if max <? List.length str
      then slice 0 max str
             ++ truncated_marker (N.of_nat (List.length str - max))
      else str
  end.

Definition truncate : option jsstring -> jsstring := truncate_to default_max.

(* ================================================================== *)
(** * CommandRunner *)
(* ================================================================== *)

Record exec_opts := mkOpts {
  cwd : option jsstring;
  env : option (list (jsstring * jsstring))
}.

Definition no_opts : exec_opts := {| cwd := None; env := None |}.

(** What [execa] resolves with. *)
Record exec_ok := mkExecOk {
  ok_stdout : option jsstring;
  ok_stderr : option jsstring
}.

(** One call of [execa(cmd, { shell: true, cwd, env })] as the process
    sees it: how it settled, and the milliseconds elapsed on the clock
    between the [Date.now()] before it and the one after. *)
Record exec_reply := mkReply {
  settled : completion exec_ok;
  elapsed : Z
}.

Inductive status := Success | Error | Warning | Skipped.

Record run_result := mkRunResult {
  r_status : status;
  r_durationMs : Z;
  r_stdout : jsstring;
  r_stderr : jsstring;
  r_error : option js_error
}.

Definition or_message (v : option jsstring) (e : js_error) : option jsstring :=
  if truthy v then v else Some (message e).

(** [run(cmd, opts = {})], given the reply of the spawned command. *)
Definition run (execa : jsstring -> exec_opts -> exec_reply)
    (cmd : jsstring) (opts : exec_opts) : completion run_result :=
  let reply := execa cmd {| cwd := cwd opts; env := env opts |} in
  match settled reply with
  | Normal out =>
      Normal {| r_status := Success;
                r_durationMs := elapsed reply;
                r_stdout := truncate (ok_stdout out);
                r_stderr := truncate (ok_stderr out);
                r_error := None |}
  | Throw error =>
      Normal {| r_status := Error;
                r_durationMs := elapsed reply;
                r_stdout := truncate (e_stdout error);
                r_stderr := truncate (or_message (e_stderr error) error);
                r_error := Some error |}
  end.

(* ================================================================== *)
(** * The project's files *)
(* ================================================================== *)

(** The files under [projectPath] that the patchers touch, by their path
    relative to it. *)
Inductive path :=
| DotEnv            (* .env *)
| DatabaseSqlite    (* database/database.sqlite *)
| PhpunitXml        (* phpunit.xml *)
| PhpunitXmlDist    (* phpunit.xml.dist *)
| PhpstanNeon       (* phpstan.neon *)
| PintJson          (* pint.json *)
| RectorPhp         (* rector.php *)
| UserFactoryPhp.   (* database/factories/UserFactory.php *)

Definition path_eqb (p q : path) : bool :=
  match p, q with
  | DotEnv, DotEnv | DatabaseSqlite, DatabaseSqlite
  | PhpunitXml, PhpunitXml | PhpunitXmlDist, PhpunitXmlDist
  | PhpstanNeon, PhpstanNeon | PintJson, PintJson
  | RectorPhp, RectorPhp | UserFactoryPhp, UserFactoryPhp => true
  | _, _ => false
  end.

(** An entry of [database/migrations]: its name, whether it is a regular
    file, and what reading it gives ([None]: the read fails). *)
Record dirent := mkDirent {
  d_name : jsstring;
  d_isFile : bool;
  d_data : option jsstring
}.

(** The state of the project directory: what each file holds ([None]:
    it cannot be read), the listing of the migrations directory, and the
    log of every [fs.writeFile], oldest first. *)
Record filesystem := mkFs {
  files : path -> option jsstring;
  migrations : option (list dirent);
  written : list (path * jsstring)
}.

Definition readFile (p : path) (fs : filesystem) : option jsstring :=
  files fs p.

Definition writeFile (p : path) (data : jsstring) (fs : filesystem)
  : filesystem :=
  {| files := fun q => if path_eqb q p then Some data else files fs q;
     migrations := migrations fs;
     written := written fs ++ [(p, data)] |}.

(* ================================================================== *)
(** * The .env merge *)
(* ================================================================== *)

(** An [updates] object, as [Object.entries] lists it; values are the
    text that the template literal [`${key}=${value}`] makes of them. *)
Definition updates_t := list (jsstring * jsstring).

Fixpoint lookup (key : jsstring) (updates : updates_t) : option jsstring :=
  match updates with
  | [] => None
  | (k, v) :: rest => if eqs k key then Some v else lookup key rest
  end.

(** [keysFound.has(key)] *)
Definition has (keysFound : list jsstring) (key : jsstring) : bool :=
  existsb (eqs key) keysFound.

Definition EQ : code_unit := 61%N.
Definition HASH : code_unit := 35%N.

(** [`${key}=${value}`] *)
Definition env_line (kv : jsstring * jsstring) : jsstring :=
  fst kv ++ EQ :: snd kv.

(** The callback of [lines.map]: the line it returns, and the keys it
    adds to [keysFound]. *)
Definition rewrite_line (updates : updates_t) (line : jsstring)
  : jsstring * list jsstring :=
  let trimmedLine := trim line in
  if startsWith [HASH] trimmedLine || negb (includes [EQ] trimmedLine)
  then (line, [])
  else
    let key := hd [] (split EQ trimmedLine) in
    match lookup key updates with
    | Some value => (env_line (key, value), [key])
    | None => (line, [])
    end.

(** The [lines] array of [updateEnvValues] just before it is joined. *)
Definition merged_lines (content : jsstring) (updates : updates_t)
  : list jsstring :=
  let lines := split LF content in
  let mapped := map (rewrite_line updates) lines in
  let keysFound := flat_map snd mapped in
  map fst mapped
  ++ map env_line
       (filter (fun kv => negb (has keysFound (fst kv))) updates).

Definition merged_content (content : jsstring) (updates : updates_t)
  : jsstring :=
  join LF (merged_lines content updates).

(** [updateEnvValues(projectPath, updates)]: a missing [.env] reads as
    the empty text. *)
Definition updateEnvValues (updates : updates_t) (fs : filesystem)
  : filesystem :=
  let content := match readFile DotEnv fs with
                 | Some c => c
                 | None => []
                 end in
  writeFile DotEnv (merged_content content updates) fs.

Definition maybeCreateSqliteDatabase (fs : filesystem) : filesystem :=
  writeFile DatabaseSqlite [] fs.

Definition setAppLocaleEs (fs : filesystem) : filesystem :=
  updateEnvValues [(lit "APP_LOCALE", lit "es")] fs.

(* ================================================================== *)
(** * The phpunit.xml patcher *)
(* ================================================================== *)

Definition GT : code_unit := cu ">".
Definition BACKSLASH : code_unit := 92.

(** The pattern [<phpunit], a group of any number of units other than
    [>], then [>], under the i flag; the group is the match without its
    first eight units and its last one. *)
Definition re_phpunit : regex :=
  texti "<phpunit" ++ [Star (none_of [GT]); One (chi GT)].

Definition group1_phpunit (m : jsstring) : jsstring :=
  slice 8 (List.length m - 1) m.

Definition re_php : regex := texti "<php>".

(** ['colors="true"'] *)
Definition colors_true : jsstring := lit "colors=" ++ quoted (lit "true").

(** ['env name="APP_LOCALE" value="en"'] *)
Definition env_app_locale_en : jsstring :=
  lit "env name=" ++ quoted (lit "APP_LOCALE")
  ++ lit " value=" ++ quoted (lit "en").

(** ['name="APP_LOCALE"'] *)
Definition name_app_locale : jsstring := lit "name=" ++ quoted (lit "APP_LOCALE").

(** ['<php><env name="APP_LOCALE" value="en"/>'] *)
Definition php_with_env : jsstring :=
  lit "<php><" ++ env_app_locale_en ++ lit "/>".

(** The body of the patcher between its read and its write, over the
    two patterns in which the two implementations differ. *)
Definition patch_phpunit (re_colors re_env : regex) (xmlData : jsstring)
  : jsstring :=
  let xmlData :=
    replace re_phpunit
      (fun m =>
         let attrs := group1_phpunit m in
         if negb (includes (lit "colors=") attrs)
         then lit "<phpunit" ++ attrs ++ lit " colors=" ++ quoted (lit "true")
              ++ [GT]
         else replace re_colors (fun _ => colors_true) m)
      xmlData in
  if includes name_app_locale xmlData
  then replace re_env (fun _ => env_app_locale_en) xmlData
  else replace re_php (fun _ => php_with_env) xmlData.

(** The first of [phpunit.xml], [phpunit.xml.dist] that [fs.access]
    finds; a file that is there is one that can be read. *)
Definition phpunit_candidate (fs : filesystem) : option path :=
  match files fs PhpunitXml with
  | Some _ => Some PhpunitXml
  | None =>
      match files fs PhpunitXmlDist with
      | Some _ => Some PhpunitXmlDist
      | None => None
      end
  end.

Definition ensurePhpunit_with (re_colors re_env : regex) (fs : filesystem)
  : filesystem :=
  match phpunit_candidate fs with
  | None => fs
  | Some phpunitPath =>
      match readFile phpunitPath fs with
      | Some xmlData =>
          writeFile phpunitPath (patch_phpunit re_colors re_env xmlData) fs
      | None => fs
      end
  end.

(** create.js writes its two patterns with doubled backslashes inside
    the regular-expression literals: [\\s] is a backslash followed by
    the letter s.  In these comments Q stands for the double quote.

    [/colors\\s*=\\s*[Q']?[^Q']*[Q']?/i] *)
Definition re_colors : regex :=
  texti "colors"
  ++ [One (chi BACKSLASH); Star (chi (cu "s")); One (chi EQ);
      One (chi BACKSLASH); Star (chi (cu "s"));
      Opt (one_of [DQUOTE; SQUOTE]); Star (none_of [DQUOTE; SQUOTE]);
      Opt (one_of [DQUOTE; SQUOTE])].

(** [/<env\\s+name=QAPP_LOCALEQ\\s+value=Q[^Q]*Q/i] *)
Definition re_env : regex :=
  texti "<env" ++ [One (chi BACKSLASH); Plus (chi (cu "s"))]
  ++ texti "name=" ++ [One (chi DQUOTE)] ++ texti "APP_LOCALE"
  ++ [One (chi DQUOTE); One (chi BACKSLASH); Plus (chi (cu "s"))]
  ++ texti "value=" ++ [One (chi DQUOTE); Star (none_of [DQUOTE]);
                        One (chi DQUOTE)].

(** [ensurePhpunitAppLocaleEn(projectPath)] of create.js *)
Definition ensurePhpunitAppLocaleEn : filesystem -> filesystem :=
  ensurePhpunit_with re_colors re_env.

Module Legacy.

(** legacy/utils.js has the same function with [\s] in both patterns.

    [/colors\s*=\s*[Q']?[^Q']*[Q']?/i] *)
Definition re_colors : regex :=
  texti "colors"
  ++ [Star is_ws; One (chi EQ); Star is_ws;
      Opt (one_of [DQUOTE; SQUOTE]); Star (none_of [DQUOTE; SQUOTE]);
      Opt (one_of [DQUOTE; SQUOTE])].

(** [/<env\s+name=QAPP_LOCALEQ\s+value=Q[^Q]*Q/i] *)
Definition re_env : regex :=
  texti "<env" ++ [Plus is_ws]
  ++ texti "name=" ++ [One (chi DQUOTE)] ++ texti "APP_LOCALE"
  ++ [One (chi DQUOTE); Plus is_ws]
  ++ texti "value=" ++ [One (chi DQUOTE); Star (none_of [DQUOTE]);
                        One (chi DQUOTE)].

Definition ensurePhpunitAppLocaleEn : filesystem -> filesystem :=
  ensurePhpunit_with re_colors re_env.

(** [updateEnvValues] of legacy/utils.js differs from that of create.js
    in two lines: it tests [updates[key] !== undefined], which sees
    what the object inherits and does not see an own key whose value is
    [undefined], and it returns without writing when [.env] cannot be
    read. *)

(** An [updates] object whose values may be [undefined]: [None] is
    [undefined], [Some v] a value that a template literal prints as
    [v]. *)
Definition loose_updates := list (jsstring * option jsstring).

(** [`${value}`] *)
Definition text_of (value : option jsstring) : jsstring :=
  match value with
  | Some v => v
  | None => lit "undefined"
  end.

(** The entries of the object with their values printed: the
    [updates] that create.js works with. *)
Definition texts (updates : loose_updates) : updates_t :=
  map (fun kv => (fst kv, text_of (snd kv))) updates.

(** The own property of the object under a key, if it has one. *)
Fixpoint own (key : jsstring) (updates : loose_updates)
  : option (option jsstring) :=
  match updates with
  | [] => None
  | (k, v) :: rest => if eqs k key then Some v else own key rest
  end.

Section Env.

(** What [Object.prototype] holds under a name, as a template literal
    prints it; [None] where it holds nothing. *)
Variable inherited : jsstring -> option jsstring.

(** [updates[key]], [None] being [undefined]: an own property hides
    what is inherited. *)
Definition get (updates : loose_updates) (key : jsstring)
  : option jsstring :=
  match own key updates with
  | Some value => value
  | None => inherited key
  end.

Definition rewrite_line (updates : loose_updates) (line : jsstring)
  : jsstring * list jsstring :=
  let trimmedLine := trim line in
  if startsWith [HASH] trimmedLine || negb (includes [EQ] trimmedLine)
  then (line, [])
  else
    let key := hd [] (split EQ trimmedLine) in
    match get updates key with
    | Some value => (env_line (key, value), [key])
    | None => (line, [])
    end.

Definition merged_content (content : jsstring) (updates : loose_updates)
  : jsstring :=
  let lines := split LF content in
  let mapped := map (rewrite_line updates) lines in
  let keysFound := flat_map snd mapped in
  join LF
    (map fst mapped
     ++ map env_line
          (filter (fun kv => negb (has keysFound (fst kv)))
             (texts updates))).

Definition updateEnvValues (updates : loose_updates) (fs : filesystem)
  : filesystem :=
  match readFile DotEnv fs with
  | None => fs
  | Some content => writeFile DotEnv (merged_content content updates) fs
  end.

End Env.

End Legacy.

(* ================================================================== *)
(** * The UserFactory two-factor patch *)
(* ================================================================== *)

Definition two_factor_secret := lit "two_factor_secret".
Definition two_factor_recovery_codes := lit "two_factor_recovery_codes".
Definition two_factor_confirmed_at := lit "two_factor_confirmed_at".

(** [detectTwoFactorColumnsInMigrations]: any failure inside the scan
    is caught and answers [false]. *)
Fixpoint scan_migrations (entries : list dirent) : bool :=
  match entries with
  | [] => false
  | entry :: rest =>
      if negb (d_isFile entry) then scan_migrations rest
      else if negb (endsWith (lit ".php") (d_name entry))
      then scan_migrations rest
      else
        match d_data entry with
        | None => false
        | Some data =>
            if includes two_factor_secret data
               || includes two_factor_recovery_codes data
               || includes two_factor_confirmed_at data
               || includes (lit "two_factor_") data
            then true
            else scan_migrations rest
        end
  end.

Definition detectTwoFactorColumnsInMigrations (fs : filesystem) : bool :=
  match migrations fs with
  | Some entries => scan_migrations entries
  | None => false
  end.

(** [{ patched: true }] or [{ patched: false, reason }] *)
Inductive patch_result :=
| Patched
| NotPatched (reason : jsstring).

Definition SP : code_unit := 32.
Definition TAB : code_unit := 9.

(** [/^[ \t]*return\s*\[/m] *)
Definition startRe : regex :=
  [Bol; Star (one_of [SP; TAB])] ++ text "return"
  ++ [Star is_ws; One (ch (cu "["))].

(** [/^[ \t]*\];/m] *)
Definition endRe : regex :=
  [Bol; Star (one_of [SP; TAB]); One (ch (cu "]")); One (ch (cu ";"))].

(** [/^[ \t]*/] *)
Definition indentRe : regex := [Bos; Star (one_of [SP; TAB])].

(** [/\s*$/] *)
Definition trailingRe : regex := [Star is_ws; Eol].

Definition null_entry (injectionIndent key : jsstring) : jsstring :=
  injectionIndent ++ [SQUOTE] ++ key ++ [SQUOTE] ++ lit " => null," ++ [LF].

Definition patchUserFactoryTwoFactorDefaults (fs : filesystem)
  : completion patch_result * filesystem :=
  match readFile UserFactoryPhp fs with
  | None => (Normal (NotPatched (lit "factory_not_found")), fs)
  | Some content =>
      if includes two_factor_secret content
         || includes two_factor_recovery_codes content
         || includes two_factor_confirmed_at content
      then (Normal (NotPatched (lit "already_present")), fs)
      else
        match exec startRe content with
        | None => (Normal (NotPatched (lit "array_not_found")), fs)
        | Some (startIdx, startMatch0) =>
            let indent := match exec indentRe startMatch0 with
                          | Some (_, m) => m
                          | None => []
                          end in
            let afterStart := slice_from startIdx content in
            match exec endRe afterStart with
            | None => (Normal (NotPatched (lit "array_end_not_found")), fs)
            | Some (endIdx, _) =>
                let arrStart := startIdx + List.length startMatch0 in
                let arrEnd := startIdx + endIdx in
                let arr := slice arrStart arrEnd content in
                let arr :=
                  if negb (endsWith (lit ",") (trimEnd arr))
                  then replace trailingRe (fun _ => [cu ","; LF]) arr
                  else arr in
                let injectionIndent := indent ++ lit "    " in
                let injection :=
                  null_entry injectionIndent two_factor_secret
                  ++ null_entry injectionIndent two_factor_recovery_codes
                  ++ null_entry injectionIndent two_factor_confirmed_at in
                let newContent :=
                  slice 0 arrStart content ++ arr ++ injection
                  ++ slice_from arrEnd content in
                if eqs newContent content
                then (Normal (NotPatched (lit "replace_noop")), fs)
                else (Normal Patched,
                      writeFile UserFactoryPhp newContent fs)
            end
        end
  end.

(* ================================================================== *)
(** * Flags, validation and the resolved parameters *)
(* ================================================================== *)

(** The [input] object of [runCreate]: each field is the text of a
    command-line flag, or [undefined]. *)
Record input_t := mkInput {
  projectName : option jsstring;
  starterKit : option jsstring;
  db : option jsstring;
  dbHost : option jsstring;
  dbPort : option jsstring;
  dbName : option jsstring;
  dbUser : option jsstring;
  dbPassword : option jsstring;
  herdDir : option jsstring;
  filamentName : option jsstring;
  filamentEmail : option jsstring;
  filamentPassword : option jsstring
}.

(** [if (!value) missing.push(flag)] *)
Definition push_unless (value : option jsstring) (flag : string)
    (missing : list jsstring) : list jsstring :=
  if negb (truthy value) then missing ++ [lit flag] else missing.

Definition validateNonInteractive (input : input_t) : list jsstring :=
  let missing := [] in
  let missing := push_unless (projectName input) "--project-name" missing in
  let missing := push_unless (starterKit input) "--starter-kit" missing in
  let missing := push_unless (db input) "--db" missing in
  let missing :=
    if is_lit (db input) (lit "mysql") || is_lit (db input) (lit "postgresql")
    then
      let missing := push_unless (dbHost input) "--db-host" missing in
      let missing := push_unless (dbPort input) "--db-port" missing in
      let missing := push_unless (dbName input) "--db-name" missing in
      let missing := push_unless (dbUser input) "--db-user" missing in
      push_unless (dbPassword input) "--db-password" missing
    else missing in
  let missing := push_unless (filamentName input) "--filament-name" missing in
  let missing := push_unless (filamentEmail input) "--filament-email" missing in
  push_unless (filamentPassword input) "--filament-password" missing.

(** The defaults that the non-interactive branch of [runCreate] writes
    into [input] before it validates. *)
Definition filament_default (nonInteractive : bool) (v : option jsstring)
    (d : string) : option jsstring :=
  if negb nonInteractive then Some (or_else v (lit d)) else v.

Definition fill_defaults (nonInteractive : bool) (input : input_t) : input_t :=
  {| projectName := projectName input;
     starterKit := Some (or_else (starterKit input) (lit "react"));
     db := Some (or_else (db input) (lit "sqlite"));
     dbHost := dbHost input;
     dbPort := dbPort input;
     dbName := dbName input;
     dbUser := dbUser input;
     dbPassword := dbPassword input;
     herdDir := herdDir input;
     filamentName :=
       filament_default nonInteractive (filamentName input) "Admin";
     filamentEmail :=
       filament_default nonInteractive (filamentEmail input) "admin@admin.com";
     filamentPassword :=
       filament_default nonInteractive (filamentPassword input) "password" |}.

(** [`Faltan banderas requeridas en modo no interactivo: ${missing.join(', ')}`] *)
Fixpoint join_with (sep : jsstring) (ls : list jsstring) : jsstring :=
  match ls with
  | [] => []
  | [l] => l
  | l :: ls' => l ++ sep ++ join_with sep ls'
  end.

Definition missing_message (missing : list jsstring) : jsstring :=
  lit "Faltan banderas requeridas en modo no interactivo: "
  ++ join_with (lit ", ") missing.

Record dbConn_t := mkDbConn {
  host : option jsstring;
  port : option jsstring;
  name : option jsstring;
  user : option jsstring;
  password : option jsstring
}.

Record filament_t := mkFilament {
  fil_name : option jsstring;
  fil_email : option jsstring;
  fil_password : option jsstring
}.

(** The [answers] object: the resolved parameters of a run. *)
Record answers_t := mkAnswers {
  a_projectName : option jsstring;
  a_starterKit : option jsstring;
  a_db : option jsstring;
  a_dbConn : dbConn_t;
  a_filament : filament_t;
  a_herdDir : jsstring
}.

Record ctx_t := mkCtx {
  json : bool;
  nonInteractive : bool;
  yes : bool;
  verbose : bool;
  color : option bool;
  noColor : option bool;
  flags : input_t
}.

(** What the process cannot decide by itself: the terminal, the
    commands it spawns and what they leave on the disk, the network
    probe, the prompts, and the clock. *)
Record world := mkWorld {
  stdout_isTTY : bool;
  stdin_isTTY : bool;
  node_version : jsstring;
  platform : jsstring;
  execa : jsstring -> exec_opts -> exec_reply;
  disk_effect : jsstring -> filesystem -> filesystem;
  commandExists : jsstring -> bool;
  (* isPortOpen(host, Number(port) || fallback, 1200) *)
  isPortOpen : jsstring -> option jsstring -> Z -> bool;
  (* path.join(os.homedir(), 'Herd') *)
  home_herd : jsstring;
  path_join : jsstring -> jsstring -> jsstring;
  (* the error with which fs.mkdir(dir, { recursive: true }) rejects
     when fs.access(dir) has failed and dir cannot be made *)
  mkdir_rejects : jsstring -> option js_error;
  (* process.cwd() when the process starts *)
  initial_cwd : jsstring;
  (* process.cwd() after process.chdir(dir) in the directory cwd: the
     absolute path that dir resolves to *)
  cwd_after : jsstring -> jsstring -> jsstring;
  (* interactiveGather(input, { yes }); Normal None: the user
     cancelled; Throw: its look-up of the Herd directory rejected *)
  interactiveGather : input_t -> bool -> completion (option answers_t);
  showFinalMenu : jsstring -> jsstring;
  (* the error of openVSCode(projectPath), if it fails *)
  openVSCode : jsstring -> option jsstring;
  (* Date.now() - startedAt when the run ends *)
  totalMs : Z
}.

Definition detectMysqlService (w : world) (host port : option jsstring)
  : bool :=
  isPortOpen w (or_else host (lit "127.0.0.1")) port 3306.

Definition detectPostgresService (w : world) (host port : option jsstring)
  : bool :=
  isPortOpen w (or_else host (lit "127.0.0.1")) port 5432.

(** [const herdDir = preferred || path.join(os.homedir(), 'Herd')] *)
Definition herdDir_of (w : world) (preferred : option jsstring) : jsstring :=
  or_else preferred (home_herd w).

(** [getHerdDirectory(preferred)]: it answers [herdDir], after making
    the directory where [fs.access] fails, and rejects where [fs.mkdir]
    does. *)
Definition getHerdDirectory (w : world) (preferred : option jsstring)
  : completion jsstring :=
  let herdDir := herdDir_of w preferred in
  match mkdir_rejects w herdDir with
  | Some error => Throw error
  | None => Normal herdDir
  end.

Definition dbLabelOf (db : option jsstring) : jsstring :=
  if is_lit db (lit "sqlite") then lit "SQLite"
  else if is_lit db (lit "supabase") then lit "Supabase (PostgreSQL)"
  else if is_lit db (lit "mysql") then lit "MySQL"
  else if is_lit db (lit "postgresql") then lit "PostgreSQL"
  else tmpl db.

(** The [answers] of the non-interactive branch, from the validated
    [input], once [input.herdDir || (await getHerdDirectory())] has
    answered. *)
Definition answers_of_input (w : world) (input : input_t) : answers_t :=
  {| a_projectName := projectName input;
     a_starterKit := starterKit input;
     a_db := db input;
     a_dbConn := {| host := dbHost input; port := dbPort input;
                    name := dbName input; user := dbUser input;
                    password := dbPassword input |};
     a_filament := {| fil_name := filamentName input;
                      fil_email := filamentEmail input;
                      fil_password := filamentPassword input |};
     a_herdDir := or_else (herdDir input) (herdDir_of w None) |}.

(* ================================================================== *)
(** * Events and the state of a run *)
(* ================================================================== *)

(** An entry of the [events] array; an absent key is [None]. *)
Record event := mkEvent {
  ev_name : jsstring;
  ev_status : status;
  ev_durationMs : option Z;
  ev_stdout : option jsstring;
  ev_stderr : option jsstring;
  ev_error : option js_error
}.

(** [{ name, ...r }] *)
Definition event_of (name : string) (r : run_result) : event :=
  {| ev_name := lit name;
     ev_status := r_status r;
     ev_durationMs := Some (r_durationMs r);
     ev_stdout := Some (r_stdout r);
     ev_stderr := Some (r_stderr r);
     ev_error := r_error r |}.

(** [{ name, status }] and [{ name, status, stdout }] *)
Definition event_note (name : string) (st : status)
    (stdout : option jsstring) : event :=
  {| ev_name := lit name; ev_status := st; ev_durationMs := None;
     ev_stdout := stdout; ev_stderr := None; ev_error := None |}.

Inductive style :=
| Plain | Red | RedBold | Green | GreenBold | YellowBold | Cyan | Bold.

Inductive stream := Stdout | Stderr.

(** One call of [console.log] or [console.error]. *)
Record console_line := mkLine {
  to : stream;
  styled : style;
  line_text : jsstring
}.

(** What the steps of a run share and mutate: the [events] array, the
    working directory of the process, [projectPath], the disk and the
    console; [started] lists the titles of the tasks whose action has
    been invoked. *)
Record run_state := mkState {
  events : list event;
  process_cwd : jsstring;
  projectPath : jsstring;
  disk : filesystem;
  console : list console_line;
  started : list jsstring
}.

(** An action on the shared state that may throw; the state it reached
    stays when it does. *)
Definition M (A : Type) : Type := run_state -> completion A * run_state.

Definition ret {A : Type} (a : A) : M A := fun st => (Normal a, st).

Definition throw {A : Type} (e : js_error) : M A := fun st => (Throw e, st).

Definition bind {A B : Type} (m : M A) (k : A -> M B) : M B :=
  fun st =>
    match m st with
    | (Normal a, st') => k a st'
    | (Throw e, st') => (Throw e, st')
    end.

Notation "x <- m ;; k" := (bind m (fun x => k))
  (at level 61, m at next level, right associativity).
Notation "m ;;; k" := (bind m (fun _ => k))
  (at level 61, right associativity).

Definition when (c : bool) (m : M unit) : M unit := if c then m else ret tt.

(** [events.push(ev)] *)
Definition push (ev : event) : M unit :=
  fun st =>
    (Normal tt,
     {| events := events st ++ [ev]; process_cwd := process_cwd st;
        projectPath := projectPath st; disk := disk st;
        console := console st; started := started st |}).

(** [process.chdir(dir)]: what [process.cwd()] answers from then on is
    the path that [dir] resolves to. *)
Definition chdir (w : world) (dir : jsstring) : M unit :=
  fun st =>
    (Normal tt,
     {| events := events st; process_cwd := cwd_after w (process_cwd st) dir;
        projectPath := projectPath st; disk := disk st;
        console := console st; started := started st |}).

Definition set_projectPath (dir : jsstring) : M unit :=
  fun st =>
    (Normal tt,
     {| events := events st; process_cwd := process_cwd st;
        projectPath := dir; disk := disk st;
        console := console st; started := started st |}).

Definition on_disk (f : filesystem -> filesystem) : M unit :=
  fun st =>
    (Normal tt,
     {| events := events st; process_cwd := process_cwd st;
        projectPath := projectPath st; disk := f (disk st);
        console := console st; started := started st |}).

Definition print (l : console_line) : M unit :=
  fun st =>
    (Normal tt,
     {| events := events st; process_cwd := process_cwd st;
        projectPath := projectPath st; disk := disk st;
        console := console st ++ [l]; started := started st |}).

Definition mark_started (title : jsstring) (st : run_state) : run_state :=
  {| events := events st; process_cwd := process_cwd st;
     projectPath := projectPath st; disk := disk st;
     console := console st; started := started st ++ [title] |}.

(** [process.cwd()] *)
Definition get_cwd : M jsstring := fun st => (Normal (process_cwd st), st).
Definition get_disk : M filesystem := fun st => (Normal (disk st), st).

Definition is_error (s : status) : bool :=
  match s with Error => true | _ => false end.

Section Pipeline.

Variable w : world.
Variable json_mode : bool.
Variable colorOn : bool.
Variable answers : answers_t.

(** [await run(cmd)]: the command also leaves its mark on the disk. *)
Definition run_cmd (cmd : jsstring) : M run_result :=
  fun st =>
    match run (execa w) cmd no_opts with
    | Normal r => on_disk (disk_effect w cmd) ;;; ret r
    | Throw e => throw e
    end st.

(** The recurring
    [const r = await run(cmd); events.push({ name, ...r });
     if (r.status === 'error') throw new Error(msg)] *)
Definition step_cmd (cmd : jsstring) (name msg : string) : M unit :=
  r <- run_cmd cmd ;;
  push (event_of name r) ;;;
  when (is_error (r_status r)) (throw (new_Error (lit msg))).

(** [try { await commandExists(c) } catch { throw new Error(msg) }] *)
Definition require_command (c msg : string) : M unit :=
  if commandExists w (lit c) then ret tt else throw (new_Error (lit msg)).

Definition db_is (s : string) : bool := is_lit (a_db answers) (lit s).
Definition kit_is (s : string) : bool := is_lit (a_starterKit answers) (lit s).

(** Inside the task [await getHerdDirectory(answers.herdDir)] is taken
    to answer: a rejection there would end the run through the [catch]
    as a failing command does. *)
Definition prechecks : M unit :=
  require_command "herd"
    "Laravel Herd no parece estar instalado. Instálalo antes de continuar." ;;;
  chdir w (herdDir_of w (Some (a_herdDir answers))) ;;;
  push (event_note "prechecks" Success None).

Definition starterKitFlag : jsstring := lit "--" ++ tmpl (a_starterKit answers).

(** The [TypeError] of [path.join] on an argument that is not a string. *)
Definition path_TypeError : js_error :=
  new_Error (lit "The " ++ quoted (lit "path")
             ++ lit " argument must be of type string. Received undefined").

Definition scaffold : M unit :=
  when (negb (commandExists w (lit "laravel")))
    (step_cmd (lit "composer global require laravel/installer -q -n")
       "install_laravel_installer" "Fallo al instalar Laravel Installer") ;;;
  step_cmd
    (lit "laravel new " ++ tmpl (a_projectName answers) ++ lit " "
     ++ starterKitFlag ++ lit " --git --pest --no-interaction")
    "laravel_new" "Fallo al crear el proyecto Laravel" ;;;
  here <- get_cwd ;;
  match a_projectName answers with
  | None => throw path_TypeError
  | Some name =>
      let projectPath := path_join w here name in
      set_projectPath projectPath ;;;
      chdir w projectPath ;;;
      push (event_note "chdir_project" Success None)
  end.

Definition engine_label : jsstring :=
  if db_is "mysql" then lit "MySQL" else lit "PostgreSQL".

Definition service_check : M unit :=
  let conn := a_dbConn answers in
  let listening :=
    if db_is "mysql" then detectMysqlService w (host conn) (port conn)
    else detectPostgresService w (host conn) (port conn) in
  let msg :=
    if listening
    then engine_label ++ lit " detectado en " ++ tmpl (host conn)
         ++ lit ":" ++ tmpl (port conn)
    else lit "Advertencia: No se detectó " ++ engine_label
         ++ lit " activo en " ++ tmpl (host conn) ++ lit ":"
         ++ tmpl (port conn)
         ++ lit ". Inícialo para evitar fallos en migraciones." in
  when (negb json_mode)
    (print {| to := Stdout;
              styled := if colorOn
                        then if listening then Green else YellowBold
                        else Plain;
              line_text := msg |}) ;;;
  push (event_note
          (if db_is "mysql" then "mysql_service_check"
           else "postgres_service_check")
          (if listening then Success else Warning)
          (Some msg)).

Definition supabase_setup : M unit :=
  require_command "node" "Node.js no está instalado. Requerido para Supabase." ;;;
  require_command "npm" "npm no está instalado. Requerido para Supabase." ;;;
  step_cmd (lit "npm install supabase --save-dev")
    "npm_install_supabase_cli" "Fallo al instalar Supabase CLI" ;;;
  step_cmd (lit "docker info")
    "docker_info" "Docker no está en ejecución. Inícialo antes de continuar." ;;;
  step_cmd (lit "npx supabase init --yes")
    "supabase_init" "Fallo al inicializar Supabase" ;;;
  step_cmd (lit "npx supabase start")
    "supabase_start" "Fallo al iniciar Supabase".

Definition env_for_db : M unit :=
  let conn := a_dbConn answers in
  if db_is "sqlite" then
    on_disk (updateEnvValues [(lit "DB_CONNECTION", lit "sqlite")]) ;;;
    on_disk maybeCreateSqliteDatabase
  else if db_is "supabase" then
    on_disk (updateEnvValues
               [(lit "DB_CONNECTION", lit "pgsql");
                (lit "DB_HOST", lit "localhost");
                (lit "DB_PORT", lit "54322");
                (lit "DB_DATABASE", lit "postgres");
                (lit "DB_USERNAME", lit "postgres");
                (lit "DB_PASSWORD", lit "postgres")])
  else if db_is "mysql" || db_is "postgresql" then
    on_disk (updateEnvValues
               [(lit "DB_CONNECTION",
                 if db_is "mysql" then lit "mysql" else lit "pgsql");
                (lit "DB_HOST", tmpl (host conn));
                (lit "DB_PORT", tmpl (port conn));
                (lit "DB_DATABASE", tmpl (name conn));
                (lit "DB_USERNAME", tmpl (user conn));
                (lit "DB_PASSWORD", tmpl (password conn))])
  else ret tt.

Definition database_and_env : M unit :=
  when (db_is "mysql" || db_is "postgresql") service_check ;;;
  when (db_is "supabase") supabase_setup ;;;
  env_for_db ;;;
  on_disk setAppLocaleEs ;;;
  step_cmd (lit "php artisan migrate -n")
    "artisan_migrate" "Fallo al ejecutar migraciones".

Definition two_factor_patch : M unit :=
  fs <- get_disk ;;
  let has2fa := detectTwoFactorColumnsInMigrations fs in
  push (event_note "detect_two_factor_migration"
          (if has2fa then Success else Skipped)
          (Some (if has2fa then lit "2FA columns detected"
                 else lit "No 2FA columns detected"))) ;;;
  if negb has2fa then ret tt
  else
    fun st =>
      match patchUserFactoryTwoFactorDefaults (disk st) with
      | (Normal patch, fs') =>
          (on_disk (fun _ => fs') ;;;
           push (event_note "patch_user_factory_2fa"
                   (match patch with
                    | Patched => Success
                    | NotPatched _ => Skipped
                    end)
                   (Some (match patch with
                          | Patched => lit "UserFactory patched"
                          | NotPatched reason =>
                              lit "Skipped (" ++ reason ++ lit ")"
                          end)))) st
      | (Throw e, fs') => (on_disk (fun _ => fs') ;;; throw e) st
      end.

Definition filament : M unit :=
  let f := a_filament answers in
  step_cmd (lit "composer require filament/filament --with-all-dependencies -q -n")
    "composer_filament" "Fallo instalando Filament" ;;;
  step_cmd (lit "php artisan filament:install --panels -n -q")
    "artisan_filament_install" "Fallo configurando Filament" ;;;
  step_cmd
    (lit "php artisan make:filament-user --name=" ++ quoted (tmpl (fil_name f))
     ++ lit " --email=" ++ quoted (tmpl (fil_email f))
     ++ lit " --password=" ++ quoted (tmpl (fil_password f)))
    "artisan_filament_user" "Fallo creando usuario de Filament" ;;;
  step_cmd (lit "php artisan make:filament-resource User --generate -n -q")
    "artisan_filament_resource_user" "Fallo creando Resource User".

Definition pest_setup : M unit :=
  step_cmd
    (lit "php artisan pest:install -n -q || composer exec -q pest -- --init || vendor/bin/pest --init")
    "pest_install" "Fallo configurando Pest".

Definition phpstan_neon : jsstring :=
  join LF [lit "includes:";
           lit "    - vendor/larastan/larastan/extension.neon";
           lit "parameters:";
           lit "    paths:";
           lit "        - app/";
           lit "    level: 5"].

Definition createPhpstanFile : filesystem -> filesystem :=
  writeFile PhpstanNeon phpstan_neon.

Definition pint_json : jsstring :=
  join LF [lit "{";
           lit "  " ++ quoted (lit "preset") ++ lit ": " ++ quoted (lit "laravel");
           lit "}"].

Definition createPintFile : filesystem -> filesystem :=
  writeFile PintJson pint_json.

Definition rector_php : jsstring :=
  join LF [lit "<?php";
           [];
           lit "declare(strict_types=1);";
           [];
           lit "use Rector\Config\RectorConfig;";
           lit "use Rector\Php83\Rector\ClassMethod\AddOverrideAttributeToOverriddenMethodsRector;";
           [];
           lit "return RectorConfig::configure()";
           lit "    ->withPhpSets()";
           lit "    ->withSkip([";
           lit "        AddOverrideAttributeToOverriddenMethodsRector::class,";
           lit "    ])";
           lit "    ->withPaths([";
           lit "        __DIR__.'/app',";
           lit "    ])";
           lit "    ->withPreparedSets(";
           lit "        deadCode: true,";
           lit "        codeQuality: true,";
           lit "    );"].

Definition createRectorFile : filesystem -> filesystem :=
  writeFile RectorPhp rector_php.

Definition dev_tools : M unit :=
  step_cmd (lit "composer require laravel/boost --dev -q -n")
    "composer_laravel_boost" "Fallo instalando Laravel Boost" ;;;
  step_cmd (lit "php artisan boost:install -q -n")
    "artisan_boost_install" "Fallo configurando Laravel Boost" ;;;
  step_cmd (lit "composer require " ++ quoted (lit "larastan/larastan:^3.0")
            ++ lit " --dev -q")
    "composer_larastan" "Fallo instalando Larastan" ;;;
  on_disk createPhpstanFile ;;;
  step_cmd (lit "composer require barryvdh/laravel-debugbar --dev -q")
    "composer_debugbar" "Fallo instalando Debugbar" ;;;
  step_cmd (lit "composer require laravel-lang/common -q")
    "composer_laravel_lang" "Fallo instalando Laravel Lang".

Definition code_quality : M unit :=
  step_cmd (lit "composer require laravel/pint --dev -q")
    "composer_pint" "Fallo instalando Pint" ;;;
  on_disk createPintFile ;;;
  step_cmd (lit "composer require rector/rector --dev -q")
    "composer_rector" "Fallo instalando Rector" ;;;
  on_disk createRectorFile.

Definition essentials : M unit :=
  step_cmd
    (lit "composer config repositories.essentials-fork vcs https://github.com/JhonMA82/essentials")
    "composer_config_essentials_repo" "Fallo configurando repo Essentials" ;;;
  step_cmd (lit "composer require nunomaduro/essentials:0.1.1 -q -n")
    "composer_essentials" "Fallo instalando Essentials" ;;;
  step_cmd (lit "php artisan vendor:publish --tag=essentials-config -n -q")
    "artisan_vendor_publish_essentials"
    "Fallo publicando configuración de Essentials".

Definition frontend : M unit :=
  require_command "node" "Node.js no está instalado." ;;;
  require_command "npm" "npm no está instalado." ;;;
  step_cmd (lit "npm install") "npm_install" "Fallo en npm install" ;;;
  (if kit_is "react" then
     step_cmd (lit "npm install @vitejs/plugin-react --save-dev")
       "npm_install_vite_react" "Fallo instalando plugin Vite React"
   else if kit_is "vue" then
     step_cmd (lit "npm install @vitejs/plugin-vue --save-dev")
       "npm_install_vite_vue" "Fallo instalando plugin Vite Vue"
   else ret tt) ;;;
  step_cmd (lit "npm run build")
    "npm_run_build" "Fallo construyendo assets con Vite".

Definition localization : M unit :=
  step_cmd (lit "php artisan lang:add es -n -q")
    "artisan_lang_add" "Fallo agregando idioma es" ;;;
  step_cmd (lit "php artisan lang:update -q -n")
    "artisan_lang_update" "Fallo actualizando traducciones".

Definition pre_commit : M unit :=
  on_disk ensurePhpunitAppLocaleEn ;;;
  step_cmd (lit "php vendor/bin/phpstan") "phpstan" "PHPStan falló" ;;;
  step_cmd (lit "php vendor/bin/pest") "pest" "Pest falló" ;;;
  step_cmd (lit "php vendor/bin/pint") "pint" "Pint falló" ;;;
  step_cmd (lit "php vendor/bin/rector process") "rector" "Rector falló".

Definition dbLabel : jsstring := dbLabelOf (a_db answers).

Definition commitMessage : jsstring :=
  lit "✨ Filament + " ++ dbLabel
  ++ lit " instalados: Configuración inicial por fases con starter kit y herramientas".

Definition git : M unit :=
  step_cmd (lit "git add .") "git_add" "Fallo en git add" ;;;
  step_cmd (lit "git commit -m " ++ quoted commitMessage)
    "git_commit" "Fallo en git commit".

(** A task of the list handed to [Listr]. *)
Record task := mkTask {
  title : jsstring;
  action : M unit
}.

Definition tasks : list task :=
  [ {| title := lit "Prechequeos"; action := prechecks |};
    {| title := lit "Scaffold del proyecto"; action := scaffold |};
    {| title := lit "Base de datos y entorno"; action := database_and_env |};
    {| title := lit "Parche 2FA (UserFactory)"; action := two_factor_patch |};
    {| title := lit "Filament"; action := filament |};
    {| title := lit "Pruebas (Pest)"; action := pest_setup |};
    {| title := lit "Herramientas de desarrollo"; action := dev_tools |};
    {| title := lit "Calidad de código"; action := code_quality |};
    {| title := lit "Essentials"; action := essentials |};
    {| title := lit "Frontend (Node + Vite)"; action := frontend |};
    {| title := lit "Localización ES"; action := localization |};
    {| title := lit "Pruebas y calidad (pre-commit)"; action := pre_commit |};
    {| title := lit "Git"; action := git |} ].

End Pipeline.

(** [new Listr(tasks, { concurrent: false, exitOnError: true }).run()]
    as listr2 documents it: the tasks run one after the other, in the
    order of the list; the first action that throws ends the run,
    which rejects with the error thrown. *)
Fixpoint Listr_run (ts : list task) : M unit :=
  match ts with
  | [] => ret tt
  | t :: rest =>
      fun st =>
        match action t (mark_started (title t) st) with
        | (Normal _, st') => Listr_run rest st'
        | (Throw e, st') => (Throw e, st')
        end
  end.

(* ================================================================== *)
(** * The orchestrator *)
(* ================================================================== *)

Record flags_echo := mkFlags {
  fl_json : bool;
  fl_nonInteractive : bool;
  fl_yes : bool;
  fl_verbose : bool
}.

Record environment_t := mkEnvironment {
  env_tty : bool;
  env_node : jsstring;
  env_platform : jsstring
}.

(** An entry of the [tasks] array of the document. *)
Record task_entry := mkEntry {
  t_index : nat;
  t_name : jsstring;
  t_status : status;
  t_durationMs : option Z;
  t_stdout : option jsstring;
  t_stderr : option jsstring
}.

Record supabase_status := mkSupabase {
  sb_status : status;
  sb_stdout : jsstring;
  sb_stderr : jsstring
}.

(** The object handed to [JSON.stringify], in its three shapes. *)
Inductive json_doc :=
| ValidationError (fl : flags_echo) (en : environment_t)
    (error_message error_code : jsstring)
| RunSuccess (fl : flags_echo) (en : environment_t) (input : answers_t)
    (entries : list task_entry) (result_projectPath result_dbLabel : jsstring)
    (supabase : option supabase_status) (totalDurationMs : Z)
| RunFailure (fl : flags_echo) (en : environment_t)
    (entries : list task_entry) (error_message : jsstring)
    (error_step : option jsstring) (totalDurationMs : Z).

(** [events.map((e, i) => ({ index: i, ... }))] *)
Definition entries_of (evs : list event) : list task_entry :=
  map (fun ie =>
         {| t_index := fst ie;
            t_name := ev_name (snd ie);
            t_status := ev_status (snd ie);
            t_durationMs := ev_durationMs (snd ie);
            t_stdout := ev_stdout (snd ie);
            t_stderr := ev_stderr (snd ie) |})
      (combine (seq 0 (List.length evs)) evs).

(** How [runCreate] ends: the code given to [process.exit], the
    document written to the standard output if any, the variables set
    in [process.env], the state the run reached, and the error with
    which [runCreate] rejects if it does.  A rejection is caught by
    [main().catch] in index.js, which hands the error to
    [console.error] and calls [process.exit(1)]. *)
Record outcome := mkOutcome {
  exit_code : Z;
  document : option json_doc;
  process_env : list (jsstring * jsstring);
  final : run_state;
  uncaught : option js_error
}.

(** [err.step || null] *)
Definition step_or_null (err : js_error) : option jsstring :=
  if truthy (step err) then step err else None.

Section RunCreate.

Variable w : world.
Variable ctx : ctx_t.

Definition tty : bool := isTTY (stdout_isTTY w) (stdin_isTTY w).

Definition interactive : bool :=
  negb (json ctx) && negb (nonInteractive ctx) && tty.

Definition colorOn : bool :=
  colorsEnabled tty {| cc_json := json ctx; cc_noColor := noColor ctx;
                       cc_color := color ctx |}.

Definition color_env : list (jsstring * jsstring) :=
  if negb colorOn
  then [(lit "FORCE_COLOR", lit "0"); (lit "NO_COLOR", lit "1")]
  else if is_true (color ctx) then [(lit "FORCE_COLOR", lit "1")]
  else [].

Definition flags_of_ctx : flags_echo :=
  {| fl_json := json ctx; fl_nonInteractive := nonInteractive ctx;
     fl_yes := yes ctx; fl_verbose := verbose ctx |}.

Definition environment : environment_t :=
  {| env_tty := tty; env_node := node_version w;
     env_platform := platform w |}.

Definition initial_state (disk0 : filesystem) : run_state :=
  {| events := []; process_cwd := initial_cwd w; projectPath := [];
     disk := disk0; console := []; started := [] |}.

Definition styled_if_color (s : style) : style := if colorOn then s else Plain.

(** How the parameters of the run are settled before any task exists:
    resolved, cancelled at a prompt, rejected for missing flags, or not
    settled at all because the look-up of the Herd directory
    rejected. *)
Inductive resolution :=
| Resolved (answers : answers_t)
| Cancelled
| Missing (missing : list jsstring)
| Rejected (error : js_error).

(** [input.herdDir || (await getHerdDirectory())]: the directory is
    looked up only where the flag does not give one. *)
Definition herdDir_or_lookup (input : input_t) : completion jsstring :=
  if truthy (herdDir input)
  then Normal (or_else (herdDir input) [])
  else getHerdDirectory w None.

Definition resolve : resolution :=
  if interactive then
    match interactiveGather w (flags ctx) (yes ctx) with
    | Normal (Some answers) => Resolved answers
    | Normal None => Cancelled
    | Throw error => Rejected error
    end
  else
    let input := fill_defaults (nonInteractive ctx) (flags ctx) in
    let missing := validateNonInteractive input in
    if 0 <? List.length missing then Missing missing
    else
      match herdDir_or_lookup input with
      | Normal _ => Resolved (answers_of_input w input)
      | Throw error => Rejected error
      end.

(** The report of the flags that are missing, then [process.exit(1)]. *)
Definition reject_missing (missing : list jsstring) (st : run_state)
  : outcome :=
  let message := missing_message missing in
  if json ctx then
    {| exit_code := 1;
       document := Some (ValidationError flags_of_ctx environment
                           message (lit "EINVAL"));
       process_env := color_env;
       final := st;
       uncaught := None |}
  else
    {| exit_code := 1;
       document := None;
       process_env := color_env;
       final := snd (print {| to := Stderr; styled := styled_if_color Red;
                              line_text := message |} st);
       uncaught := None |}.

Definition supabase_report (answers : answers_t) : M unit :=
  if is_lit (a_db answers) (lit "supabase") then
    r <- run_cmd w (lit "npx supabase status") ;;
    if colorOn then
      if is_error (r_status r) then
        print {| to := Stdout; styled := Red;
                 line_text :=
                   lit "No se pudo obtener la información de los contenedores de Supabase." |}
      else
        print {| to := Stdout; styled := GreenBold;
                 line_text :=
                   LF :: lit "Los contenedores de Supabase ya están en ejecución." |} ;;;
        print {| to := Stdout; styled := YellowBold;
                 line_text :=
                   LF :: lit "Información de los contenedores de Supabase:" |} ;;;
        print {| to := Stdout; styled := Cyan; line_text := r_stdout r |}
    else
      if is_error (r_status r) then
        print {| to := Stdout; styled := Plain;
                 line_text := lit "No se pudo obtener estado de Supabase." |}
      else
        print {| to := Stdout; styled := Plain;
                 line_text := LF :: lit "Supabase en ejecución." |} ;;;
        print {| to := Stdout; styled := Plain;
                 line_text := LF :: lit "Estado de contenedores:" |} ;;;
        print {| to := Stdout; styled := Plain; line_text := r_stdout r |}
  else ret tt.

(** The text branch after a run that completed. *)
Definition farewell (answers : answers_t) : M unit :=
  supabase_report answers ;;;
  print {| to := Stdout; styled := styled_if_color Bold;
           line_text := LF :: lit "¡Que disfrutes tu nuevo proyecto! 🚀" |} ;;;
  fun st =>
    let option := showFinalMenu w (projectPath st) in
    if eqs option (lit "vscode") then
      match openVSCode w (projectPath st) with
      | Some error =>
          print {| to := Stderr; styled := styled_if_color RedBold;
                   line_text :=
                     LF :: lit "Error al abrir VS Code: " ++ error |} st
      | None => (Normal tt, st)
      end
    else (Normal tt, st).

(** The document of a run that completed; of [answers] it echoes all
    but the Filament password. *)
Definition success_document (answers : answers_t) : M json_doc :=
  supabaseStatus <-
    (if is_lit (a_db answers) (lit "supabase") then
       r <- run_cmd w (lit "npx supabase status") ;;
       ret (Some {| sb_status := r_status r; sb_stdout := r_stdout r;
                    sb_stderr := r_stderr r |})
     else ret None) ;;
  fun st =>
    (Normal (RunSuccess flags_of_ctx environment answers
               (entries_of (events st)) (projectPath st)
               (dbLabel answers) supabaseStatus (totalMs w)),
     st).

(** The [catch] of [runCreate]: the failure document or the failure
    line, then [process.exit(1)]. *)
Definition report_failure (err : js_error) (st : run_state) : outcome :=
  if json ctx then
    {| exit_code := 1;
       document := Some (RunFailure flags_of_ctx environment
                           (entries_of (events st)) (message err)
                           (step_or_null err) (totalMs w));
       process_env := color_env;
       final := st;
       uncaught := None |}
  else
    {| exit_code := 1;
       document := None;
       process_env := color_env;
       final := snd (print {| to := Stderr; styled := styled_if_color RedBold;
                              line_text :=
                                LF :: lit "Ha ocurrido un error: "
                                ++ message err |} st);
       uncaught := None |}.

(** The [try] of [runCreate]: the tasks, then the report of success. *)
Definition attempt (answers : answers_t) : M (option json_doc) :=
  Listr_run (tasks w (json ctx) colorOn answers) ;;;
  if json ctx then
    doc <- success_document answers ;;
    ret (Some doc)
  else
    farewell answers ;;;
    ret None.

Definition runCreate (disk0 : filesystem) : outcome :=
  let st0 := initial_state disk0 in
  match resolve with
  | Cancelled =>
      {| exit_code := 0; document := None; process_env := color_env;
         final := st0; uncaught := None |}
  | Missing missing => reject_missing missing st0
  | Rejected error =>
      {| exit_code := 1; document := None; process_env := color_env;
         final := st0; uncaught := Some error |}
  | Resolved answers =>
      match attempt answers st0 with
      | (Normal doc, st) =>
          {| exit_code := 0; document := doc; process_env := color_env;
             final := st; uncaught := None |}
      | (Throw err, st) => report_failure err st
      end
  end.

End RunCreate.

(* ================================================================== *)
(** * Statements of the specification *)
(* ================================================================== *)

(** The rule for colour as the specification words it: structured
    output off, the disable flag off, and a terminal on both streams
    unless the force flag is set. *)
Definition spec_colorsEnabled (tty : bool) (ctx : color_ctx) : bool :=
  negb (cc_json ctx)
  && negb (is_true (cc_noColor ctx) || is_false (cc_color ctx))
  && (tty || is_true (cc_color ctx)).

(** A flag that defaults to [d]: what was given is kept, and [d]
    stands in only where nothing was given. *)
Definition defaults_to (given : option jsstring) (d : string)
    (used : option jsstring) : Prop :=
  if truthy given then used = given else used = Some (lit d).

(** Updates that the merge can find again in the lines it wrote: no key
    holds [=] or a line feed, or begins with white space or [#], and no
    value holds a line feed. *)
Definition key_ok (key : jsstring) : bool :=
  negb (existsb (fun c => (c =? LF) || (c =? EQ))%N key)
  && match key with
     | [] => true
     | c :: _ => negb (is_ws c) && negb (c =? HASH)%N
     end.

Definition value_ok (value : jsstring) : bool :=
  negb (existsb (fun c => (c =? LF)%N) value).

Definition updates_ok (updates : updates_t) : bool :=
  forallb (fun kv => key_ok (fst kv) && value_ok (snd kv)) updates.

(** A line that the merge has no update for: a comment, a line without
    [=], or a line whose key is not among the updates. *)
Definition untouched (updates : updates_t) (line : jsstring) : bool :=
  let trimmedLine := trim line in
  startsWith [HASH] trimmedLine
  || negb (includes [EQ] trimmedLine)
  || match lookup (hd [] (split EQ trimmedLine)) updates with
     | Some _ => false
     | None => true
     end.

(** The first list, in its order, within the second. *)
Inductive in_order {A : Type} : list A -> list A -> Prop :=
| in_order_nil : forall l, in_order [] l
| in_order_keep : forall x a l, in_order a l -> in_order (x :: a) (x :: l)
| in_order_skip : forall x a l, in_order a l -> in_order a (x :: l).

(** A disk that holds one file. *)
Definition single_file (p : path) (data : jsstring) : filesystem :=
  {| files := fun q => if path_eqb q p then Some data else None;
     migrations := None;
     written := [] |}.

(** The text that [updateEnvValues] merges into: a missing [.env]
    reads as empty. *)
Definition env_content (fs : filesystem) : jsstring :=
  match readFile DotEnv fs with
  | Some c => c
  | None => []
  end.

(** An update whose value spans two lines. *)
Definition multiline_updates : updates_t :=
  [(lit "APP_NOTE", lit "first" ++ LF :: lit "second")].

(** Updates whose key the merge cannot find again in the line it
    wrote: a key that holds [=], one that begins with a space, one that
    begins with [#]. *)
Definition eq_key_updates : updates_t := [(lit "A=B", lit "1")].
Definition space_key_updates : updates_t := [(lit " A", lit "1")].
Definition hash_key_updates : updates_t := [(lit "#A", lit "1")].

(** A key that holds a line feed. *)
Definition line_feed_key_updates : updates_t :=
  [(lit "A" ++ LF :: lit "B", lit "1")].

(** Scenario A of the specification. *)
Definition scenarioA_content : jsstring :=
  lit "APP_ENV=local" ++ LF :: lit "# comment" ++ [LF].

Definition scenarioA_updates : updates_t :=
  [(lit "APP_ENV", lit "production"); (lit "APP_LOCALE", lit "es")].

Definition scenarioA_expected : jsstring :=
  lit "APP_ENV=production" ++ LF :: lit "# comment" ++ LF
  :: lit "APP_LOCALE=es".

(** An action none of whose errors has a [step] property. *)
Definition plain {A : Type} (m : M A) : Prop :=
  forall (st st' : run_state) (e : js_error),
    m st = (Throw e, st') -> step e = None.

(** An action all of whose results satisfy [P]. *)
Definition yields {A : Type} (P : A -> Prop) (m : M A) : Prop :=
  forall (st st' : run_state) (a : A), m st = (Normal a, st') -> P a.

Definition is_success_doc (d : json_doc) : Prop :=
  match d with
  | RunSuccess _ _ _ _ _ _ _ _ => True
  | _ => False
  end.

Definition no_failure_doc (d : option json_doc) : Prop :=
  match d with
  | Some (RunFailure _ _ _ _ _ _) => False
  | _ => True
  end.

(** ** Sample runs *)

Definition ok_reply : exec_reply :=
  {| settled := Normal {| ok_stdout := Some []; ok_stderr := Some [] |};
     elapsed := 5 |}.

(** The path that [dir] resolves to from [cwd], for paths without
    [.] and [..] segments and without links. *)
Definition resolved_from (cwd dir : jsstring) : jsstring :=
  if startsWith (lit "/") dir then dir else cwd ++ lit "/" ++ dir.

(** A machine without a terminal on which every command exists and
    succeeds, leaving the project's files alone. *)
Definition calm_world : world :=
  {| stdout_isTTY := false;
     stdin_isTTY := false;
     node_version := lit "v20.11.1";
     platform := lit "linux";
     execa := fun _ _ => ok_reply;
     disk_effect := fun _ fs => fs;
     commandExists := fun _ => true;
     isPortOpen := fun _ _ _ => true;
     home_herd := lit "/home/dev/Herd";
     path_join := fun a b => a ++ lit "/" ++ b;
     mkdir_rejects := fun _ => None;
     initial_cwd := lit "/home/dev";
     cwd_after := resolved_from;
     interactiveGather := fun _ _ => Normal None;
     showFinalMenu := fun _ => lit "exit";
     openVSCode := fun _ => None;
     totalMs := 90 |}.

(** The rejection of a command that exits with a non-zero code after
    writing "boom" to its standard error. *)
Definition boom : js_error :=
  {| message := lit "Command failed with exit code 1";
     e_stdout := Some [];
     e_stderr := Some (lit "boom");
     step := None |}.

(** The same machine, on which [laravel new] fails. *)
Definition scaffold_fails : world :=
  {| stdout_isTTY := false;
     stdin_isTTY := false;
     node_version := lit "v20.11.1";
     platform := lit "linux";
     execa := fun cmd _ =>
                if startsWith (lit "laravel new ") cmd
                then {| settled := Throw boom; elapsed := 7 |}
                else ok_reply;
     disk_effect := fun _ fs => fs;
     commandExists := fun _ => true;
     isPortOpen := fun _ _ _ => true;
     home_herd := lit "/home/dev/Herd";
     path_join := fun a b => a ++ lit "/" ++ b;
     mkdir_rejects := fun _ => None;
     initial_cwd := lit "/home/dev";
     cwd_after := resolved_from;
     interactiveGather := fun _ _ => Normal None;
     showFinalMenu := fun _ => lit "exit";
     openVSCode := fun _ => None;
     totalMs := 90 |}.

(** The rejection of [fs.mkdir] where the home directory is not
    writable. *)
Definition eacces : js_error :=
  {| message := lit "EACCES: permission denied, mkdir '/home/dev/Herd'";
     e_stdout := None;
     e_stderr := None;
     step := None |}.

(** The same machine as [calm_world], on which the Herd directory is
    absent and cannot be made. *)
Definition herd_locked : world :=
  {| stdout_isTTY := false;
     stdin_isTTY := false;
     node_version := lit "v20.11.1";
     platform := lit "linux";
     execa := fun _ _ => ok_reply;
     disk_effect := fun _ fs => fs;
     commandExists := fun _ => true;
     isPortOpen := fun _ _ _ => true;
     home_herd := lit "/home/dev/Herd";
     path_join := fun a b => a ++ lit "/" ++ b;
     mkdir_rejects := fun _ => Some eacces;
     initial_cwd := lit "/home/dev";
     cwd_after := resolved_from;
     interactiveGather := fun _ _ => Normal None;
     showFinalMenu := fun _ => lit "exit";
     openVSCode := fun _ => None;
     totalMs := 90 |}.

Definition empty_disk : filesystem :=
  {| files := fun _ => None; migrations := None; written := [] |}.

(** [--json --non-interactive --project-name app --starter-kit react
     --db sqlite --filament-name Admin --filament-email admin@admin.com
     --filament-password password] *)
Definition sqlite_flags : input_t :=
  {| projectName := Some (lit "app");
     starterKit := Some (lit "react");
     db := Some (lit "sqlite");
     dbHost := None; dbPort := None; dbName := None;
     dbUser := None; dbPassword := None;
     herdDir := None;
     filamentName := Some (lit "Admin");
     filamentEmail := Some (lit "admin@admin.com");
     filamentPassword := Some (lit "password") |}.

Definition sqlite_ctx : ctx_t :=
  {| json := true; nonInteractive := true; yes := false; verbose := false;
     color := None; noColor := None; flags := sqlite_flags |}.

(** Scenario D: [--non-interactive --project-name app --starter-kit vue
     --db mysql] with the Filament flags and no connection flag. *)
Definition mysql_flags : input_t :=
  {| projectName := Some (lit "app");
     starterKit := Some (lit "vue");
     db := Some (lit "mysql");
     dbHost := None; dbPort := None; dbName := None;
     dbUser := None; dbPassword := None;
     herdDir := None;
     filamentName := Some (lit "Admin");
     filamentEmail := Some (lit "admin@admin.com");
     filamentPassword := Some (lit "password") |}.

Definition mysql_ctx : ctx_t :=
  {| json := false; nonInteractive := true; yes := false; verbose := false;
     color := None; noColor := None; flags := mysql_flags |}.

(** [--non-interactive] alone. *)
Definition bare_ctx : ctx_t :=
  {| json := false; nonInteractive := true; yes := false; verbose := false;
     color := None; noColor := None;
     flags := {| projectName := None; starterKit := None; db := None;
                 dbHost := None; dbPort := None; dbName := None;
                 dbUser := None; dbPassword := None; herdDir := None;
                 filamentName := None; filamentEmail := None;
                 filamentPassword := None |} |}.

(** The flags of [sqlite_ctx] with [--herd-dir Herd2], a path relative
    to the directory in which the process starts. *)
Definition relative_herd_ctx : ctx_t :=
  {| json := true; nonInteractive := true; yes := false; verbose := false;
     color := None; noColor := None;
     flags := {| projectName := Some (lit "app");
                 starterKit := Some (lit "react");
                 db := Some (lit "sqlite");
                 dbHost := None; dbPort := None; dbName := None;
                 dbUser := None; dbPassword := None;
                 herdDir := Some (lit "Herd2");
                 filamentName := Some (lit "Admin");
                 filamentEmail := Some (lit "admin@admin.com");
                 filamentPassword := Some (lit "password") |} |}.

(** [--json] alone. *)
Definition no_flags : input_t :=
  {| projectName := None; starterKit := None; db := None;
     dbHost := None; dbPort := None; dbName := None;
     dbUser := None; dbPassword := None; herdDir := None;
     filamentName := None; filamentEmail := None;
     filamentPassword := None |}.

Definition json_only_ctx : ctx_t :=
  {| json := true; nonInteractive := false; yes := false; verbose := false;
     color := None; noColor := None; flags := no_flags |}.

(** [--json --project-name app --starter-kit vue] *)
Definition json_vue_ctx : ctx_t :=
  {| json := true; nonInteractive := false; yes := false; verbose := false;
     color := None; noColor := None;
     flags := {| projectName := Some (lit "app");
                 starterKit := Some (lit "vue"); db := None;
                 dbHost := None; dbPort := None; dbName := None;
                 dbUser := None; dbPassword := None; herdDir := None;
                 filamentName := None; filamentEmail := None;
                 filamentPassword := None |} |}.

(** A [UserFactory.php] as Laravel generates it, in short. *)
Definition sample_factory : jsstring :=
  join LF [lit "<?php";
           lit "class UserFactory extends Factory";
           lit "{";
           lit "    public function definition(): array";
           lit "    {";
           lit "        return [";
           lit "            'name' => fake()->name(),";
           lit "            'email' => fake()->unique()->safeEmail()";
           lit "        ];";
           lit "    }";
           lit "}";
           []].

(** A [phpunit.xml] that already sets [APP_LOCALE], to "es". *)
Definition phpunit_with_locale : jsstring :=
  join LF [lit "<phpunit bootstrap=" ++ quoted (lit "vendor/autoload.php")
           ++ lit ">";
           lit "<php><env name=" ++ quoted (lit "APP_LOCALE")
           ++ lit " value=" ++ quoted (lit "es") ++ lit "/></php>";
           lit "</phpunit>"].

(** ** Further samples *)

(** A [phpunit.xml] whose root element sets [colors] and that sets
    [APP_LOCALE], neither to the value the patcher wants. *)
Definition phpunit_settled : jsstring :=
  join LF [lit "<phpunit colors=" ++ quoted (lit "false") ++ lit ">";
           lit "<php><env name=" ++ quoted (lit "APP_LOCALE")
           ++ lit " value=" ++ quoted (lit "es") ++ lit "/></php>";
           lit "</phpunit>"].

(** A migrations directory: a sub-directory, a file that is not PHP, a
    migration without two-factor columns and one with them. *)
Definition sample_migrations : list dirent :=
  [ {| d_name := lit "archive"; d_isFile := false; d_data := None |};
    {| d_name := lit "README.md"; d_isFile := true;
       d_data := Some (lit "two_factor_secret") |};
    {| d_name := lit "0001_create_jobs_table.php"; d_isFile := true;
       d_data := Some (lit "Schema::create('jobs')") |};
    {| d_name := lit "0002_add_two_factor_columns.php"; d_isFile := true;
       d_data := Some (lit "$table->text('two_factor_secret')") |} ].

Definition jobs_migration : dirent :=
  {| d_name := lit "0001_create_jobs_table.php"; d_isFile := true;
     d_data := Some (lit "Schema::create('jobs')") |}.

Definition locked_migration : dirent :=
  {| d_name := lit "0002_locked.php"; d_isFile := true; d_data := None |}.

(** A disk that holds nothing but a migrations directory. *)
Definition migrations_only (entries : list dirent) : filesystem :=
  {| files := fun _ => None; migrations := Some entries; written := [] |}.

(** The scan of the migrations as one test: is there a regular [.php]
    file, read before any read fails, that holds [two_factor_]? *)
Fixpoint holds_two_factor (entries : list dirent) : bool :=
  match entries with
  | [] => false
  | entry :: rest =>
      if d_isFile entry && endsWith (lit ".php") (d_name entry)
      then match d_data entry with
           | None => false
           | Some data =>
               includes (lit "two_factor_") data || holds_two_factor rest
           end
      else holds_two_factor rest
  end.

(** ** Statements about runs *)

(** The titles of the tasks, in the order of the list. *)
Definition task_titles : list jsstring :=
  [lit "Prechequeos"; lit "Scaffold del proyecto";
   lit "Base de datos y entorno"; lit "Parche 2FA (UserFactory)";
   lit "Filament"; lit "Pruebas (Pest)"; lit "Herramientas de desarrollo";
   lit "Calidad de código"; lit "Essentials"; lit "Frontend (Node + Vite)";
   lit "Localización ES"; lit "Pruebas y calidad (pre-commit)"; lit "Git"].

(** An action that relates every state to the state it leaves, whether
    it returns or throws. *)
Definition preserves (R : run_state -> run_state -> Prop) {A : Type}
    (m : M A) : Prop :=
  forall st : run_state, R st (snd (m st)).

(** From a state in [P], the action returns in [Q] or throws in [E]. *)
Definition hoare {A : Type} (P : run_state -> Prop) (m : M A)
    (Q : A -> run_state -> Prop) (E : js_error -> run_state -> Prop)
  : Prop :=
  forall st : run_state,
    P st ->
    match m st with
    | (Normal a, st') => Q a st'
    | (Throw e, st') => E e st'
    end.

Definition same_started (st st' : run_state) : Prop :=
  started st' = started st.

Definition events_extend (st st' : run_state) : Prop :=
  exists more : list event, events st' = events st ++ more.

Definition same_console (st st' : run_state) : Prop :=
  console st' = console st.

Definition same_place (st st' : run_state) : Prop :=
  process_cwd st' = process_cwd st /\ projectPath st' = projectPath st.

(** No event of the list has the status error. *)
Definition clean (evs : list event) : Prop :=
  Forall (fun ev => ev_status ev <> Error) evs.

(** The same machine with other answers to its prompts. *)
Definition with_prompts (w : world)
    (gather : input_t -> bool -> completion (option answers_t))
    (menu : jsstring -> jsstring) (vscode : jsstring -> option jsstring)
  : world :=
  {| stdout_isTTY := stdout_isTTY w;
     stdin_isTTY := stdin_isTTY w;
     node_version := node_version w;
     platform := platform w;
     execa := execa w;
     disk_effect := disk_effect w;
     commandExists := commandExists w;
     isPortOpen := isPortOpen w;
     home_herd := home_herd w;
     path_join := path_join w;
     mkdir_rejects := mkdir_rejects w;
     initial_cwd := initial_cwd w;
     cwd_after := cwd_after w;
     interactiveGather := gather;
     showFinalMenu := menu;
     openVSCode := vscode;
     totalMs := totalMs w |}.

(** From a clean log, the action returns with a clean log, or throws
    with a log that is clean up to its last event. *)
Definition careful (A : Type) (m : M A) : Prop :=
  hoare (fun st => clean (events st)) m
        (fun _ st => clean (events st))
        (fun _ st => clean (removelast (events st))).
Arguments careful : clear implicits.

(** An action that returns, from every state. *)
Definition unfailing (A : Type) (m : M A) : Prop :=
  hoare (fun _ => True) m (fun _ _ => True) (fun _ _ => False).
Arguments unfailing : clear implicits.

(** What [process.cwd()] answers once the prechecks have entered the
    Herd directory. *)
Definition herd_cwd (w : world) (answers : answers_t) : jsstring :=
  cwd_after w (initial_cwd w) (herdDir_of w (Some (a_herdDir answers))).

(** The project path that the scaffold sets: [path.join] of the working
    directory it finds and the project name. *)
Definition project_path_set (w : world) (answers : answers_t)
    (st : run_state) : Prop :=
  exists name : jsstring,
    a_projectName answers = Some name /\
    projectPath st = path_join w (herd_cwd w answers) name.

(** The place of a run after its scaffold: the project path is set and
    the working directory is the one that [process.chdir(projectPath)]
    led to. *)
Definition placed (w : world) (answers : answers_t) (st : run_state) : Prop :=
  project_path_set w answers st /\
  process_cwd st = cwd_after w (herd_cwd w answers) (projectPath st).

(** The [tasks] array of a document; the document of a validation
    failure has none. *)
Definition doc_tasks (d : json_doc) : option (list task_entry) :=
  match d with
  | ValidationError _ _ _ _ => None
  | RunSuccess _ _ _ entries _ _ _ _ => Some entries
  | RunFailure _ _ entries _ _ _ => Some entries
  end.

(** No line on the console is styled. *)
Definition unstyled (st : run_state) : Prop :=
  Forall (fun l => styled l = Plain) (console st).

Definition keeps_unstyled (st st' : run_state) : Prop :=
  unstyled st -> unstyled st'.

(** The updates of Scenario A with a value that is [undefined]:
    [{ APP_ENV: 'production', APP_LOCALE: undefined }]. *)
Definition scenarioA_loose : Legacy.loose_updates :=
  [(lit "APP_ENV", Some (lit "production")); (lit "APP_LOCALE", None)].

(** Two of the names that every object inherits from
    [Object.prototype], with the text a template literal prints for
    them. *)
Definition object_prototype (key : jsstring) : option jsstring :=
  if eqs key (lit "constructor")
  then Some (lit "function Object() { [native code] }")
  else if eqs key (lit "toString")
  then Some (lit "function toString() { [native code] }")
  else None.

(* ================================================================== *)
(** * Properties *)
(* ================================================================== *)

Unset Implicit Arguments.

(** ** CommandRunner *)

(** C3.  [run] never throws: whatever the command, the options and the
    way the spawned process settles, it returns a result.  A process
    that resolves gives status success with both streams truncated and
    the elapsed time; a rejection (non-zero exit or spawn error) gives
    status error with the streams of the error truncated, the message
    standing in for an empty stderr, and the error itself kept.  A
    rejection whose stderr is "boom" returns stderr "boom". *)
Theorem run_never_throws :
  forall (execa : jsstring -> exec_opts -> exec_reply)
         (cmd : jsstring) (opts : exec_opts),
    (exists r : run_result,
        run execa cmd opts = Normal r /\
        r_durationMs r = elapsed (execa cmd opts) /\
        match settled (execa cmd opts) with
        | Normal out =>
            r_status r = Success /\
            r_stdout r = truncate (ok_stdout out) /\
            r_stderr r = truncate (ok_stderr out) /\
            r_error r = None
        | Throw error =>
            r_status r = Error /\
            r_stdout r = truncate (e_stdout error) /\
            r_stderr r = (if truthy (e_stderr error)
                          then truncate (e_stderr error)
                          else truncate (Some (message error))) /\
            r_error r = Some error
        end) /\
    (forall (out : option jsstring) (msg : jsstring) (ms : Z),
        let error := {| message := msg; e_stdout := out;
                        e_stderr := Some (lit "boom"); step := None |} in
        run (fun _ _ => {| settled := Throw error; elapsed := ms |}) cmd opts
        = Normal {| r_status := Error; r_durationMs := ms;
                    r_stdout := truncate out; r_stderr := lit "boom";
                    r_error := Some error |}).
Proof.
  intros execa cmd opts. split.
  - unfold run. destruct opts as [c e]; simpl.
    destruct (execa cmd {| cwd := c; env := e |}) as [[out | error] ms]; simpl.
    + eexists; repeat split.
    + eexists; repeat split.
      unfold or_message. destruct (truthy (e_stderr error)); reflexivity.
  - intros out msg ms error. reflexivity.
Qed.

Lemma digits_of_string_of_uint (d : Decimal.uint) :
  digits_of (lit (NilEmpty.string_of_uint d)) = Some d.
Proof.
  unfold lit.
  induction d; simpl; try reflexivity;
    match goal with
    | |- context [digits_of ?x] =>
        match type of IHd with
        | digits_of ?y = _ => change x with y
        end
    end; rewrite IHd; reflexivity.
Qed.

Lemma Number_toString_states (n : N) :
  stated_number (Number_toString n) = Some n.
Proof.
  unfold stated_number, Number_toString.
  rewrite digits_of_string_of_uint. simpl.
  rewrite DecimalN.Unsigned.of_to.
  destruct (lit (NilEmpty.string_of_uint (N.to_uint n))) eqn:E; [|reflexivity].
  exfalso.
  pose proof (digits_of_string_of_uint (N.to_uint n)) as H.
  rewrite E in H. simpl in H. inversion H as [H1].
  destruct n as [|p]; [discriminate|].
  simpl in H1. symmetry in H1. revert H1. apply DecimalPos.Unsigned.to_uint_nonnil.
Qed.

(** C4.  A captured stream longer than 8192 units is cut to exactly its
    first 8192 units, followed by a marker whose digits state the number
    of units left out, its length less 8192; a stream of at most 8192
    units is returned as it is. *)
Theorem truncate_spec :
  forall s : jsstring,
    (N.to_nat 8192 < List.length s ->
     exists digits : jsstring,
       truncate (Some s)
       = firstn (N.to_nat 8192) s
         ++ lit "\n... [truncated " ++ digits ++ lit " chars]" /\
       List.length (firstn (N.to_nat 8192) s) = N.to_nat 8192 /\
       stated_number digits = Some (N.of_nat (List.length s) - 8192)%N) /\
    (List.length s <= N.to_nat 8192 -> truncate (Some s) = s).
Proof.
  intros s. unfold truncate, truncate_to, default_max.
  set (max := N.to_nat 8192). split.
  - intros Hlen.
    destruct s as [|c s']; [inversion Hlen|].
    apply Nat.ltb_lt in Hlen. rewrite Hlen.
    exists (Number_toString (N.of_nat (List.length (c :: s') - max))).
    split; [|split].
    + unfold slice, truncated_marker. rewrite Nat.sub_0_r. reflexivity.
    + apply firstn_length_le. apply Nat.ltb_lt in Hlen. lia.
    + rewrite Number_toString_states. f_equal.
      rewrite Nat2N.inj_sub. unfold max. rewrite N2Nat.id. reflexivity.
  - intros Hlen.
    destruct s as [|c s']; [reflexivity|].
    apply Nat.ltb_ge in Hlen. rewrite Hlen. reflexivity.
Qed.

Lemma truncate_spec_witness :
  (exists digits : jsstring,
      truncate (Some (repeat 120%N (N.to_nat 8200)))
      = firstn (N.to_nat 8192) (repeat 120%N (N.to_nat 8200))
        ++ lit "\n... [truncated " ++ digits ++ lit " chars]" /\
      List.length (firstn (N.to_nat 8192) (repeat 120%N (N.to_nat 8200)))
      = N.to_nat 8192 /\
      stated_number digits
      = Some (N.of_nat (List.length (repeat 120%N (N.to_nat 8200))) - 8192)%N)
  /\ truncate (Some (lit "boom")) = lit "boom".
Proof.
  split.
  - apply (proj1 (truncate_spec (repeat 120%N (N.to_nat 8200)))).
    rewrite repeat_length. lia.
  - apply (proj2 (truncate_spec (lit "boom"))).
    vm_compute. lia.
Defined.

(** ** Colour *)

Lemma colorsEnabled_force_counterexample :
  colorsEnabled (isTTY false false)
    {| cc_json := false; cc_noColor := None; cc_color := Some true |}
  <> spec_colorsEnabled (isTTY false false)
       {| cc_json := false; cc_noColor := None; cc_color := Some true |}.
Proof. vm_compute. discriminate. Qed.

(** C7, amended.  For every combination of the json flag, the two
    colour flags and the state of the two streams, colour is enabled
    exactly when structured output is off, colour is not disabled
    (neither [noColor] is true nor [color] is false) and both streams
    are terminals; the force flag does not stand in for a terminal. *)
Theorem colorsEnabled_spec :
  forall (stdout_isTTY stdin_isTTY : bool) (ctx : color_ctx),
    colorsEnabled (isTTY stdout_isTTY stdin_isTTY) ctx
    = negb (cc_json ctx)
      && negb (is_true (cc_noColor ctx))
      && negb (is_false (cc_color ctx))
      && (stdout_isTTY && stdin_isTTY).
Proof.
  intros o i [j n c]. unfold colorsEnabled, isTTY. simpl.
  destruct j, n as [[|]|], c as [[|]|], o, i; reflexivity.
Qed.

(** ** Strings *)

Lemma eqs_true (a b : jsstring) : eqs a b = true <-> a = b.
Proof.
  unfold eqs; destruct (list_eq_dec N.eq_dec a b); split; congruence.
Qed.

Lemma eqs_refl (a : jsstring) : eqs a a = true.
Proof. now apply eqs_true. Qed.

Lemma startsWith_app (p s : jsstring) : startsWith p (p ++ s) = true.
Proof.
  induction p as [|a p IH]; simpl; [reflexivity|].
  now rewrite N.eqb_refl, IH.
Qed.

Lemma includes_app (p a b : jsstring) : includes p (a ++ p ++ b) = true.
Proof.
  induction a as [|c a IH]; simpl.
  - destruct (p ++ b) eqn:E; simpl;
      rewrite <- E, startsWith_app; reflexivity.
  - rewrite IH. apply orb_true_r.
Qed.

Lemma includes_app_r (p a b : jsstring) :
  includes p b = true -> includes p (a ++ b) = true.
Proof.
  intros H. induction a as [|c a IH]; simpl; [exact H|].
  rewrite IH. apply orb_true_r.
Qed.

Lemma startsWith_app_l (p a b : jsstring) :
  startsWith p a = true -> startsWith p (a ++ b) = true.
Proof.
  revert a. induction p as [|x p IH]; intros a H; [reflexivity|].
  destruct a as [|y a]; simpl in *; [discriminate|].
  apply andb_true_iff in H as [H1 H2]. now rewrite H1, IH.
Qed.

Lemma includes_app_l (p a b : jsstring) :
  includes p a = true -> includes p (a ++ b) = true.
Proof.
  induction a as [|c a IH]; simpl; intros H.
  - rewrite orb_false_r in H. destruct p; [|discriminate].
    destruct b; reflexivity.
  - apply orb_true_iff in H as [H|H].
    + change (c :: a ++ b) with ((c :: a) ++ b).
      rewrite (startsWith_app_l _ _ _ H). reflexivity.
    + rewrite (IH H). apply orb_true_r.
Qed.

Lemma trimStart_app_stop (a b : jsstring) (c : code_unit) :
  is_ws c = false -> trimStart (a ++ c :: b) = trimStart a ++ c :: b.
Proof.
  intros Hc. induction a as [|x a IH]; simpl.
  - now rewrite Hc.
  - destruct (is_ws x); [exact IH | reflexivity].
Qed.

Lemma trimEnd_app_stop (a b : jsstring) (c : code_unit) :
  is_ws c = false -> trimEnd (a ++ c :: b) = a ++ c :: trimEnd b.
Proof.
  intros Hc. unfold trimEnd.
  rewrite rev_app_distr. simpl. rewrite <- app_assoc. simpl.
  rewrite trimStart_app_stop by exact Hc.
  rewrite rev_app_distr. simpl. rewrite rev_involutive, <- app_assoc.
  reflexivity.
Qed.

Lemma split_not_nil (sep : code_unit) (s : jsstring) : split sep s <> [].
Proof.
  induction s as [|c s IH]; simpl; [discriminate|].
  destruct (c =? sep)%N; [discriminate|].
  destruct (split sep s); [contradiction | discriminate].
Qed.

Lemma split_free (sep : code_unit) (s : jsstring) :
  Forall (fun l => ~ In sep l) (split sep s).
Proof.
  induction s as [|c s IH]; simpl.
  - constructor; [intros [] | constructor].
  - destruct (c =? sep)%N eqn:E.
    + constructor; [intros [] | exact IH].
    + pose proof (split_not_nil sep s) as Hne.
      destruct (split sep s) as [|l ls]; [contradiction|].
      inversion IH as [|? ? Hl Hls]; subst.
      constructor; [|exact Hls].
      intros [H|H]; [|exact (Hl H)].
      subst. now rewrite N.eqb_refl in E.
Qed.

Lemma split_app_sep (sep : code_unit) (l r : jsstring) :
  ~ In sep l -> split sep (l ++ sep :: r) = l :: split sep r.
Proof.
  induction l as [|c l IH]; simpl; intros H.
  - now rewrite N.eqb_refl.
  - destruct (c =? sep)%N eqn:E.
    + apply N.eqb_eq in E. subst. exfalso. apply H. now left.
    + rewrite IH by (intros H'; apply H; now right). reflexivity.
Qed.

Lemma split_none (sep : code_unit) (l : jsstring) :
  ~ In sep l -> split sep l = [l].
Proof.
  induction l as [|c l IH]; simpl; intros H; [reflexivity|].
  destruct (c =? sep)%N eqn:E.
  - apply N.eqb_eq in E. subst. exfalso. apply H. now left.
  - rewrite IH by (intros H'; apply H; now right). reflexivity.
Qed.

Lemma split_join (sep : code_unit) (ls : list jsstring) :
  ls <> [] -> Forall (fun l => ~ In sep l) ls ->
  split sep (join sep ls) = ls.
Proof.
  induction ls as [|l ls IH]; intros Hne Hfree; [contradiction|].
  inversion Hfree as [|? ? Hl Hls]; subst.
  destruct ls as [|l2 ls].
  - simpl. now apply split_none.
  - change (join sep (l :: l2 :: ls)) with (l ++ sep :: join sep (l2 :: ls)).
    rewrite split_app_sep by exact Hl.
    rewrite IH; [reflexivity | discriminate | exact Hls].
Qed.

(** ** The .env merge *)

Lemma has_In (keys : list jsstring) (k : jsstring) :
  has keys k = true <-> In k keys.
Proof.
  unfold has. rewrite existsb_exists. split.
  - intros [x [Hx Hk]]. apply eqs_true in Hk. now subst.
  - intros H. exists k. split; [exact H | apply eqs_refl].
Qed.

Lemma lookup_In (u : updates_t) (k v : jsstring) :
  lookup k u = Some v -> In (k, v) u.
Proof.
  induction u as [|[k' v'] u IH]; simpl; [discriminate|].
  destruct (eqs k' k) eqn:E.
  - apply eqs_true in E. intros H. inversion H. subst. now left.
  - intros H. right. now apply IH.
Qed.

Lemma In_lookup (u : updates_t) (k v : jsstring) :
  NoDup (map fst u) -> In (k, v) u -> lookup k u = Some v.
Proof.
  induction u as [|[k' v'] u IH]; simpl; intros Hnd Hin; [contradiction|].
  inversion Hnd as [|? ? Hk' Hnd']; subst.
  destruct Hin as [Hin|Hin].
  - inversion Hin. subst. now rewrite eqs_refl.
  - destruct (eqs k' k) eqn:E.
    + apply eqs_true in E. subst. exfalso. apply Hk'.
      change k with (fst (k, v)). now apply in_map.
    + now apply IH.
Qed.

Lemma filter_none {A : Type} (f : A -> bool) (l : list A) :
  (forall x, In x l -> f x = false) -> filter f l = [].
Proof.
  induction l as [|a l IH]; simpl; intros H; [reflexivity|].
  rewrite (H a) by now left. apply IH. intros x Hx. apply H. now right.
Qed.

Lemma existsb_false_not_In (sep : code_unit) (s : jsstring) :
  existsb (fun c => (c =? sep)%N) s = false -> ~ In sep s.
Proof.
  intros H Hin.
  assert (existsb (fun c => (c =? sep)%N) s = true) as H'.
  { apply existsb_exists. exists sep. split; [exact Hin | apply N.eqb_refl]. }
  congruence.
Qed.

Lemma key_ok_free (k : jsstring) :
  key_ok k = true -> ~ In LF k /\ ~ In EQ k.
Proof.
  unfold key_ok. intros H. apply andb_true_iff in H as [H _].
  apply negb_true_iff in H.
  split; intros Hin.
  - assert (existsb (fun c => (c =? LF) || (c =? EQ))%N k = true) as H'.
    { apply existsb_exists. exists LF. split; [exact Hin | reflexivity]. }
    congruence.
  - assert (existsb (fun c => (c =? LF) || (c =? EQ))%N k = true) as H'.
    { apply existsb_exists. exists EQ. split; [exact Hin | reflexivity]. }
    congruence.
Qed.

Lemma key_ok_head (k rest : jsstring) :
  key_ok k = true ->
  trimStart (k ++ EQ :: rest) = k ++ EQ :: rest /\
  startsWith [HASH] (k ++ EQ :: rest) = false.
Proof.
  unfold key_ok. intros H. apply andb_true_iff in H as [_ H].
  destruct k as [|c k].
  - split; reflexivity.
  - apply andb_true_iff in H as [Hws Hhash].
    apply negb_true_iff in Hws, Hhash.
    cbn [app trimStart startsWith].
    rewrite Hws. split; [reflexivity|].
    rewrite N.eqb_sym, Hhash. reflexivity.
Qed.

Lemma rewrite_env_line (u : updates_t) (k v : jsstring) :
  key_ok k = true -> lookup k u = Some v ->
  rewrite_line u (env_line (k, v)) = (env_line (k, v), [k]).
Proof.
  intros Hk Hl. unfold rewrite_line, env_line. cbn [fst snd].
  assert (trim (k ++ EQ :: v) = k ++ EQ :: trimEnd v) as Ht.
  { unfold trim. rewrite (proj1 (key_ok_head k v Hk)).
    now apply trimEnd_app_stop. }
  rewrite Ht.
  rewrite (proj2 (key_ok_head k (trimEnd v) Hk)).
  change (k ++ EQ :: trimEnd v) with (k ++ [EQ] ++ trimEnd v) at 1.
  rewrite includes_app. cbn [negb orb].
  rewrite split_app_sep by apply (key_ok_free k Hk).
  cbn [hd]. rewrite Hl. reflexivity.
Qed.

Lemma rewrite_line_cases (u : updates_t) (l : jsstring) :
  rewrite_line u l = (l, []) \/
  exists k v, lookup k u = Some v /\
              rewrite_line u l = (env_line (k, v), [k]).
Proof.
  unfold rewrite_line.
  destruct (startsWith [HASH] (trim l) || negb (includes [EQ] (trim l)));
    [now left|].
  destruct (lookup (hd [] (split EQ (trim l))) u) as [v|] eqn:E;
    [|now left].
  right. now exists (hd [] (split EQ (trim l))), v.
Qed.

Section EnvMerge.

Variable updates : updates_t.
Hypothesis Hok : updates_ok updates = true.
Hypothesis Hnodup : NoDup (map fst updates).

Lemma updates_ok_In (k v : jsstring) :
  In (k, v) updates -> key_ok k = true /\ value_ok v = true.
Proof.
  intros Hin. unfold updates_ok in Hok.
  rewrite forallb_forall in Hok.
  apply (Hok (k, v)) in Hin. now apply andb_true_iff in Hin.
Qed.

Lemma rewrite_line_again (l : jsstring) :
  rewrite_line updates (fst (rewrite_line updates l))
  = rewrite_line updates l.
Proof.
  destruct (rewrite_line_cases updates l) as [H | [k [v [Hl H]]]];
    rewrite H; cbn [fst]; [exact H|].
  apply rewrite_env_line; [|exact Hl].
  apply lookup_In in Hl. now apply updates_ok_In in Hl.
Qed.

Lemma env_line_free (k v : jsstring) :
  In (k, v) updates -> ~ In LF (env_line (k, v)).
Proof.
  intros Hin. apply updates_ok_In in Hin as [Hk Hv].
  unfold env_line. cbn [fst snd]. intros H.
  apply in_app_or in H as [H | [H | H]].
  - exact (proj1 (key_ok_free k Hk) H).
  - unfold EQ, LF in H. discriminate H.
  - unfold value_ok in Hv. apply negb_true_iff in Hv.
    now apply (existsb_false_not_In _ _ Hv).
Qed.

Lemma rewrite_line_free (l : jsstring) :
  ~ In LF l -> ~ In LF (fst (rewrite_line updates l)).
Proof.
  intros Hl.
  destruct (rewrite_line_cases updates l) as [H | [k [v [Hk H]]]];
    rewrite H; cbn [fst]; [exact Hl|].
  apply env_line_free. now apply lookup_In.
Qed.

Lemma merged_lines_free (content : jsstring) :
  Forall (fun l => ~ In LF l) (merged_lines content updates).
Proof.
  unfold merged_lines. apply Forall_app. split.
  - rewrite map_map. apply Forall_map.
    eapply Forall_impl; [|apply split_free].
    intros l Hl. now apply rewrite_line_free.
  - apply Forall_map. apply Forall_forall. intros [k v] Hin.
    apply filter_In in Hin as [Hin _]. now apply env_line_free.
Qed.

Lemma merged_lines_not_nil (content : jsstring) (u : updates_t) :
  merged_lines content u <> [].
Proof.
  unfold merged_lines. intros H. apply app_eq_nil in H as [H _].
  apply map_eq_nil in H. apply map_eq_nil in H.
  now apply split_not_nil in H.
Qed.

Lemma found_of_appended (a : updates_t) :
  flat_map snd (map (fun kv : jsstring * jsstring => (env_line kv, [fst kv])) a)
  = map fst a.
Proof.
  induction a as [|kv a IH]; simpl; [reflexivity | now rewrite IH].
Qed.

Lemma merged_lines_again (content : jsstring) :
  merged_lines (join LF (merged_lines content updates)) updates
  = merged_lines content updates.
Proof.
  unfold merged_lines at 1.
  rewrite split_join
    by (apply merged_lines_not_nil || apply merged_lines_free).
  unfold merged_lines.
  set (mapped := map (rewrite_line updates) (split LF content)).
  set (found := flat_map snd mapped).
  set (appended := filter (fun kv => negb (has found (fst kv))) updates).
  assert (map (rewrite_line updates) (map fst mapped ++ map env_line appended)
          = mapped ++ map (fun kv => (env_line kv, [fst kv])) appended) as Hm.
  { rewrite map_app. f_equal.
    - unfold mapped. rewrite !map_map. apply map_ext.
      intros l. apply rewrite_line_again.
    - rewrite map_map. apply map_ext_in. intros [k v] Hin.
      apply filter_In in Hin as [Hin _]. cbn [fst].
      apply rewrite_env_line.
      + now apply updates_ok_In in Hin.
      + now apply In_lookup. }
  rewrite Hm. rewrite flat_map_app, found_of_appended.
  rewrite map_app, map_map. cbn [fst]. fold found.
  rewrite (filter_none _ updates); [now rewrite app_nil_r|].
  intros [k v] Hin. cbn [fst]. apply negb_false_iff. apply has_In.
  apply in_or_app.
  destruct (has found k) eqn:E; [left; now apply has_In|].
  right. change k with (fst (k, v)). apply in_map.
  apply filter_In. split; [exact Hin|]. cbn [fst]. now rewrite E.
Qed.

Lemma merged_content_again (content : jsstring) :
  merged_content (merged_content content updates) updates
  = merged_content content updates.
Proof.
  unfold merged_content. now rewrite merged_lines_again.
Qed.

End EnvMerge.

Lemma untouched_rewrite_line (u : updates_t) (l : jsstring) :
  untouched u l = true -> rewrite_line u l = (l, []).
Proof.
  unfold untouched, rewrite_line.
  destruct (startsWith [HASH] (trim l) || negb (includes [EQ] (trim l)));
    [reflexivity|].
  cbn [orb].
  destruct (lookup (hd [] (split EQ (trim l))) u); [discriminate|reflexivity].
Qed.

Lemma env_merge_multiline_counterexample :
  readFile DotEnv
    (updateEnvValues multiline_updates
       (updateEnvValues multiline_updates (single_file DotEnv [])))
  <> readFile DotEnv
       (updateEnvValues multiline_updates (single_file DotEnv [])).
Proof. vm_compute. discriminate. Qed.

(** Each clause of [updates_ok] is needed. *)
Lemma env_merge_bad_keys_not_idempotent :
  Forall
    (fun u =>
       readFile DotEnv (updateEnvValues u (updateEnvValues u empty_disk))
       <> readFile DotEnv (updateEnvValues u empty_disk))
    [eq_key_updates; space_key_updates; hash_key_updates].
Proof. repeat constructor; vm_compute; discriminate. Qed.

Lemma env_merge_line_feed_key_not_idempotent :
  readFile DotEnv
    (updateEnvValues line_feed_key_updates
       (updateEnvValues line_feed_key_updates empty_disk))
  <> readFile DotEnv (updateEnvValues line_feed_key_updates empty_disk).
Proof. vm_compute. discriminate. Qed.

(** Where [.env] can be read and no line of it has a key that the
    updates object inherits or holds with the value [undefined], the
    merge of legacy/utils.js writes what that of create.js writes. *)
Lemma own_texts (updates : Legacy.loose_updates) (key : jsstring) :
  lookup key (Legacy.texts updates)
  = option_map Legacy.text_of (Legacy.own key updates).
Proof.
  induction updates as [|[k v] rest IH]; [reflexivity|].
  cbn [Legacy.texts map fst snd lookup Legacy.own].
  destruct (eqs k key); [reflexivity | exact IH].
Qed.

Lemma legacy_env_merge_agrees (inherited : jsstring -> option jsstring)
    (updates : Legacy.loose_updates) (fs : filesystem) (content : jsstring) :
  readFile DotEnv fs = Some content ->
  (forall line,
      In line (split LF content) ->
      startsWith [HASH] (trim line) = false ->
      includes [EQ] (trim line) = true ->
      inherited (hd [] (split EQ (trim line))) = None /\
      Legacy.own (hd [] (split EQ (trim line))) updates <> Some None) ->
  Legacy.updateEnvValues inherited updates fs
  = updateEnvValues (Legacy.texts updates) fs.
Proof.
  intros Hread Hclean.
  unfold Legacy.updateEnvValues, updateEnvValues. rewrite Hread.
  f_equal. unfold Legacy.merged_content, merged_content, merged_lines.
  assert (map (Legacy.rewrite_line inherited updates) (split LF content)
          = map (rewrite_line (Legacy.texts updates)) (split LF content))
    as Hmap.
  { apply map_ext_in. intros line Hin.
    unfold Legacy.rewrite_line, rewrite_line, Legacy.get.
    destruct (startsWith [HASH] (trim line)) eqn:Hc; [reflexivity|].
    destruct (includes [EQ] (trim line)) eqn:He; [|reflexivity].
    cbn [negb orb].
    destruct (Hclean line Hin Hc He) as [Hinh Hown].
    rewrite own_texts, Hinh.
    destruct (Legacy.own (hd [] (split EQ (trim line))) updates)
      as [[v|]|]; try reflexivity.
    now contradiction Hown. }
  cbv zeta. now rewrite Hmap.
Qed.

Lemma legacy_env_merge_missing_file
    (inherited : jsstring -> option jsstring)
    (updates : Legacy.loose_updates) (fs : filesystem) :
  readFile DotEnv fs = None ->
  Legacy.updateEnvValues inherited updates fs = fs.
Proof. intros H. unfold Legacy.updateEnvValues. now rewrite H. Qed.

(** An own key whose value is [undefined]: the legacy merge leaves the
    line of the key as it is and appends [A=undefined]; create.js
    rewrites the line. *)
Lemma legacy_env_merge_undefined_value :
  readFile DotEnv
    (Legacy.updateEnvValues (fun _ => None) [(lit "A", None)]
       (single_file DotEnv (lit "A=1" ++ [LF])))
  = Some (lit "A=1" ++ LF :: LF :: lit "A=undefined")
  /\ readFile DotEnv
       (updateEnvValues (Legacy.texts [(lit "A", None)])
          (single_file DotEnv (lit "A=1" ++ [LF])))
     = Some (lit "A=undefined" ++ [LF]).
Proof. split; vm_compute; reflexivity. Qed.

(** ** Lines in their order *)

Lemma split_app (sep : code_unit) (a b : jsstring) :
  split sep (a ++ sep :: b) = split sep a ++ split sep b.
Proof.
  induction a as [|c a IH]; cbn [app split].
  - now rewrite N.eqb_refl.
  - rewrite IH. destruct (c =? sep)%N; [reflexivity|].
    pose proof (split_not_nil sep a) as Hne.
    destruct (split sep a) as [|l ls]; [contradiction | reflexivity].
Qed.

(** The lines of a joined text are the lines of its parts. *)
Lemma split_join_parts (sep : code_unit) (ls : list jsstring) :
  ls <> [] -> split sep (join sep ls) = flat_map (split sep) ls.
Proof.
  induction ls as [|l ls IH]; intros Hne; [contradiction|].
  destruct ls as [|l2 ls].
  - cbn [join flat_map]. now rewrite app_nil_r.
  - change (join sep (l :: l2 :: ls)) with (l ++ sep :: join sep (l2 :: ls)).
    rewrite split_app, IH by discriminate. reflexivity.
Qed.

Lemma in_order_after {A : Type} (a l before : list A) :
  in_order a l -> in_order a (before ++ l).
Proof.
  intros H. induction before as [|x before IH]; [exact H|].
  cbn [app]. now apply in_order_skip.
Qed.

Lemma in_order_before {A : Type} (a l after : list A) :
  in_order a l -> in_order a (l ++ after).
Proof.
  intros H. induction H as [l | x a l H IH | x a l H IH]; cbn [app].
  - apply in_order_nil.
  - now apply in_order_keep.
  - now apply in_order_skip.
Qed.

(** The lines that a merge has no update for stand, in their order,
    among the lines of the text it writes -- whatever the updates
    are. *)
Lemma untouched_lines_in_order (updates : updates_t) (content : jsstring) :
  in_order (filter (untouched updates) (split LF content))
           (split LF (merged_content content updates)).
Proof.
  unfold merged_content.
  rewrite split_join_parts by apply merged_lines_not_nil.
  unfold merged_lines. rewrite flat_map_app. apply in_order_before.
  pose proof (split_free LF content) as Hfree.
  induction (split LF content) as [|l ls IH]; [apply in_order_nil|].
  inversion Hfree as [|? ? Hl Hls]; subst.
  cbn [map flat_map filter].
  destruct (untouched updates l) eqn:E.
  - rewrite (untouched_rewrite_line updates l E). cbn [fst].
    rewrite (split_none LF l Hl). cbn [app].
    apply in_order_keep. now apply IH.
  - apply in_order_after. now apply IH.
Qed.

(** C5, amended.  For every disk and every update map, every line of
    the original [.env] that is a comment, has no [=], or has a key
    outside the updates is kept verbatim: it stands at its own index in
    the array of lines that the merge joins, and these lines stand, in
    their original order, among the lines of the file that the merge
    writes.  And where the keys of the map are distinct, no key holds
    [=] or a line feed or begins with white space or [#], and no value
    holds a line feed, merging twice leaves every file as merging once
    does. *)
Theorem env_merge_idempotent_preserving :
  forall (updates : updates_t) (fs : filesystem),
    let once := updateEnvValues updates fs in
    let twice := updateEnvValues updates once in
    (forall (i : nat) (line : jsstring),
        nth_error (split LF (env_content fs)) i = Some line ->
        untouched updates line = true ->
        nth_error (merged_lines (env_content fs) updates) i = Some line) /\
    env_content once = join LF (merged_lines (env_content fs) updates) /\
    in_order (filter (untouched updates) (split LF (env_content fs)))
             (split LF (env_content once)) /\
    (updates_ok updates = true ->
     NoDup (map fst updates) ->
     forall p : path, readFile p twice = readFile p once).
Proof.
  intros updates fs once twice.
  assert (env_content once = merged_content (env_content fs) updates) as Honce.
  { unfold once, updateEnvValues, env_content. reflexivity. }
  split; [|split; [exact Honce | split]].
  - intros i line Hi Hu. unfold merged_lines.
    rewrite nth_error_app1.
    + rewrite map_map. rewrite nth_error_map, Hi. cbn [option_map].
      now rewrite untouched_rewrite_line.
    + rewrite !length_map. apply nth_error_Some. congruence.
  - rewrite Honce. apply untouched_lines_in_order.
  - intros Hok Hnd p. unfold twice. unfold updateEnvValues at 1.
    fold (env_content once). rewrite Honce.
    rewrite merged_content_again by assumption.
    unfold once, updateEnvValues. fold (env_content fs).
    unfold readFile, writeFile. cbn [files].
    destruct (path_eqb p DotEnv); reflexivity.
Qed.

Lemma env_merge_idempotent_preserving_witness :
  readFile DotEnv
    (updateEnvValues scenarioA_updates
       (updateEnvValues scenarioA_updates
          (single_file DotEnv scenarioA_content)))
  = readFile DotEnv
      (updateEnvValues scenarioA_updates
         (single_file DotEnv scenarioA_content)) /\
  nth_error
    (merged_lines (env_content (single_file DotEnv scenarioA_content))
       scenarioA_updates) 1
  = Some (lit "# comment") /\
  in_order [lit "APP_ENV=local"; lit "# comment"; []]
    (split LF
       (env_content
          (updateEnvValues multiline_updates
             (single_file DotEnv scenarioA_content)))).
Proof.
  set (fs := single_file DotEnv scenarioA_content).
  assert (updates_ok scenarioA_updates = true) as Hok by reflexivity.
  assert (NoDup (map fst scenarioA_updates)) as Hnd.
  { repeat constructor; simpl; intros H; repeat destruct H as [H|H];
      try discriminate H; exact H. }
  destruct (env_merge_idempotent_preserving scenarioA_updates fs)
    as [Hkeep [_ [_ Hidem]]].
  split; [exact (Hidem Hok Hnd DotEnv)|].
  split; [apply Hkeep; reflexivity|].
  exact (proj1 (proj2 (proj2
           (env_merge_idempotent_preserving multiline_updates fs)))).
Defined.

Lemma env_merge_scenarioA_counterexample :
  readFile DotEnv
    (updateEnvValues scenarioA_updates (single_file DotEnv scenarioA_content))
  <> Some scenarioA_expected.
Proof. vm_compute. discriminate. Qed.

(** C6, amended.  The env merge applied to the content
    "APP_ENV=local\n# comment\n" with the updates APP_ENV: production,
    APP_LOCALE: es writes
    "APP_ENV=production\n# comment\n\nAPP_LOCALE=es": the value of the
    matched key replaced in place, the comment untouched, and the
    unknown key appended as a new last line, after the empty line that
    the final line feed of the original leaves. *)
Theorem env_merge_scenarioA :
  readFile DotEnv
    (updateEnvValues scenarioA_updates (single_file DotEnv scenarioA_content))
  = Some (lit "APP_ENV=production" ++ LF :: lit "# comment" ++ LF
          :: LF :: lit "APP_LOCALE=es").
Proof. reflexivity. Qed.

(** ** Validation of the flags *)

Lemma In_push_unless (x : jsstring) (v : option jsstring) (flag : string)
    (missing : list jsstring) :
  In x (push_unless v flag missing)
  <-> In x missing \/ (x = lit flag /\ truthy v = false).
Proof.
  unfold push_unless. destruct (truthy v); cbn [negb].
  - split; [now left | intros [H | [_ H]]; [exact H | discriminate]].
  - rewrite in_app_iff. cbn [In]. split.
    + intros [H | [H | []]]; [now left | right; now split].
    + intros [H | [H _]]; [now left | right; now left].
Qed.

(** The flags that [validateNonInteractive] reports, one by one. *)
Lemma In_validateNonInteractive (x : jsstring) (input : input_t) :
  In x (validateNonInteractive input) <->
  (x = lit "--project-name" /\ truthy (projectName input) = false) \/
  (x = lit "--starter-kit" /\ truthy (starterKit input) = false) \/
  (x = lit "--db" /\ truthy (db input) = false) \/
  ((is_lit (db input) (lit "mysql") || is_lit (db input) (lit "postgresql")
    = true) /\
   ((x = lit "--db-host" /\ truthy (dbHost input) = false) \/
    (x = lit "--db-port" /\ truthy (dbPort input) = false) \/
    (x = lit "--db-name" /\ truthy (dbName input) = false) \/
    (x = lit "--db-user" /\ truthy (dbUser input) = false) \/
    (x = lit "--db-password" /\ truthy (dbPassword input) = false))) \/
  (x = lit "--filament-name" /\ truthy (filamentName input) = false) \/
  (x = lit "--filament-email" /\ truthy (filamentEmail input) = false) \/
  (x = lit "--filament-password" /\ truthy (filamentPassword input) = false).
Proof.
  unfold validateNonInteractive.
  destruct (is_lit (db input) (lit "mysql")
            || is_lit (db input) (lit "postgresql"));
    rewrite !In_push_unless; cbn [In]; intuition congruence.
Qed.

Lemma truthy_or_else (v : option jsstring) (d : jsstring) :
  d <> [] -> truthy (Some (or_else v d)) = true.
Proof.
  intros Hd. destruct v as [[|c s]|]; cbn [or_else truthy];
    try reflexivity; destruct d; congruence.
Qed.

Lemma or_else_unset (v : option jsstring) (d : jsstring) :
  truthy v = false -> or_else v d = d.
Proof. destruct v as [[|c s]|]; cbn; congruence. Qed.

Lemma is_lit_or_else (v : option jsstring) (d x : jsstring) :
  x <> [] -> eqs d x = false ->
  is_lit (Some (or_else v d)) x = is_lit v x.
Proof.
  intros Hx Hd. destruct v as [[|c s]|]; cbn [or_else is_lit].
  - rewrite Hd. destruct x; [congruence|]. symmetry.
    apply not_true_is_false. intros H. apply eqs_true in H. discriminate.
  - reflexivity.
  - exact Hd.
Qed.

Lemma truthy_filament_default (ni : bool) (v : option jsstring) (d : string) :
  lit d <> [] ->
  truthy (filament_default ni v d) = (if ni then truthy v else true).
Proof.
  intros Hd. unfold filament_default. destruct ni; cbn [negb];
    [reflexivity | now apply truthy_or_else].
Qed.

Lemma needs_connection_after_defaults (ni : bool) (input : input_t) :
  is_lit (db (fill_defaults ni input)) (lit "mysql")
  || is_lit (db (fill_defaults ni input)) (lit "postgresql")
  = is_lit (db input) (lit "mysql") || is_lit (db input) (lit "postgresql").
Proof.
  cbn [fill_defaults db].
  rewrite !is_lit_or_else; try reflexivity; vm_compute; discriminate.
Qed.

Lemma includes_self (p b : jsstring) : includes p (p ++ b) = true.
Proof. exact (includes_app p [] b). Qed.

Lemma includes_join_with (sep flag : jsstring) (ls : list jsstring) :
  In flag ls -> includes flag (join_with sep ls) = true.
Proof.
  induction ls as [|l ls IH]; intros Hin; [contradiction|].
  destruct ls as [|l2 ls].
  - destruct Hin as [H | []]. subst. cbn [join_with].
    rewrite <- (app_nil_r flag) at 2. apply includes_self.
  - change (join_with sep (l :: l2 :: ls))
      with (l ++ sep ++ join_with sep (l2 :: ls)).
    destruct Hin as [H | H].
    + subst. apply includes_self.
    + apply includes_app_r, includes_app_r, IH, H.
Qed.

Lemma includes_missing_message (flag : jsstring) (missing : list jsstring) :
  In flag missing -> includes flag (missing_message missing) = true.
Proof.
  intros H. unfold missing_message.
  apply includes_app_r. now apply includes_join_with.
Qed.

Lemma resolve_non_interactive (w : world) (ctx : ctx_t) :
  interactive w ctx = false ->
  resolve w ctx
  = let input := fill_defaults (nonInteractive ctx) (flags ctx) in
    let missing := validateNonInteractive input in
    if 0 <? List.length missing then Missing missing
    else match herdDir_or_lookup w input with
         | Normal _ => Resolved (answers_of_input w input)
         | Throw error => Rejected error
         end.
Proof. intros H. unfold resolve. now rewrite H. Qed.

(** The directory of the resolved parameters is the one that
    [input.herdDir || (await getHerdDirectory())] answered. *)
Lemma herdDir_of_answers (w : world) (input : input_t) (dir : jsstring) :
  herdDir_or_lookup w input = Normal dir ->
  a_herdDir (answers_of_input w input) = dir.
Proof.
  unfold herdDir_or_lookup, getHerdDirectory, answers_of_input, herdDir_of.
  cbn [a_herdDir].
  destruct (herdDir input) as [[|c s]|]; cbn [truthy or_else];
    try (destruct (mkdir_rejects w (home_herd w)); [discriminate|]);
    intros H; now inversion H.
Qed.

(** In a run that is not interactive the parameters resolve, when they
    do, to the flags with their defaults. *)
Lemma resolved_non_interactive (w : world) (ctx : ctx_t)
    (answers : answers_t) :
  interactive w ctx = false ->
  resolve w ctx = Resolved answers ->
  answers
  = answers_of_input w (fill_defaults (nonInteractive ctx) (flags ctx)).
Proof.
  intros Hint. rewrite resolve_non_interactive by exact Hint. cbv zeta.
  destruct (0 <? _); [discriminate|].
  destruct (herdDir_or_lookup w _); [|discriminate].
  intros H. now inversion H.
Qed.

(** C2.  In a run that is not interactive, every required flag that is
    left unset -- the project name; the five connection flags when the
    database is mysql or postgresql; the three Filament flags under
    [--non-interactive] -- is among the flags reported; when any flag is
    reported, the run ends with exit code 1 before any task starts and
    with no event, after one message that holds the name of each; and a
    mysql run that sets everything but the five connection flags reports
    exactly [--db-host], [--db-port], [--db-name], [--db-user],
    [--db-password]. *)
Theorem validation_reports_every_missing_flag :
  forall (w : world) (ctx : ctx_t) (disk0 : filesystem),
    interactive w ctx = false ->
    let input := flags ctx in
    let missing :=
      validateNonInteractive (fill_defaults (nonInteractive ctx) input) in
    let needs_connection :=
      is_lit (db input) (lit "mysql") || is_lit (db input) (lit "postgresql") in
    let o := runCreate w ctx disk0 in
    (truthy (projectName input) = false -> In (lit "--project-name") missing)
    /\ (needs_connection = true ->
        (truthy (dbHost input) = false -> In (lit "--db-host") missing) /\
        (truthy (dbPort input) = false -> In (lit "--db-port") missing) /\
        (truthy (dbName input) = false -> In (lit "--db-name") missing) /\
        (truthy (dbUser input) = false -> In (lit "--db-user") missing) /\
        (truthy (dbPassword input) = false ->
         In (lit "--db-password") missing))
    /\ (nonInteractive ctx = true ->
        (truthy (filamentName input) = false ->
         In (lit "--filament-name") missing) /\
        (truthy (filamentEmail input) = false ->
         In (lit "--filament-email") missing) /\
        (truthy (filamentPassword input) = false ->
         In (lit "--filament-password") missing))
    /\ (missing <> [] ->
        exit_code o = 1%Z /\
        started (final o) = [] /\
        events (final o) = [] /\
        disk (final o) = disk0 /\
        (forall flag, In flag missing ->
                      includes flag (missing_message missing) = true) /\
        (if json ctx
         then document o
              = Some (ValidationError (flags_of_ctx ctx) (environment w)
                        (missing_message missing) (lit "EINVAL"))
              /\ console (final o) = []
         else document o = None
              /\ console (final o)
                 = [{| to := Stderr; styled := styled_if_color w ctx Red;
                       line_text := missing_message missing |}]))
    /\ (is_lit (db input) (lit "mysql") = true ->
        truthy (projectName input) = true ->
        (nonInteractive ctx = true ->
         truthy (filamentName input) = true /\
         truthy (filamentEmail input) = true /\
         truthy (filamentPassword input) = true) ->
        truthy (dbHost input) = false ->
        truthy (dbPort input) = false ->
        truthy (dbName input) = false ->
        truthy (dbUser input) = false ->
        truthy (dbPassword input) = false ->
        missing = [lit "--db-host"; lit "--db-port"; lit "--db-name";
                   lit "--db-user"; lit "--db-password"]).
Proof.
  intros w ctx disk0 Hni input missing needs_connection o.
  assert (forall x, In x missing <->
            In x (validateNonInteractive
                    (fill_defaults (nonInteractive ctx) input))) as Hin
      by reflexivity.
  pose proof (needs_connection_after_defaults (nonInteractive ctx) input)
    as Hconn.
  split; [|split; [|split; [|split]]].
  - intros H. apply Hin, In_validateNonInteractive. left. now split.
  - intros Hneed.
    repeat split; intros H; apply Hin, In_validateNonInteractive;
      do 3 right; left; (split; [now rewrite Hconn|]);
      cbn [fill_defaults dbHost dbPort dbName dbUser dbPassword]; tauto.
  - intros Hflag.
    repeat split; intros H; apply Hin, In_validateNonInteractive;
      do 4 right;
      cbn [fill_defaults filamentName filamentEmail filamentPassword];
      unfold filament_default; rewrite Hflag; cbn [negb]; tauto.
  - intros Hne.
    assert (o = reject_missing w ctx missing (initial_state w disk0)) as Ho.
    { unfold o, runCreate.
      rewrite resolve_non_interactive by exact Hni. cbv zeta.
      fold input. fold missing.
      destruct missing as [|m ms]; [contradiction | reflexivity]. }
    rewrite Ho. unfold reject_missing.
    do 4 (split; [destruct (json ctx); reflexivity|]).
    split; [intros flag Hflag; now apply includes_missing_message|].
    destruct (json ctx); split; reflexivity.
  - intros Hdb Hname Hfil Hh Hp Hn Hu Hpw.
    assert (truthy (filament_default (nonInteractive ctx)
                      (filamentName input) "Admin") = true
            /\ truthy (filament_default (nonInteractive ctx)
                         (filamentEmail input) "admin@admin.com") = true
            /\ truthy (filament_default (nonInteractive ctx)
                         (filamentPassword input) "password") = true)
      as (Hf1 & Hf2 & Hf3).
    { rewrite !truthy_filament_default by (vm_compute; discriminate).
      destruct (nonInteractive ctx); [now apply Hfil | now repeat split]. }
    unfold missing, validateNonInteractive.
    rewrite Hconn, Hdb. cbn [orb].
    unfold push_unless.
    cbn [fill_defaults projectName starterKit db dbHost dbPort dbName dbUser
           dbPassword filamentName filamentEmail filamentPassword].
    rewrite Hname, Hh, Hp, Hn, Hu, Hpw, Hf1, Hf2, Hf3.
    rewrite !truthy_or_else by (vm_compute; discriminate).
    reflexivity.
Qed.

Lemma validation_reports_every_missing_flag_witness :
  interactive calm_world mysql_ctx = false /\
  In (lit "--db-port")
     (validateNonInteractive
        (fill_defaults (nonInteractive mysql_ctx) (flags mysql_ctx))) /\
  exit_code (runCreate calm_world mysql_ctx empty_disk) = 1%Z /\
  started (final (runCreate calm_world mysql_ctx empty_disk)) = [] /\
  validateNonInteractive
    (fill_defaults (nonInteractive mysql_ctx) (flags mysql_ctx))
  = [lit "--db-host"; lit "--db-port"; lit "--db-name";
     lit "--db-user"; lit "--db-password"] /\
  In (lit "--project-name")
     (validateNonInteractive
        (fill_defaults (nonInteractive bare_ctx) (flags bare_ctx))) /\
  In (lit "--filament-email")
     (validateNonInteractive
        (fill_defaults (nonInteractive bare_ctx) (flags bare_ctx))).
Proof.
  destruct (validation_reports_every_missing_flag
              calm_world mysql_ctx empty_disk eq_refl)
    as (_ & Hconn & _ & Hexit & Hexact).
  destruct (validation_reports_every_missing_flag
              calm_world bare_ctx empty_disk eq_refl)
    as (Hname & _ & Hfilament & _).
  split; [reflexivity|].
  split; [exact (proj1 (proj2 (Hconn eq_refl)) eq_refl)|].
  assert (validateNonInteractive
            (fill_defaults (nonInteractive mysql_ctx) (flags mysql_ctx))
          <> []) as Hne by (vm_compute; discriminate).
  destruct (Hexit Hne) as (He & Hs & _).
  split; [exact He|]. split; [exact Hs|].
  split; [apply Hexact; try reflexivity; intros _; repeat split|].
  split; [exact (Hname eq_refl)|].
  exact (proj1 (proj2 (Hfilament eq_refl)) eq_refl).
Defined.

(** C9.  With [--json] and without [--non-interactive], the run is
    settled by validation after the defaults are filled in: the starter
    kit defaults to react, the database to sqlite, the Filament
    credentials to Admin / admin@admin.com / password -- what a flag
    gives is kept, the default stands in only where nothing is given --
    and every other flag goes through as it was given; the parameters
    of a run that resolves are these.  So a sqlite run can report no
    flag but [--project-name].  And in no run that is not interactive
    are [--starter-kit] or [--db] reported, though validation by itself
    reports either of them when it is unset: it is the defaults that
    come first. *)
Theorem defaults_precede_validation :
  forall (w : world) (ctx : ctx_t),
    json ctx = true ->
    nonInteractive ctx = false ->
    let given := flags ctx in
    let input := fill_defaults (nonInteractive ctx) given in
    let missing := validateNonInteractive input in
    resolve w ctx
    = (if 0 <? List.length missing then Missing missing
       else match herdDir_or_lookup w input with
            | Normal _ => Resolved (answers_of_input w input)
            | Throw error => Rejected error
            end)
    /\ defaults_to (starterKit given) "react" (starterKit input)
    /\ defaults_to (db given) "sqlite" (db input)
    /\ defaults_to (filamentName given) "Admin" (filamentName input)
    /\ defaults_to (filamentEmail given) "admin@admin.com"
         (filamentEmail input)
    /\ defaults_to (filamentPassword given) "password"
         (filamentPassword input)
    /\ (projectName input = projectName given /\
        dbHost input = dbHost given /\
        dbPort input = dbPort given /\
        dbName input = dbName given /\
        dbUser input = dbUser given /\
        dbPassword input = dbPassword given /\
        herdDir input = herdDir given)
    /\ (forall answers : answers_t,
           resolve w ctx = Resolved answers ->
           a_projectName answers = projectName given /\
           a_starterKit answers = starterKit input /\
           a_db answers = db input /\
           a_dbConn answers
           = {| host := dbHost given; port := dbPort given;
                name := dbName given; user := dbUser given;
                password := dbPassword given |} /\
           a_filament answers
           = {| fil_name := filamentName input;
                fil_email := filamentEmail input;
                fil_password := filamentPassword input |})
    /\ (is_lit (db input) (lit "sqlite") = true ->
        forall flag, In flag missing -> flag = lit "--project-name")
    /\ (forall ctx' : ctx_t,
           interactive w ctx' = false ->
           let missing' :=
             validateNonInteractive
               (fill_defaults (nonInteractive ctx') (flags ctx')) in
           ~ In (lit "--starter-kit") missing' /\ ~ In (lit "--db") missing')
    /\ (forall raw : input_t,
           (truthy (starterKit raw) = false ->
            In (lit "--starter-kit") (validateNonInteractive raw)) /\
           (truthy (db raw) = false ->
            In (lit "--db") (validateNonInteractive raw))).
Proof.
  intros w ctx Hjson Hni given input missing. subst given.
  assert (interactive w ctx = false) as Hint
      by (unfold interactive; now rewrite Hjson).
  assert (forall (v : option jsstring) (d : string),
             defaults_to v d (Some (or_else v (lit d)))) as Hdefault.
  { intros v d. unfold defaults_to.
    destruct v as [[|c s]|]; reflexivity. }
  split; [now rewrite resolve_non_interactive|].
  unfold input. rewrite Hni.
  cbn [fill_defaults starterKit db filamentName filamentEmail
         filamentPassword filament_default negb projectName dbHost dbPort
         dbName dbUser dbPassword herdDir].
  do 5 (split; [apply Hdefault|]).
  split; [repeat split|].
  split.
  - intros answers Hres.
    rewrite (resolved_non_interactive w ctx answers Hint Hres), Hni.
    repeat split.
  - split.
    + intros Hsqlite flag Hflag.
      unfold missing, input in Hflag. rewrite Hni in Hflag.
      apply In_validateNonInteractive in Hflag.
      rewrite needs_connection_after_defaults in Hflag.
      cbn [fill_defaults projectName starterKit db filamentName filamentEmail
             filamentPassword filament_default negb] in Hflag.
      rewrite !truthy_or_else in Hflag by (vm_compute; discriminate).
      assert (is_lit (db (flags ctx)) (lit "mysql")
              || is_lit (db (flags ctx)) (lit "postgresql") = false) as Hno.
      { cbn [db] in Hsqlite.
        destruct (db (flags ctx)) as [[|c s]|]; try reflexivity.
        cbn [or_else is_lit] in Hsqlite |- *.
        apply eqs_true in Hsqlite. rewrite Hsqlite. reflexivity. }
      rewrite Hno in Hflag.
      intuition congruence.
    + split.
      * intros ctx' _.
        rewrite !In_validateNonInteractive.
        cbn [fill_defaults starterKit db].
        rewrite !truthy_or_else by (vm_compute; discriminate).
        split; intros H;
          repeat (destruct H as [H | H]);
          repeat match goal with
                 | H : _ /\ _ |- _ => destruct H
                 | H : _ \/ _ |- _ => destruct H
                 end;
          try discriminate;
          match goal with
          | H : lit _ = lit _ |- _ => vm_compute in H; discriminate H
          end.
      * intros raw. split; intros H; apply In_validateNonInteractive.
        -- right. left. now split.
        -- right. right. left. now split.
Qed.

Lemma defaults_precede_validation_witness :
  resolve calm_world json_only_ctx = Missing [lit "--project-name"] /\
  db (fill_defaults (nonInteractive json_only_ctx) (flags json_only_ctx))
  = Some (lit "sqlite") /\
  starterKit (fill_defaults (nonInteractive json_vue_ctx) (flags json_vue_ctx))
  = Some (lit "vue") /\
  (forall answers : answers_t,
      resolve calm_world json_vue_ctx = Resolved answers ->
      a_starterKit answers = Some (lit "vue") /\
      a_db answers = Some (lit "sqlite") /\
      fil_name (a_filament answers) = Some (lit "Admin")) /\
  hd [] (validateNonInteractive
           (fill_defaults (nonInteractive json_only_ctx)
              (flags json_only_ctx)))
  = lit "--project-name" /\
  ~ In (lit "--db")
      (validateNonInteractive
         (fill_defaults (nonInteractive mysql_ctx) (flags mysql_ctx))).
Proof.
  destruct (defaults_precede_validation calm_world json_only_ctx
              eq_refl eq_refl)
    as (Hres & _ & Hdb & _ & _ & _ & _ & _ & Honly & Hnever & _).
  destruct (defaults_precede_validation calm_world json_vue_ctx
              eq_refl eq_refl)
    as (_ & Hkit & _ & _ & _ & _ & _ & Hanswers & _).
  split; [exact Hres|].
  split; [exact Hdb|].
  split; [exact Hkit|].
  split.
  - intros answers Hr.
    destruct (Hanswers answers Hr) as (_ & Hk & Hd & _ & Hf).
    split; [now rewrite Hk|]. split; [now rewrite Hd|]. now rewrite Hf.
  - split; [exact (Honly eq_refl _ (or_introl eq_refl))|].
    exact (proj2 (Hnever mysql_ctx eq_refl)).
Defined.

(** ** The UserFactory two-factor patch *)

Lemma injection_includes_secret (indent a b rest : jsstring) :
  includes two_factor_secret
    (a ++ b ++ (null_entry indent two_factor_secret ++ rest)) = true.
Proof.
  apply includes_app_r, includes_app_r, includes_app_l.
  unfold null_entry.
  apply includes_app_r.
  change ([SQUOTE] ++ two_factor_secret ++ [SQUOTE] ++ lit " => null," ++ [LF])
    with ([SQUOTE] ++ two_factor_secret
          ++ ([SQUOTE] ++ lit " => null," ++ [LF])).
  apply includes_app.
Qed.

(** The two ways the patch can end: without a write, for one of five
    reasons, or with one write of a text that holds
    [two_factor_secret]. *)
Lemma patchUserFactory_cases (fs : filesystem) :
  (exists reason : jsstring,
      patchUserFactoryTwoFactorDefaults fs = (Normal (NotPatched reason), fs)
      /\ In reason [lit "factory_not_found"; lit "already_present";
                    lit "array_not_found"; lit "array_end_not_found";
                    lit "replace_noop"])
  \/ (exists newContent : jsstring,
         patchUserFactoryTwoFactorDefaults fs
         = (Normal Patched, writeFile UserFactoryPhp newContent fs)
         /\ includes two_factor_secret newContent = true).
Proof.
  unfold patchUserFactoryTwoFactorDefaults.
  destruct (readFile UserFactoryPhp fs) as [content|].
  2: { left. eexists. split; [reflexivity|]. cbn [In]. tauto. }
  destruct (includes two_factor_secret content
            || includes two_factor_recovery_codes content
            || includes two_factor_confirmed_at content).
  { left. eexists. split; [reflexivity|]. cbn [In]. tauto. }
  destruct (exec startRe content) as [[startIdx startMatch0]|].
  2: { left. eexists. split; [reflexivity|]. cbn [In]. tauto. }
  destruct (exec endRe (slice_from startIdx content)) as [[endIdx endMatch0]|].
  2: { left. eexists. split; [reflexivity|]. cbn [In]. tauto. }
  cbv zeta.
  match goal with
  | |- context [if eqs ?n content then _ else _] =>
      destruct (eqs n content)
  end.
  { left. eexists. split; [reflexivity|]. cbn [In]. tauto. }
  right. eexists. split; [reflexivity|].
  rewrite <- !app_assoc.
  apply injection_includes_secret.
Qed.

(** C10.  The two-factor patch of UserFactory never throws.  Whenever
    it answers [patched: false] -- the reason being one of
    factory_not_found, already_present, array_not_found,
    array_end_not_found, replace_noop -- it has written nothing and
    the disk is as it was; and applied again after it answered
    [patched: true], it answers already_present, again without a
    write. *)
Theorem two_factor_patch_safe :
  forall fs : filesystem,
    exists r : patch_result,
      fst (patchUserFactoryTwoFactorDefaults fs) = Normal r /\
      (forall reason : jsstring,
          r = NotPatched reason ->
          snd (patchUserFactoryTwoFactorDefaults fs) = fs /\
          In reason [lit "factory_not_found"; lit "already_present";
                     lit "array_not_found"; lit "array_end_not_found";
                     lit "replace_noop"]) /\
      (r = Patched ->
       patchUserFactoryTwoFactorDefaults
         (snd (patchUserFactoryTwoFactorDefaults fs))
       = (Normal (NotPatched (lit "already_present")),
          snd (patchUserFactoryTwoFactorDefaults fs))).
Proof.
  intros fs.
  destruct (patchUserFactory_cases fs)
    as [[reason [Hp Hr]] | [newContent [Hp Hinc]]]; rewrite Hp; cbn [fst snd].
  - exists (NotPatched reason). split; [reflexivity|]. split.
    + intros reason' H. inversion H. subst. now split.
    + discriminate.
  - exists Patched. split; [reflexivity|]. split.
    + discriminate.
    + intros _. unfold patchUserFactoryTwoFactorDefaults at 1.
      unfold readFile, writeFile at 1. cbn [files path_eqb].
      rewrite Hinc. reflexivity.
Qed.

Lemma two_factor_patch_safe_witness :
  patchUserFactoryTwoFactorDefaults
    (snd (patchUserFactoryTwoFactorDefaults
            (single_file UserFactoryPhp sample_factory)))
  = (Normal (NotPatched (lit "already_present")),
     snd (patchUserFactoryTwoFactorDefaults
            (single_file UserFactoryPhp sample_factory)))
  /\ snd (patchUserFactoryTwoFactorDefaults empty_disk) = empty_disk.
Proof.
  split.
  - destruct (two_factor_patch_safe (single_file UserFactoryPhp sample_factory))
      as [r [Hr [_ Hp]]].
    apply Hp. vm_compute in Hr. now inversion Hr.
  - destruct (two_factor_patch_safe empty_disk) as [r [Hr [Hn _]]].
    vm_compute in Hr. inversion Hr as [Hr'].
    symmetry in Hr'. exact (proj1 (Hn _ Hr')).
Defined.

(** ** The phpunit.xml patcher *)

Lemma ensurePhpunit_absent (re_colors re_env : regex) (fs : filesystem) :
  files fs PhpunitXml = None -> files fs PhpunitXmlDist = None ->
  ensurePhpunit_with re_colors re_env fs = fs.
Proof.
  intros H1 H2. unfold ensurePhpunit_with, phpunit_candidate.
  now rewrite H1, H2.
Qed.

(** C8, at the input on which create.js fails it.  On a [phpunit.xml]
    that holds an [APP_LOCALE] env element with the value "es", the
    patcher of create.js adds [colors="true"] to the root element and
    leaves the env element as it found it, value "es": its pattern for
    the element, written with [\\s], matches a backslash followed by
    the letter s, which the file does not hold. *)
Theorem phpunit_locale_not_updated :
  readFile PhpunitXml
    (ensurePhpunitAppLocaleEn (single_file PhpunitXml phpunit_with_locale))
  = Some (join LF
            [lit "<phpunit bootstrap=" ++ quoted (lit "vendor/autoload.php")
             ++ lit " colors=" ++ quoted (lit "true") ++ lit ">";
             lit "<php><env name=" ++ quoted (lit "APP_LOCALE")
             ++ lit " value=" ++ quoted (lit "es") ++ lit "/></php>";
             lit "</phpunit>"]).
Proof. vm_compute. reflexivity. Qed.

(** The same function in legacy/utils.js, whose patterns have [\s],
    does rewrite the value to "en" -- and drops the [<] that opens the
    element, which its replacement text lacks. *)
Lemma legacy_phpunit_locale_updated :
  readFile PhpunitXml
    (Legacy.ensurePhpunitAppLocaleEn
       (single_file PhpunitXml phpunit_with_locale))
  = Some (join LF
            [lit "<phpunit bootstrap=" ++ quoted (lit "vendor/autoload.php")
             ++ lit " colors=" ++ quoted (lit "true") ++ lit ">";
             lit "<php>env name=" ++ quoted (lit "APP_LOCALE")
             ++ lit " value=" ++ quoted (lit "en") ++ lit "/></php>";
             lit "</phpunit>"]).
Proof. vm_compute. reflexivity. Qed.

(** ** The pipeline *)

(** The first action that throws ends the run in the very state in which
    it threw: nothing that follows it in the list is started. *)
Lemma Listr_run_aborts (before after : list task) (t : task)
    (st st1 st2 : run_state) (e : js_error) :
  Listr_run before st = (Normal tt, st1) ->
  action t (mark_started (title t) st1) = (Throw e, st2) ->
  Listr_run (before ++ t :: after) st = (Throw e, st2).
Proof.
  revert st. induction before as [|b before IH]; intros st Hb Ht.
  - cbn [Listr_run ret] in Hb. inversion Hb. subst st1.
    cbn [app Listr_run]. now rewrite Ht.
  - cbn [app Listr_run] in Hb |- *.
    destruct (action b (mark_started (title b) st)) as [[[]|e'] st'].
    + now apply IH.
    + discriminate.
Qed.

Lemma plain_ret {A : Type} (a : A) : plain (ret a).
Proof. intros st st' e H. discriminate. Qed.

Lemma plain_throw {A : Type} (msg : jsstring) :
  plain (@throw A (new_Error msg)).
Proof. intros st st' e H. inversion H. reflexivity. Qed.

Lemma plain_bind {A B : Type} (m : M A) (k : A -> M B) :
  plain m -> (forall a, plain (k a)) -> plain (bind m k).
Proof.
  intros Hm Hk st st' e. unfold bind.
  destruct (m st) as [[a|e1] st1] eqn:E.
  - apply Hk.
  - intros H. inversion H. subst. eapply Hm. exact E.
Qed.

Lemma plain_push (ev : event) : plain (push ev).
Proof. intros st st' e H. discriminate. Qed.

Lemma plain_chdir (w : world) (d : jsstring) : plain (chdir w d).
Proof. intros st st' e H. discriminate. Qed.

Lemma plain_set_projectPath (d : jsstring) : plain (set_projectPath d).
Proof. intros st st' e H. discriminate. Qed.

Lemma plain_on_disk (f : filesystem -> filesystem) : plain (on_disk f).
Proof. intros st st' e H. discriminate. Qed.

Lemma plain_print (l : console_line) : plain (print l).
Proof. intros st st' e H. discriminate. Qed.

Lemma plain_get_cwd : plain get_cwd.
Proof. intros st st' e H. discriminate. Qed.

Lemma plain_get_disk : plain get_disk.
Proof. intros st st' e H. discriminate. Qed.

Lemma run_returns (execa : jsstring -> exec_opts -> exec_reply)
    (cmd : jsstring) (opts : exec_opts) :
  exists r : run_result,
    run execa cmd opts = Normal r /\
    (forall out, settled (execa cmd opts) = Normal out ->
                 r_status r = Success).
Proof.
  unfold run. destruct opts as [c e]; simpl.
  destruct (execa cmd {| cwd := c; env := e |}) as [[out | error] ms]; simpl;
    eexists; (split; [reflexivity|]); intros out' H;
    [reflexivity | discriminate].
Qed.

Lemma plain_run_cmd (w : world) (cmd : jsstring) : plain (run_cmd w cmd).
Proof.
  intros st st' e. unfold run_cmd.
  destruct (run_returns (execa w) cmd no_opts) as [r [Hr _]].
  rewrite Hr. intros H. discriminate.
Qed.

Create HintDb plain.
#[local] Hint Resolve plain_ret plain_throw plain_push plain_chdir
  plain_set_projectPath plain_on_disk plain_print plain_get_cwd
  plain_get_disk plain_run_cmd : plain.

Ltac plain_step :=
  match goal with
  | |- plain (bind _ _) => apply plain_bind; [|intro]
  | |- plain (when ?c _) => unfold when
  | |- plain (if ?c then _ else _) => destruct c
  | |- plain (match ?x with Some _ => _ | None => _ end) => destruct x
  | |- plain _ => solve [auto with plain]
  end.

Ltac plain_auto := repeat plain_step.

Lemma plain_step_cmd (w : world) (cmd : jsstring) (name msg : string) :
  plain (step_cmd w cmd name msg).
Proof. unfold step_cmd. plain_auto. Qed.

Lemma plain_require_command (w : world) (c msg : string) :
  plain (require_command w c msg).
Proof. unfold require_command. plain_auto. Qed.

#[local] Hint Resolve plain_step_cmd plain_require_command : plain.

Lemma plain_two_factor_patch : plain two_factor_patch.
Proof.
  unfold two_factor_patch. plain_auto.
  intros st st' e.
  destruct (patchUserFactory_cases (disk st))
    as [[reason [Hp _]] | [newContent [Hp _]]]; rewrite Hp;
    intros H; discriminate.
Qed.

#[local] Hint Resolve plain_two_factor_patch : plain.

Lemma plain_tasks (w : world) (json_mode colorOn : bool)
    (answers : answers_t) :
  Forall (fun t => plain (action t)) (tasks w json_mode colorOn answers).
Proof.
  unfold tasks.
  repeat (constructor; [cbn [action]|]); try constructor.
  - unfold prechecks. plain_auto.
  - unfold scaffold, path_TypeError. plain_auto.
  - unfold database_and_env, service_check, supabase_setup, env_for_db.
    plain_auto.
  - auto with plain.
  - unfold filament. plain_auto.
  - unfold pest_setup. plain_auto.
  - unfold dev_tools. plain_auto.
  - unfold code_quality. plain_auto.
  - unfold essentials. plain_auto.
  - unfold frontend. plain_auto.
  - unfold localization. plain_auto.
  - unfold pre_commit. plain_auto.
  - unfold git. plain_auto.
Qed.

Lemma plain_Listr_run (ts : list task) :
  Forall (fun t => plain (action t)) ts -> plain (Listr_run ts).
Proof.
  induction ts as [|t ts IH]; intros Hts; [apply plain_ret|].
  inversion Hts as [|? ? Ht Hrest]; subst.
  intros st st' e. cbn [Listr_run].
  destruct (action t (mark_started (title t) st)) as [[[]|e1] st1] eqn:E.
  - now apply IH.
  - intros H. inversion H. subst. eapply Ht. exact E.
Qed.

Lemma plain_attempt (w : world) (ctx : ctx_t) (answers : answers_t) :
  plain (attempt w ctx answers).
Proof.
  unfold attempt. apply plain_bind; [|intro].
  - apply plain_Listr_run, plain_tasks.
  - unfold success_document, farewell, supabase_report. plain_auto;
      intros st st' e H; try discriminate;
      repeat match type of H with
             | context [if ?c then _ else _] => destruct c
             | context [match ?x with Some _ => _ | None => _ end] =>
                 destruct x
             end; discriminate.
Qed.

Lemma yields_ret {A : Type} (P : A -> Prop) (a : A) : P a -> yields P (ret a).
Proof. intros Ha st st' a' H. inversion H. now subst. Qed.

Lemma yields_bind {A B : Type} (Q : A -> Prop) (P : B -> Prop)
    (m : M A) (k : A -> M B) :
  yields Q m -> (forall a, Q a -> yields P (k a)) -> yields P (bind m k).
Proof.
  intros Hm Hk st st' b. unfold bind.
  destruct (m st) as [[a|e] st1] eqn:E; [|discriminate].
  apply Hk. eapply Hm. exact E.
Qed.

Lemma yields_any {A : Type} (m : M A) : yields (fun _ => True) m.
Proof. intros st st' a _. exact I. Qed.

Lemma success_document_yields (w : world) (ctx : ctx_t) (answers : answers_t) :
  yields is_success_doc (success_document w ctx answers).
Proof.
  unfold success_document.
  eapply yields_bind; [apply yields_any|].
  intros supabaseStatus _ st st' d H. inversion H. exact I.
Qed.

Lemma attempt_yields (w : world) (ctx : ctx_t) (answers : answers_t) :
  yields no_failure_doc (attempt w ctx answers).
Proof.
  unfold attempt.
  eapply yields_bind; [apply yields_any|]. intros _ _.
  destruct (json ctx).
  - eapply yields_bind; [apply success_document_yields|].
    intros d Hd. apply yields_ret. destruct d; try contradiction. exact I.
  - eapply yields_bind; [apply yields_any|]. intros _ _.
    apply yields_ret. exact I.
Qed.

(** Whatever the machine, the flags and the disk, the failure document
    of [runCreate] names no step: its [error.step] is always null. *)
Lemma failure_document_names_no_step (w : world) (ctx : ctx_t)
    (disk0 : filesystem) (fl : flags_echo) (en : environment_t)
    (entries : list task_entry) (msg : jsstring) (s : option jsstring)
    (ms : Z) :
  document (runCreate w ctx disk0) = Some (RunFailure fl en entries msg s ms)
  -> s = None.
Proof.
  unfold runCreate.
  destruct (resolve w ctx) as [answers | | missing | err].
  - destruct (attempt w ctx answers (initial_state w disk0))
      as [[doc|err] st] eqn:E.
    + cbn [document]. intros H. subst doc.
      apply attempt_yields in E. contradiction.
    + apply plain_attempt in E. unfold report_failure.
      destruct (json ctx); cbn [document]; intros H; [|discriminate].
      inversion H. unfold step_or_null. now rewrite E.
  - cbn [document]. discriminate.
  - unfold reject_missing. destruct (json ctx); cbn [document]; discriminate.
  - cbn [document]. discriminate.
Qed.

(** A run whose task throws ends there: exit code 1, the events and the
    started tasks being those of the state in which the task threw, and
    the document, under [--json], listing those events with the message
    of the error and no step. *)
Lemma run_aborts_at_first_failure (w : world) (ctx : ctx_t)
    (disk0 : filesystem) (answers : answers_t)
    (before after : list task) (t : task) (st1 st2 : run_state)
    (e : js_error) :
  resolve w ctx = Resolved answers ->
  tasks w (json ctx) (colorOn w ctx) answers = before ++ t :: after ->
  Listr_run before (initial_state w disk0) = (Normal tt, st1) ->
  action t (mark_started (title t) st1) = (Throw e, st2) ->
  exit_code (runCreate w ctx disk0) = 1%Z /\
  events (final (runCreate w ctx disk0)) = events st2 /\
  started (final (runCreate w ctx disk0)) = started st2 /\
  disk (final (runCreate w ctx disk0)) = disk st2 /\
  (json ctx = true ->
   document (runCreate w ctx disk0)
   = Some (RunFailure (flags_of_ctx ctx) (environment w)
             (entries_of (events st2)) (message e) (step_or_null e)
             (totalMs w))).
Proof.
  intros Hres Htasks Hbefore Hthrow.
  assert (attempt w ctx answers (initial_state w disk0) = (Throw e, st2))
    as Hattempt.
  { unfold attempt, bind. rewrite Htasks.
    now rewrite (Listr_run_aborts before after t _ st1 st2 e Hbefore Hthrow). }
  unfold runCreate. rewrite Hres, Hattempt. unfold report_failure.
  destruct (json ctx); repeat split; try reflexivity; discriminate.
Qed.

(** C1, at the input on which create.js fails it.  In a [--json] run
    whose second task fails -- [laravel new] exits with a non-zero
    code -- the third task and those after it are never started, the
    events are the success of the first task and the error of
    [laravel_new], the exit code is 1, and the failure document holds
    the message of the error; but its [error.step], which should name
    the failing step, is null. *)
Theorem failed_run_names_no_step :
  let o := runCreate scaffold_fails sqlite_ctx empty_disk in
  exit_code o = 1%Z /\
  started (final o) = [lit "Prechequeos"; lit "Scaffold del proyecto"] /\
  map (fun ev => (ev_name ev, ev_status ev)) (events (final o))
  = [(lit "prechecks", Success); (lit "laravel_new", Error)] /\
  exists (entries : list task_entry),
    document o
    = Some (RunFailure (flags_of_ctx sqlite_ctx) (environment scaffold_fails)
              entries (lit "Fallo al crear el proyecto Laravel") None 90%Z)
    /\ map t_name entries = [lit "prechecks"; lit "laravel_new"].
Proof.
  cbv zeta. repeat split; try (vm_compute; reflexivity).
  eexists. split; vm_compute; reflexivity.
Qed.

(* ================================================================== *)
(** * Further properties of the .env merge *)
(* ================================================================== *)

Lemma join_split (sep : code_unit) (s : jsstring) :
  join sep (split sep s) = s.
Proof.
  induction s as [|c s IH]; [reflexivity|].
  cbn [split]. pose proof (split_not_nil sep s) as Hne.
  destruct (c =? sep)%N eqn:E.
  - apply N.eqb_eq in E. subst c.
    destruct (split sep s) as [|l ls]; [contradiction|].
    change (join sep ([] :: l :: ls)) with ([] ++ sep :: join sep (l :: ls)).
    now rewrite IH.
  - destruct (split sep s) as [|l ls]; [contradiction|].
    destruct ls as [|l2 ls].
    + cbn [join] in IH |- *. now rewrite IH.
    + change (join sep ((c :: l) :: l2 :: ls))
        with (c :: (l ++ sep :: join sep (l2 :: ls))).
      change (join sep (l :: l2 :: ls))
        with (l ++ sep :: join sep (l2 :: ls)) in IH.
      now rewrite IH.
Qed.

Lemma rewrite_line_no_updates (line : jsstring) :
  rewrite_line [] line = (line, []).
Proof.
  unfold rewrite_line.
  destruct (startsWith [HASH] (trim line) || negb (includes [EQ] (trim line)));
    reflexivity.
Qed.

(** X1.  A merge with no updates writes [.env] back unit for unit,
    whatever it holds; a missing [.env] comes into being, empty. *)
Theorem env_merge_nothing_rewrites_verbatim :
  forall fs : filesystem,
    readFile DotEnv (updateEnvValues [] fs) = Some (env_content fs)
    /\ written (updateEnvValues [] fs)
       = written fs ++ [(DotEnv, env_content fs)].
Proof.
  intros fs.
  assert (merged_content (env_content fs) [] = env_content fs) as H.
  { unfold merged_content, merged_lines. cbn [filter map].
    rewrite app_nil_r, map_map.
    rewrite (map_ext _ (fun l => l)) by (intros l; now rewrite rewrite_line_no_updates).
    rewrite map_id. apply join_split. }
  unfold updateEnvValues. fold (env_content fs). rewrite H.
  split; reflexivity.
Qed.

(** X2.  When [.env] cannot be read, the merge writes a file that
    opens with an empty line, followed by one [key=value] line for
    each update, in the order of the updates, whatever the keys and
    values are. *)
Theorem env_merge_missing_file_writes_updates :
  forall (updates : updates_t) (fs : filesystem),
    readFile DotEnv fs = None ->
    readFile DotEnv (updateEnvValues updates fs)
    = Some (join LF ([] :: map env_line updates)).
Proof.
  intros updates fs Hnone.
  unfold updateEnvValues. rewrite Hnone.
  unfold readFile, writeFile. cbn [files path_eqb].
  f_equal. unfold merged_content, merged_lines.
  cbn [split map flat_map fst snd app].
  change (rewrite_line updates []) with (@nil code_unit, @nil jsstring).
  cbn [fst snd app].
  rewrite (filter_ext _ (fun _ => true)) by reflexivity.
  assert (forall l : updates_t, filter (fun _ => true) l = l) as Hall.
  { induction l as [|a l IH]; cbn; [reflexivity | now rewrite IH]. }
  now rewrite Hall.
Qed.

Lemma env_merge_missing_file_writes_updates_witness :
  readFile DotEnv (updateEnvValues scenarioA_updates empty_disk)
  = Some (LF :: lit "APP_ENV=production" ++ LF :: lit "APP_LOCALE=es").
Proof.
  exact (env_merge_missing_file_writes_updates scenarioA_updates empty_disk
           eq_refl).
Defined.

Lemma merged_lines_fixed (updates : updates_t) (content line : jsstring) :
  updates_ok updates = true ->
  NoDup (map fst updates) ->
  In line (merged_lines content updates) ->
  fst (rewrite_line updates line) = line.
Proof.
  intros Hok Hnd Hin. unfold merged_lines in Hin.
  apply in_app_or in Hin as [Hin | Hin].
  - rewrite map_map in Hin. apply in_map_iff in Hin as [l0 [Hl0 _]].
    subst line. now rewrite rewrite_line_again.
  - apply in_map_iff in Hin as [[k v] [Hkv Hin]]. subst line.
    apply filter_In in Hin as [Hin _].
    rewrite rewrite_env_line; [reflexivity | |].
    + now apply (updates_ok_In updates Hok k v).
    + now apply In_lookup.
Qed.

Lemma env_content_after_merge (updates : updates_t) (fs : filesystem) :
  env_content (updateEnvValues updates fs)
  = merged_content (env_content fs) updates.
Proof. reflexivity. Qed.

Lemma lines_after_merge (updates : updates_t) (fs : filesystem) :
  updates_ok updates = true ->
  split LF (env_content (updateEnvValues updates fs))
  = merged_lines (env_content fs) updates.
Proof.
  intros Hok. rewrite env_content_after_merge. unfold merged_content.
  apply split_join; [apply merged_lines_not_nil | now apply merged_lines_free].
Qed.

(** X3.  After a merge, each update can be read back: for every key of
    a well-formed update map the merged [.env] holds the line
    [key=value], and every line of the merged file that is not a comment
    and whose key is that key is that very line -- no older value of
    the key survives anywhere in the file. *)
Theorem env_merge_sets_every_key :
  forall (updates : updates_t) (fs : filesystem) (k v : jsstring),
    updates_ok updates = true ->
    NoDup (map fst updates) ->
    In (k, v) updates ->
    let lines := split LF (env_content (updateEnvValues updates fs)) in
    In (env_line (k, v)) lines /\
    (forall line : jsstring,
        In line lines ->
        startsWith [HASH] (trim line) = false ->
        includes [EQ] (trim line) = true ->
        hd [] (split EQ (trim line)) = k ->
        line = env_line (k, v)).
Proof.
  intros updates fs k v Hok Hnd Hin lines. unfold lines.
  rewrite lines_after_merge by exact Hok.
  pose proof (In_lookup updates k v Hnd Hin) as Hlook.
  split.
  - unfold merged_lines. apply in_or_app.
    set (mapped := map (rewrite_line updates) (split LF (env_content fs))).
    destruct (has (flat_map snd mapped) k) eqn:E.
    + left. apply has_In in E. apply in_flat_map in E as [pair [Hpair Hk]].
      pose proof Hpair as Hmapped.
      unfold mapped in Hpair. apply in_map_iff in Hpair as [l0 [Hl0 Hin0]].
      apply in_map_iff. exists pair. split; [|exact Hmapped].
      destruct (rewrite_line_cases updates l0) as [H | [k' [v' [Hl' H]]]];
        rewrite H in Hl0; subst pair; cbn [snd In] in Hk.
      * contradiction.
      * destruct Hk as [Hk | []]. subst k'. cbn [fst]. congruence.
    + right. apply in_map. apply filter_In. split; [exact Hin|].
      cbn [fst]. now rewrite E.
  - intros line Hline Hc He Hk.
    rewrite <- (merged_lines_fixed updates (env_content fs) line Hok Hnd Hline).
    unfold rewrite_line. rewrite Hc, He. cbn [negb orb].
    rewrite Hk, Hlook. reflexivity.
Qed.

Lemma env_merge_sets_every_key_witness :
  In (lit "APP_ENV=production")
     (split LF
        (env_content
           (updateEnvValues scenarioA_updates
              (single_file DotEnv scenarioA_content))))
  /\ ~ In (lit "APP_ENV=local")
        (split LF
           (env_content
              (updateEnvValues scenarioA_updates
                 (single_file DotEnv scenarioA_content)))).
Proof.
  assert (NoDup (map fst scenarioA_updates)) as Hnd.
  { repeat constructor; simpl; intros H; repeat destruct H as [H|H];
      try discriminate H; exact H. }
  destruct (env_merge_sets_every_key scenarioA_updates
              (single_file DotEnv scenarioA_content)
              (lit "APP_ENV") (lit "production") eq_refl Hnd
              (or_introl eq_refl)) as [Hin Hall].
  split; [exact Hin|].
  intros Hold.
  pose proof (Hall (lit "APP_ENV=local") Hold eq_refl eq_refl eq_refl) as H.
  vm_compute in H. discriminate H.
Defined.

(** X4.  A merge never removes a line and adds at most one line for
    each update: the merged [.env] has at least as many lines as the
    original and at most that many more than there are updates. *)
Theorem env_merge_line_count :
  forall (updates : updates_t) (fs : filesystem),
    updates_ok updates = true ->
    List.length (split LF (env_content fs))
    <= List.length (split LF (env_content (updateEnvValues updates fs)))
    <= List.length (split LF (env_content fs)) + List.length updates.
Proof.
  intros updates fs Hok.
  rewrite lines_after_merge by exact Hok.
  unfold merged_lines. rewrite length_app, !length_map.
  match goal with
  | |- context [List.length (filter ?f updates)] =>
      pose proof (filter_length_le f updates)
  end.
  lia.
Qed.

Lemma env_merge_line_count_witness :
  List.length (split LF (env_content (single_file DotEnv scenarioA_content)))
  <= List.length
       (split LF
          (env_content
             (updateEnvValues scenarioA_updates
                (single_file DotEnv scenarioA_content))))
  <= List.length (split LF (env_content (single_file DotEnv scenarioA_content)))
     + List.length scenarioA_updates.
Proof.
  exact (env_merge_line_count scenarioA_updates
           (single_file DotEnv scenarioA_content) eq_refl).
Defined.

(** ** Two merges in a row *)

Lemma key_of_env_line (k v : jsstring) :
  key_ok k = true ->
  startsWith [HASH] (trim (env_line (k, v))) = false /\
  includes [EQ] (trim (env_line (k, v))) = true /\
  hd [] (split EQ (trim (env_line (k, v)))) = k.
Proof.
  intros Hk. unfold env_line. cbn [fst snd].
  assert (trim (k ++ EQ :: v) = k ++ EQ :: trimEnd v) as Ht.
  { unfold trim. rewrite (proj1 (key_ok_head k v Hk)).
    now apply trimEnd_app_stop. }
  rewrite Ht. split; [exact (proj2 (key_ok_head k (trimEnd v) Hk))|].
  split.
  - change (k ++ EQ :: trimEnd v) with (k ++ [EQ] ++ trimEnd v).
    apply includes_app.
  - rewrite split_app_sep by apply (key_ok_free k Hk). reflexivity.
Qed.

Lemma lookup_missing (u : updates_t) (k v : jsstring) :
  lookup k u = None -> ~ In (k, v) u.
Proof.
  induction u as [|[k' v'] u IH]; simpl; [tauto|].
  destruct (eqs k' k) eqn:E; [discriminate|].
  intros H [Heq | Hin]; [|now apply IH].
  inversion Heq. subst. rewrite eqs_refl in E. discriminate.
Qed.

Lemma rewrite_other_line (u : updates_t) (k v : jsstring) :
  key_ok k = true -> lookup k u = None ->
  rewrite_line u (env_line (k, v)) = (env_line (k, v), []).
Proof.
  intros Hk Hl. unfold rewrite_line.
  destruct (key_of_env_line k v Hk) as [H1 [H2 H3]].
  rewrite H1, H2, H3, Hl. reflexivity.
Qed.

(** X5.  A later merge that does not name a key keeps what an earlier
    merge set for it: after the two merges the [.env] holds the line
    [key=value] of the earlier one, and every line of the file that is
    not a comment and whose key is that key is that very line. *)
Theorem env_merge_keeps_earlier_keys :
  forall (earlier later : updates_t) (fs : filesystem) (k v : jsstring),
    updates_ok earlier = true ->
    NoDup (map fst earlier) ->
    updates_ok later = true ->
    In (k, v) earlier ->
    lookup k later = None ->
    let lines :=
      split LF
        (env_content (updateEnvValues later (updateEnvValues earlier fs))) in
    In (env_line (k, v)) lines /\
    (forall line : jsstring,
        In line lines ->
        startsWith [HASH] (trim line) = false ->
        includes [EQ] (trim line) = true ->
        hd [] (split EQ (trim line)) = k ->
        line = env_line (k, v)).
Proof.
  intros earlier later fs k v Hok Hnd Hok' Hin Hnone lines. unfold lines.
  rewrite lines_after_merge by exact Hok'.
  pose proof (lines_after_merge earlier fs Hok) as Hlines.
  pose proof (In_lookup earlier k v Hnd Hin) as Hlook.
  destruct (updates_ok_In earlier Hok k v Hin) as [Hk _].
  assert (In (env_line (k, v)) (merged_lines (env_content fs) earlier))
    as Hthere.
  { unfold merged_lines. apply in_or_app.
    set (mapped := map (rewrite_line earlier) (split LF (env_content fs))).
    destruct (has (flat_map snd mapped) k) eqn:E.
    - left. apply has_In in E. apply in_flat_map in E as [pair [Hpair Hk']].
      pose proof Hpair as Hmapped.
      unfold mapped in Hpair. apply in_map_iff in Hpair as [l0 [Hl0 Hin0]].
      apply in_map_iff. exists pair. split; [|exact Hmapped].
      destruct (rewrite_line_cases earlier l0) as [H | [k' [v' [Hl' H]]]];
        rewrite H in Hl0; subst pair; cbn [snd In] in Hk'.
      + contradiction.
      + destruct Hk' as [Hk' | []]. subst k'. cbn [fst]. congruence.
    - right. apply in_map. apply filter_In. split; [exact Hin|].
      cbn [fst]. now rewrite E. }
  unfold merged_lines at 1. rewrite Hlines. split.
  - apply in_or_app. left. rewrite map_map. apply in_map_iff.
    exists (env_line (k, v)). split; [|exact Hthere].
    now rewrite rewrite_other_line.
  - intros line Hline Hc He Hkey.
    apply in_app_or in Hline as [Hline | Hline].
    + rewrite map_map in Hline. apply in_map_iff in Hline as [l0 [Hl0 Hin0]].
      try rewrite Hlines in Hin0.
      destruct (rewrite_line_cases later l0) as [H | [k' [v' [Hl' H]]]];
        rewrite H in Hl0; cbn [fst] in Hl0; subst line.
      * rewrite <- (merged_lines_fixed earlier (env_content fs) l0 Hok Hnd
                      Hin0).
        unfold rewrite_line. rewrite Hc, He. cbn [negb orb].
        rewrite Hkey, Hlook. reflexivity.
      * pose proof (lookup_In later k' v' Hl') as Hin'.
        destruct (updates_ok_In later Hok' k' v' Hin') as [Hk' _].
        destruct (key_of_env_line k' v' Hk') as [_ [_ H3]].
        rewrite H3 in Hkey. subst k'. congruence.
    + apply in_map_iff in Hline as [[k' v'] [Hl0 Hin']]. subst line.
      apply filter_In in Hin' as [Hin' _].
      destruct (updates_ok_In later Hok' k' v' Hin') as [Hk' _].
      destruct (key_of_env_line k' v' Hk') as [_ [_ H3]].
      rewrite H3 in Hkey. subst k'.
      destruct (lookup_missing later k v' Hnone Hin').
Qed.

Lemma env_merge_keeps_earlier_keys_witness :
  In (lit "DB_CONNECTION=sqlite")
     (split LF
        (env_content
           (setAppLocaleEs
              (updateEnvValues [(lit "DB_CONNECTION", lit "sqlite")]
                 (single_file DotEnv scenarioA_content))))).
Proof.
  assert (NoDup (map fst [(lit "DB_CONNECTION", lit "sqlite")])) as Hnd
      by (repeat constructor; simpl; tauto).
  exact (proj1 (env_merge_keeps_earlier_keys
                  [(lit "DB_CONNECTION", lit "sqlite")]
                  [(lit "APP_LOCALE", lit "es")]
                  (single_file DotEnv scenarioA_content)
                  (lit "DB_CONNECTION") (lit "sqlite")
                  eq_refl Hnd eq_refl (or_introl eq_refl) eq_refl)).
Defined.

(** ** The two implementations of the merge *)

(** X6.  The merge of legacy/utils.js and that of create.js differ in
    two lines of code: the legacy one tests [updates[key] !== undefined]
    where create.js asks [hasOwnProperty], and it returns where [.env]
    cannot be read.  So where [.env] can be read and no line of it that
    is not a comment and holds [=] has a key that the updates object
    inherits, or holds with the value [undefined], the two write the
    same file; and where [.env] cannot be read, the legacy merge leaves
    the disk as it is while that of create.js writes a new file.  The
    test does tell the two apart: on a file that is the one line
    [key=value], an update of [key] to [undefined] makes the legacy
    merge keep the line and append [key=undefined], and create.js
    rewrite the line. *)
Theorem legacy_env_merge_compared :
  forall (inherited : jsstring -> option jsstring)
         (updates : Legacy.loose_updates) (fs : filesystem),
    (forall content : jsstring,
        readFile DotEnv fs = Some content ->
        (forall line,
            In line (split LF content) ->
            startsWith [HASH] (trim line) = false ->
            includes [EQ] (trim line) = true ->
            inherited (hd [] (split EQ (trim line))) = None /\
            Legacy.own (hd [] (split EQ (trim line))) updates
            <> Some None) ->
        Legacy.updateEnvValues inherited updates fs
        = updateEnvValues (Legacy.texts updates) fs) /\
    (readFile DotEnv fs = None ->
     Legacy.updateEnvValues inherited updates fs = fs /\
     updateEnvValues (Legacy.texts updates) fs <> fs) /\
    (forall key value : jsstring,
        key_ok key = true ->
        value_ok value = true ->
        let one_line := single_file DotEnv (env_line (key, value)) in
        readFile DotEnv
          (Legacy.updateEnvValues inherited [(key, None)] one_line)
        = Some (env_line (key, value)
                ++ LF :: env_line (key, lit "undefined")) /\
        readFile DotEnv
          (updateEnvValues (Legacy.texts [(key, None)]) one_line)
        = Some (env_line (key, lit "undefined"))).
Proof.
  intros inherited updates fs. split; [|split].
  - intros content Hread Hclean.
    now apply legacy_env_merge_agrees with (content := content).
  - intros Hread. split; [now apply legacy_env_merge_missing_file|].
    unfold updateEnvValues, writeFile. intros H.
    apply (f_equal (fun d => List.length (written d))) in H.
    cbn [written] in H. rewrite length_app in H. cbn [List.length] in H. lia.
  - intros key value Hk Hv one_line.
    assert (split LF (env_line (key, value)) = [env_line (key, value)])
      as Hline.
    { apply split_none. unfold env_line. cbn [fst snd]. intros H.
      apply in_app_or in H as [H | [H | H]].
      - exact (proj1 (key_ok_free key Hk) H).
      - unfold EQ, LF in H. discriminate H.
      - unfold value_ok in Hv. apply negb_true_iff in Hv.
        now apply (existsb_false_not_In _ _ Hv). }
    destruct (key_of_env_line key value Hk) as (Hc & He & Hkey).
    unfold one_line, Legacy.updateEnvValues, updateEnvValues, readFile,
      writeFile, single_file.
    cbn [files path_eqb].
    unfold Legacy.merged_content, merged_content, merged_lines.
    rewrite Hline. cbn [map flat_map].
    unfold Legacy.rewrite_line, rewrite_line, Legacy.get.
    rewrite Hc, He, Hkey. cbn [negb orb].
    cbn [Legacy.own Legacy.texts map lookup fst snd Legacy.text_of].
    rewrite eqs_refl. cbn [fst snd app flat_map has existsb].
    cbn [filter negb fst]. rewrite eqs_refl.
    cbn [orb negb filter map join]. split; reflexivity.
Qed.

Lemma legacy_env_merge_compared_witness :
  Legacy.updateEnvValues object_prototype scenarioA_loose
    (single_file DotEnv scenarioA_content)
  = updateEnvValues (Legacy.texts scenarioA_loose)
      (single_file DotEnv scenarioA_content)
  /\ Legacy.updateEnvValues object_prototype scenarioA_loose empty_disk
     = empty_disk
  /\ readFile DotEnv
       (Legacy.updateEnvValues object_prototype [(lit "A", None)]
          (single_file DotEnv (lit "A=1")))
     = Some (lit "A=1" ++ LF :: lit "A=undefined").
Proof.
  split; [|split].
  - apply (proj1 (legacy_env_merge_compared object_prototype
                    scenarioA_loose (single_file DotEnv scenarioA_content))
                 scenarioA_content eq_refl).
    intros line Hin Hc He. vm_compute in Hin.
    destruct Hin as [H | [H | [H | []]]]; subst line;
      try discriminate Hc; try discriminate He.
    split; [reflexivity | discriminate].
  - exact (proj1 (proj1 (proj2 (legacy_env_merge_compared object_prototype
                                  scenarioA_loose empty_disk)) eq_refl)).
  - exact (proj1 (proj2 (proj2 (legacy_env_merge_compared object_prototype
                                  scenarioA_loose empty_disk))
                    (lit "A") (lit "1") eq_refl eq_refl)).
Defined.

(* ================================================================== *)
(** * Further properties of the helpers *)
(* ================================================================== *)

(** ** The limit of [truncate] *)

Lemma Number_toString_not_nil (n : N) : Number_toString n <> [].
Proof.
  intros H. pose proof (Number_toString_states n) as Hs.
  rewrite H in Hs. discriminate Hs.
Qed.

(** X7.  The limit of [truncate] bounds what is kept of a stream, not
    what is returned: the result of a cut begins with the first 8192
    units of the stream and is at least 25 units longer than the limit,
    so a stream of 8193 to 8216 units comes back longer than it was. *)
Theorem truncate_exceeds_its_limit :
  forall s : jsstring,
    N.to_nat 8192 < List.length s ->
    firstn (N.to_nat 8192) (truncate (Some s)) = firstn (N.to_nat 8192) s /\
    N.to_nat 8192 + 25 <= List.length (truncate (Some s)) /\
    (List.length s < N.to_nat 8192 + 25 ->
     List.length s < List.length (truncate (Some s))).
Proof.
  intros s Hlen. unfold truncate, truncate_to, default_max.
  set (max := N.to_nat 8192) in *.
  destruct s as [|c s']; [inversion Hlen|].
  pose proof Hlen as Hlt. apply Nat.ltb_lt in Hlt. rewrite Hlt.
  unfold slice. rewrite Nat.sub_0_r. cbn [skipn].
  assert (List.length (firstn max (c :: s')) = max) as Hkept
      by (apply firstn_length_le; lia).
  assert (max + 25
          <= List.length
               (firstn max (c :: s')
                ++ truncated_marker (N.of_nat (List.length (c :: s') - max))))
    as Hlong.
  { rewrite length_app, Hkept. unfold truncated_marker.
    rewrite !length_app.
    pose proof (Number_toString_not_nil
                  (N.of_nat (List.length (c :: s') - max))) as Hd.
    destruct (Number_toString (N.of_nat (List.length (c :: s') - max)));
      [congruence|].
    change (List.length (lit "\n... [truncated ")) with 17.
    change (List.length (lit " chars]")) with 7.
    cbn [List.length]. lia. }
  split; [|split; [exact Hlong | intros; lia]].
  rewrite firstn_app, Hkept, Nat.sub_diag. cbn [firstn].
  rewrite app_nil_r, firstn_firstn, Nat.min_id. reflexivity.
Qed.

Lemma truncate_exceeds_its_limit_witness :
  List.length (repeat 120%N (N.to_nat 8200))
  < List.length (truncate (Some (repeat 120%N (N.to_nat 8200)))).
Proof.
  apply (proj2 (proj2 (truncate_exceeds_its_limit
                         (repeat 120%N (N.to_nat 8200))
                         ltac:(rewrite repeat_length; lia)))).
  rewrite repeat_length. lia.
Defined.

(* ================================================================== *)
(** * Further properties of the patchers *)
(* ================================================================== *)

(** ** What a match consumes *)

Lemma last_cons {A : Type} (x d : A) (l : list A) :
  last (x :: l) d = last l x.
Proof.
  revert x d. induction l as [|y l IH]; intros x d; [reflexivity|].
  change (last (x :: y :: l) d) with (last (y :: l) d).
  rewrite (IH y d), (IH y x). reflexivity.
Qed.

Lemma match_star_inv (p : code_unit -> bool)
    (k : option code_unit -> jsstring -> option jsstring)
    (prev : option code_unit) (s rest : jsstring) :
  match_star p k prev s = Some rest ->
  exists (prev' : option code_unit) (eaten s' : jsstring),
    s = eaten ++ s' /\ forallb p eaten = true /\ k prev' s' = Some rest
    /\ prev' = last (map Some eaten) prev.
Proof.
  revert prev. induction s as [|c s IH]; intros prev H.
  - cbn [match_star] in H. exists prev, [], []. repeat split; assumption.
  - cbn [match_star] in H. destruct (p c) eqn:Hp.
    + destruct (match_star p k (Some c) s) as [rest'|] eqn:E.
      * inversion H. subst rest'.
        destruct (IH (Some c) E) as [prev' [eaten [s' [Hs [Hall [Hk Hprev]]]]]].
        exists prev', (c :: eaten), s'. subst s.
        repeat split; try assumption.
        -- cbn [forallb]. now rewrite Hp, Hall.
        -- cbn [map]. now rewrite last_cons.
      * exists prev, [], (c :: s). repeat split; assumption.
    + exists prev, [], (c :: s). repeat split; assumption.
Qed.

(** A match leaves a suffix of the text it started on. *)
Lemma match_here_suffix (r : regex) :
  forall (prev : option code_unit) (s rest : jsstring),
    match_here r prev s = Some rest -> exists eaten, s = eaten ++ rest.
Proof.
  induction r as [|a r IH]; intros prev s rest H.
  - cbn in H. inversion H. now exists [].
  - destruct a; cbn [match_here] in H.
    + destruct prev; [discriminate | now apply IH in H].
    + destruct (at_line_start prev); [now apply IH in H | discriminate].
    + destruct s; [now apply IH in H | discriminate].
    + destruct s as [|c s]; [discriminate|].
      destruct (p c); [|discriminate].
      apply IH in H as [eaten H]. exists (c :: eaten). now rewrite H.
    + apply match_star_inv in H
        as [prev' [eaten [s' [Hs [_ [Hk _]]]]]].
      apply IH in Hk as [eaten' Hk]. exists (eaten ++ eaten').
      subst s s'. apply app_assoc.
    + destruct s as [|c s]; [discriminate|].
      destruct (p c); [|discriminate].
      apply match_star_inv in H
        as [prev' [eaten [s' [Hs [_ [Hk _]]]]]].
      apply IH in Hk as [eaten' Hk]. exists (c :: eaten ++ eaten').
      subst s s'. cbn [app]. f_equal. apply app_assoc.
    + destruct s as [|c s]; [now apply IH in H|].
      destruct (p c); [|now apply IH in H].
      destruct (match_here r (Some c) s) as [rest'|] eqn:E.
      * inversion H. subst rest'.
        apply IH in E as [eaten E]. exists (c :: eaten). now rewrite E.
      * now apply IH in H.
Qed.

Lemma firstn_prefix (s eaten rest : jsstring) :
  s = eaten ++ rest ->
  firstn (List.length s - List.length rest) s = eaten.
Proof.
  intros H. subst s. rewrite length_app, Nat.add_sub.
  rewrite firstn_app, Nat.sub_diag, firstn_all. cbn [firstn].
  apply app_nil_r.
Qed.

(** [exec] answers a place in the text and the text found there. *)
Lemma exec_from_sound (r : regex) :
  forall (s : jsstring) (prev : option code_unit) (index i : nat)
         (m : jsstring),
    exec_from r prev index s = Some (i, m) ->
    exists before after : jsstring,
      s = before ++ m ++ after /\ i = index + List.length before
      /\ match_here r (last (map Some before) prev) (m ++ after) = Some after.
Proof.
  assert (forall (s : jsstring) prev index i m rest,
             match_here r prev s = Some rest ->
             Some (index, firstn (List.length s - List.length rest) s)
             = Some (i, m) ->
             exists before after : jsstring,
               s = before ++ m ++ after /\ i = index + List.length before
               /\ match_here r (last (map Some before) prev) (m ++ after)
                  = Some after) as Hhere.
  { intros s prev index i m rest E H.
    destruct (match_here_suffix r prev s rest E) as [eaten He].
    rewrite (firstn_prefix s eaten rest He) in H. inversion H. subst i m.
    exists [], rest. cbn [app List.length map last].
    split; [exact He|]. split; [lia|]. now rewrite <- He. }
  induction s as [|c s IH]; intros prev index i m H.
  - cbn [exec_from] in H.
    destruct (match_here r prev []) as [rest|] eqn:E; [|discriminate].
    exact (Hhere _ _ _ _ _ _ E H).
  - cbn [exec_from] in H.
    destruct (match_here r prev (c :: s)) as [rest|] eqn:E.
    + exact (Hhere _ _ _ _ _ _ E H).
    + apply IH in H as [before [after [Hs [Hi Hm]]]].
      exists (c :: before), after. subst s.
      repeat split; [cbn [List.length]; lia|].
      cbn [map]. now rewrite last_cons.
Qed.

Lemma exec_sound (r : regex) (s : jsstring) (i : nat) (m : jsstring) :
  exec r s = Some (i, m) ->
  exists before after : jsstring,
    s = before ++ m ++ after /\ i = List.length before
    /\ match_here r (last (map Some before) None) (m ++ after) = Some after.
Proof.
  intros H. apply exec_from_sound in H as [before [after [Hs [Hi Hm]]]].
  exists before, after. repeat split; assumption.
Qed.

(** A pattern with a mandatory unit matches only where that unit is. *)
Lemma match_here_needs (p : code_unit -> bool) (r1 r2 : regex) :
  forall (prev : option code_unit) (s rest : jsstring),
    match_here (r1 ++ One p :: r2) prev s = Some rest ->
    exists c, In c s /\ p c = true.
Proof.
  induction r1 as [|a r1 IH]; intros prev s rest H.
  - cbn [app match_here] in H. destruct s as [|c s]; [discriminate|].
    destruct (p c) eqn:Hp; [|discriminate]. exists c. split; [now left | exact Hp].
  - cbn [app] in H. destruct a; cbn [match_here] in H.
    + destruct prev; [discriminate | now apply IH in H].
    + destruct (at_line_start prev); [now apply IH in H | discriminate].
    + destruct s; [now apply IH in H | discriminate].
    + destruct s as [|c s]; [discriminate|].
      destruct (p0 c); [|discriminate].
      apply IH in H as [x [Hx Hp]]. exists x. split; [now right | exact Hp].
    + apply match_star_inv in H as [prev' [eaten [s' [Hs [_ [Hk _]]]]]].
      apply IH in Hk as [x [Hx Hp]]. exists x. split; [|exact Hp].
      subst s. apply in_or_app. now right.
    + destruct s as [|c s]; [discriminate|].
      destruct (p0 c); [|discriminate].
      apply match_star_inv in H as [prev' [eaten [s' [Hs [_ [Hk _]]]]]].
      apply IH in Hk as [x [Hx Hp]]. exists x. split; [|exact Hp].
      subst s. right. apply in_or_app. now right.
    + assert (forall q t, match_here (r1 ++ One p :: r2) q t = Some rest ->
                          (forall x, In x t -> In x s) ->
                          exists c, In c s /\ p c = true) as Hsub.
      { intros q t Ht Hin. apply IH in Ht as [x [Hx Hp]].
        exists x. split; [now apply Hin | exact Hp]. }
      destruct s as [|c s]; [apply (Hsub _ _ H); auto|].
      destruct (p0 c); [|apply (Hsub _ _ H); auto].
      destruct (match_here (r1 ++ One p :: r2) (Some c) s) as [rest'|] eqn:E.
      * inversion H. subst rest'.
        apply (Hsub _ _ E). intros x Hx. now right.
      * apply (Hsub _ _ H); auto.
Qed.

Lemma exec_from_needs (p : code_unit -> bool) (r1 r2 : regex) :
  forall (s : jsstring) (prev : option code_unit) (index : nat),
    (forall c, In c s -> p c = false) ->
    exec_from (r1 ++ One p :: r2) prev index s = None.
Proof.
  induction s as [|c s IH]; intros prev index Hno; cbn [exec_from].
  - destruct (match_here (r1 ++ One p :: r2) prev []) eqn:E; [|reflexivity].
    apply match_here_needs in E as [x [[] _]].
  - destruct (match_here (r1 ++ One p :: r2) prev (c :: s)) eqn:E.
    + apply match_here_needs in E as [x [Hx Hp]].
      rewrite (Hno x Hx) in Hp. discriminate.
    + apply IH. intros x Hx. apply Hno. now right.
Qed.

Lemma chi_backslash (c : code_unit) : chi BACKSLASH c = true -> c = BACKSLASH.
Proof.
  unfold chi, fold_case, BACKSLASH.
  change ((97 <=? 92) && (92 <=? 122))%N with false. cbv iota.
  destruct ((97 <=? c) && (c <=? 122))%N eqn:E; intros H;
    apply N.eqb_eq in H; [|now symmetry].
  apply andb_true_iff in E as [E1 E2].
  apply N.leb_le in E1, E2. lia.
Qed.

Lemma no_backslash_no_match (r1 r2 : regex) (s : jsstring) :
  ~ In BACKSLASH s -> exec (r1 ++ One (chi BACKSLASH) :: r2) s = None.
Proof.
  intros Hno. apply exec_from_needs. intros c Hc.
  destruct (chi BACKSLASH c) eqn:E; [|reflexivity].
  apply chi_backslash in E. subst c. contradiction.
Qed.

Lemma replace_same (r : regex) (s : jsstring) (i : nat) (m : jsstring) :
  exec r s = Some (i, m) ->
  firstn i s ++ m ++ skipn (i + List.length m) s = s.
Proof.
  intros H. apply exec_sound in H as [before [after [Hs [Hi _]]]].
  subst i s.
  rewrite <- (Nat.add_0_r (List.length before)) at 1.
  rewrite firstn_app_2. cbn [firstn]. rewrite app_nil_r.
  f_equal. f_equal.
  rewrite (app_assoc before m after), <- length_app.
  rewrite skipn_app, Nat.sub_diag, skipn_all. reflexivity.
Qed.

Lemma not_In_existsb (c : code_unit) (s : jsstring) :
  existsb (N.eqb c) s = false <-> ~ In c s.
Proof.
  split.
  - intros H Hin.
    assert (existsb (N.eqb c) s = true) as H'
        by (apply existsb_exists; exists c; split;
            [exact Hin | apply N.eqb_refl]).
    congruence.
  - intros H. destruct (existsb (N.eqb c) s) eqn:E; [|reflexivity].
    apply existsb_exists in E as [x [Hx Hc]]. apply N.eqb_eq in Hc.
    subst x. contradiction.
Qed.

Lemma re_colors_needs_backslash (s : jsstring) :
  ~ In BACKSLASH s -> exec re_colors s = None.
Proof. intros H. unfold re_colors. now apply no_backslash_no_match. Qed.

Lemma re_env_needs_backslash (s : jsstring) :
  ~ In BACKSLASH s -> exec re_env s = None.
Proof.
  intros H.
  change re_env
    with (texti "<env"
          ++ One (chi BACKSLASH)
             :: (Plus (chi (cu "s")) :: texti "name=" ++ [One (chi DQUOTE)]
                 ++ texti "APP_LOCALE"
                 ++ [One (chi DQUOTE); One (chi BACKSLASH);
                     Plus (chi (cu "s"))]
                 ++ texti "value="
                 ++ [One (chi DQUOTE); Star (none_of [DQUOTE]);
                     One (chi DQUOTE)])).
  now apply no_backslash_no_match.
Qed.

(** X8.  The patcher of create.js never changes a setting that is
    already there.  If the [phpunit] file holds no backslash, its root
    element has a [colors] attribute and it names [APP_LOCALE], then
    the patcher writes it back unit for unit, whatever the values of
    the attribute and of the element are; no file of the project
    changes. *)
Theorem phpunit_existing_settings_are_kept :
  forall (fs : filesystem) (p : path) (xmlData : jsstring),
    phpunit_candidate fs = Some p ->
    readFile p fs = Some xmlData ->
    existsb (N.eqb BACKSLASH) xmlData = false ->
    includes name_app_locale xmlData = true ->
    match exec re_phpunit xmlData with
    | Some (_, m) => includes (lit "colors=") (group1_phpunit m)
    | None => true
    end = true ->
    written (ensurePhpunitAppLocaleEn fs) = written fs ++ [(p, xmlData)]
    /\ forall q : path,
         readFile q (ensurePhpunitAppLocaleEn fs) = readFile q fs.
Proof.
  intros fs p xmlData Hcand Hread Hno Hname Hcolors.
  apply not_In_existsb in Hno.
  assert (patch_phpunit re_colors re_env xmlData = xmlData) as Hpatch.
  { unfold patch_phpunit.
    assert (replace re_phpunit
              (fun m =>
                 if negb (includes (lit "colors=") (group1_phpunit m))
                 then lit "<phpunit" ++ group1_phpunit m ++ lit " colors="
                      ++ quoted (lit "true") ++ [GT]
                 else replace re_colors (fun _ => colors_true) m)
              xmlData = xmlData) as H1.
    { unfold replace at 1.
      destruct (exec re_phpunit xmlData) as [[i m]|] eqn:E; [|reflexivity].
      rewrite Hcolors. cbn [negb].
      assert (~ In BACKSLASH m) as Hm.
      { pose proof E as E'.
        apply exec_sound in E' as [before [after [Hs _]]].
        intros Hin. apply Hno. rewrite Hs.
        apply in_or_app. right. apply in_or_app. now left. }
      unfold replace. rewrite (re_colors_needs_backslash m Hm).
      exact (replace_same re_phpunit xmlData i m E). }
    rewrite H1, Hname. unfold replace.
    now rewrite (re_env_needs_backslash xmlData Hno). }
  unfold ensurePhpunitAppLocaleEn, ensurePhpunit_with.
  rewrite Hcand, Hread, Hpatch. split; [reflexivity|].
  intros q. unfold readFile, writeFile. cbn [files].
  destruct (path_eqb q p) eqn:E; [|reflexivity].
  destruct q, p; try discriminate E; now rewrite <- Hread.
Qed.

Lemma phpunit_existing_settings_are_kept_witness :
  readFile PhpunitXml
    (ensurePhpunitAppLocaleEn (single_file PhpunitXml phpunit_settled))
  = Some phpunit_settled.
Proof.
  exact (proj2 (phpunit_existing_settings_are_kept
                  (single_file PhpunitXml phpunit_settled) PhpunitXml
                  phpunit_settled eq_refl eq_refl eq_refl eq_refl eq_refl)
               PhpunitXml).
Defined.

(** X9.  The two-factor patch never answers [replace_noop]: the text it
    is about to write holds [two_factor_secret], which the text it read
    does not, so the two are never equal.  Whenever it declines to
    patch, the reason is one of the other four. *)
Theorem two_factor_noop_is_unreachable :
  forall (fs : filesystem) (reason : jsstring),
    fst (patchUserFactoryTwoFactorDefaults fs) = Normal (NotPatched reason) ->
    reason <> lit "replace_noop"
    /\ In reason [lit "factory_not_found"; lit "already_present";
                  lit "array_not_found"; lit "array_end_not_found"].
Proof.
  intros fs reason. unfold patchUserFactoryTwoFactorDefaults.
  assert (forall r : string,
             In (lit r) [lit "factory_not_found"; lit "already_present";
                         lit "array_not_found"; lit "array_end_not_found"] ->
             lit r <> lit "replace_noop" ->
             Normal (NotPatched (lit r)) = Normal (NotPatched reason) ->
             reason <> lit "replace_noop"
             /\ In reason [lit "factory_not_found"; lit "already_present";
                           lit "array_not_found"; lit "array_end_not_found"])
    as Hdone.
  { intros r Hin Hne H. inversion H. subst reason. now split. }
  destruct (readFile UserFactoryPhp fs) as [content|].
  2: { cbn [fst]. apply Hdone; [cbn [In]; tauto | vm_compute; discriminate]. }
  destruct (includes two_factor_secret content
            || includes two_factor_recovery_codes content
            || includes two_factor_confirmed_at content) eqn:Hguard.
  { cbn [fst]. apply Hdone; [cbn [In]; tauto | vm_compute; discriminate]. }
  destruct (exec startRe content) as [[startIdx startMatch0]|].
  2: { cbn [fst]. apply Hdone; [cbn [In]; tauto | vm_compute; discriminate]. }
  destruct (exec endRe (slice_from startIdx content)) as [[endIdx endMatch0]|].
  2: { cbn [fst]. apply Hdone; [cbn [In]; tauto | vm_compute; discriminate]. }
  cbv zeta.
  match goal with
  | |- context [if eqs ?n content then _ else _] =>
      destruct (eqs n content) eqn:E;
      [assert (includes two_factor_secret n = true) as Hn|]
  end.
  - rewrite <- !app_assoc. apply injection_includes_secret.
  - apply eqs_true in E. rewrite E in Hn.
    apply orb_false_iff in Hguard as [Hguard _].
    apply orb_false_iff in Hguard as [Hguard _]. congruence.
  - cbn [fst]. discriminate.
Qed.

Lemma two_factor_noop_is_unreachable_witness :
  lit "factory_not_found" <> lit "replace_noop"
  /\ In (lit "factory_not_found")
        [lit "factory_not_found"; lit "already_present";
         lit "array_not_found"; lit "array_end_not_found"].
Proof.
  exact (two_factor_noop_is_unreachable empty_disk
           (lit "factory_not_found") eq_refl).
Defined.

Lemma startsWith_prefix (p q s : jsstring) :
  startsWith (p ++ q) s = true -> startsWith p s = true.
Proof.
  revert s. induction p as [|a p IH]; intros s H; [reflexivity|].
  destruct s as [|b s]; cbn [app startsWith] in *; [discriminate|].
  apply andb_true_iff in H as [H1 H2]. now rewrite H1, (IH s H2).
Qed.

Lemma includes_prefix (p q s : jsstring) :
  includes (p ++ q) s = true -> includes p s = true.
Proof.
  induction s as [|c s IH]; cbn [includes]; intros H.
  - rewrite orb_false_r in H |- *. now apply startsWith_prefix in H.
  - apply orb_true_iff in H as [H | H].
    + now rewrite (startsWith_prefix p q _ H).
    + rewrite (IH H). apply orb_true_r.
Qed.

Lemma two_factor_tests_collapse (data : jsstring) :
  includes two_factor_secret data
  || includes two_factor_recovery_codes data
  || includes two_factor_confirmed_at data
  || includes (lit "two_factor_") data
  = includes (lit "two_factor_") data.
Proof.
  destruct (includes (lit "two_factor_") data) eqn:E;
    [apply orb_true_r|].
  rewrite orb_false_r.
  assert (forall tail : string,
             includes (lit "two_factor_" ++ lit tail) data = false) as Hno.
  { intros tail. destruct (includes (lit "two_factor_" ++ lit tail) data) eqn:F;
      [|reflexivity].
    apply includes_prefix in F. congruence. }
  change two_factor_secret with (lit "two_factor_" ++ lit "secret").
  change two_factor_recovery_codes
    with (lit "two_factor_" ++ lit "recovery_codes").
  change two_factor_confirmed_at with (lit "two_factor_" ++ lit "confirmed_at").
  now rewrite !Hno.
Qed.

Lemma scan_migrations_one_test (entries : list dirent) :
  scan_migrations entries = holds_two_factor entries.
Proof.
  induction entries as [|e rest IH]; [reflexivity|].
  cbn [scan_migrations holds_two_factor].
  destruct (d_isFile e); cbn [negb andb]; [|exact IH].
  destruct (endsWith (lit ".php") (d_name e)); cbn [negb]; [|exact IH].
  destruct (d_data e) as [data|]; [|reflexivity].
  rewrite two_factor_tests_collapse, IH.
  destruct (includes (lit "two_factor_") data); reflexivity.
Qed.

(** X10.  The detection of two-factor columns is one test: where every
    regular [.php] file of the migrations directory can be read, it
    answers [true] exactly when one of them holds the text
    [two_factor_]; the three longer names it also looks for never
    change the answer.  Directories and files of another extension are
    not looked into. *)
Theorem detect_two_factor_is_one_test :
  forall (fs : filesystem) (entries : list dirent),
    migrations fs = Some entries ->
    (forall e, In e entries -> d_isFile e = true ->
               endsWith (lit ".php") (d_name e) = true ->
               d_data e <> None) ->
    (detectTwoFactorColumnsInMigrations fs = true <->
     exists (e : dirent) (data : jsstring),
       In e entries /\ d_isFile e = true /\
       endsWith (lit ".php") (d_name e) = true /\
       d_data e = Some data /\ includes (lit "two_factor_") data = true).
Proof.
  intros fs entries Hm Hread.
  unfold detectTwoFactorColumnsInMigrations. rewrite Hm.
  rewrite scan_migrations_one_test. clear Hm.
  induction entries as [|e rest IH].
  - cbn. split; [discriminate | intros [e [data [[] _]]]].
  - assert (forall x, In x rest -> d_isFile x = true ->
                      endsWith (lit ".php") (d_name x) = true ->
                      d_data x <> None) as Hrest
        by (intros x Hx; apply Hread; now right).
    specialize (IH Hrest).
    cbn [holds_two_factor].
    destruct (d_isFile e) eqn:Hf; cbn [andb].
    2: { rewrite IH. split; intros [x [data [Hx H]]].
         - exists x, data. split; [now right | exact H].
         - destruct Hx as [Hx | Hx]; [subst x; rewrite Hf in H; destruct H;
                                      discriminate|].
           now exists x, data. }
    destruct (endsWith (lit ".php") (d_name e)) eqn:Hp.
    2: { rewrite IH. split; intros [x [data [Hx H]]].
         - exists x, data. split; [now right | exact H].
         - destruct Hx as [Hx | Hx];
             [subst x; rewrite Hp in H; destruct H as [_ [H _]];
              discriminate|].
           now exists x, data. }
    destruct (d_data e) as [data|] eqn:Hd.
    2: { exfalso. apply (Hread e); auto. now left. }
    destruct (includes (lit "two_factor_") data) eqn:Hi; cbn [orb].
    + split; [|reflexivity]. intros _. exists e, data.
      repeat split; auto. now left.
    + rewrite IH. split; intros [x [data' [Hx H]]].
      * exists x, data'. split; [now right | exact H].
      * destruct Hx as [Hx | Hx]; [|now exists x, data'].
        subst x. destruct H as [_ [_ [H1 H2]]].
        rewrite Hd in H1. inversion H1. subst data'. congruence.
Qed.

Lemma detect_two_factor_is_one_test_witness :
  detectTwoFactorColumnsInMigrations (migrations_only sample_migrations)
  = true.
Proof.
  apply (proj2 (detect_two_factor_is_one_test
                  (migrations_only sample_migrations) sample_migrations
                  eq_refl
                  ltac:(intros e He; cbn [sample_migrations In] in He;
                        repeat destruct He as [He | He]; try contradiction;
                        subst e; cbn; intros; discriminate))).
  exists {| d_name := lit "0002_add_two_factor_columns.php"; d_isFile := true;
            d_data := Some (lit "$table->text('two_factor_secret')") |},
         (lit "$table->text('two_factor_secret')").
  cbn [sample_migrations In d_isFile d_name d_data].
  repeat split; try reflexivity. tauto.
Defined.

(** X11.  A migration that cannot be read ends the detection with
    [false]: when a regular [.php] file fails to read before any file
    with two-factor columns is met, the answer is [false] whatever the
    files after it hold. *)
Theorem detect_two_factor_stops_at_unreadable :
  forall (fs : filesystem) (before after : list dirent) (bad : dirent),
    migrations fs = Some (before ++ bad :: after) ->
    scan_migrations before = false ->
    d_isFile bad = true ->
    endsWith (lit ".php") (d_name bad) = true ->
    d_data bad = None ->
    detectTwoFactorColumnsInMigrations fs = false.
Proof.
  intros fs before after bad Hm Hclean Hf Hp Hd.
  unfold detectTwoFactorColumnsInMigrations. rewrite Hm. clear Hm.
  induction before as [|e rest IH].
  - cbn [app scan_migrations]. now rewrite Hf, Hp, Hd.
  - cbn [app scan_migrations] in Hclean |- *.
    destruct (d_isFile e) eqn:Hfe; cbn [negb] in *; [|now apply IH].
    destruct (endsWith (lit ".php") (d_name e)) eqn:Hpe; cbn [negb] in *;
      [|now apply IH].
    destruct (d_data e) as [data|]; [|reflexivity].
    destruct (includes two_factor_secret data
              || includes two_factor_recovery_codes data
              || includes two_factor_confirmed_at data
              || includes (lit "two_factor_") data);
      [discriminate | now apply IH].
Qed.

Lemma detect_two_factor_stops_at_unreadable_witness :
  detectTwoFactorColumnsInMigrations
    (migrations_only ([jobs_migration] ++ locked_migration :: sample_migrations))
  = false
  /\ detectTwoFactorColumnsInMigrations (migrations_only sample_migrations)
     = true.
Proof.
  split; [|reflexivity].
  exact (detect_two_factor_stops_at_unreadable
           (migrations_only
              ([jobs_migration] ++ locked_migration :: sample_migrations))
           [jobs_migration] sample_migrations locked_migration
           eq_refl eq_refl eq_refl eq_refl eq_refl).
Defined.

(* ================================================================== *)
(** * Further properties of the pipeline *)
(* ================================================================== *)

Lemma task_titles_of_tasks (w : world) (json_mode colorOn : bool)
    (answers : answers_t) :
  map title (tasks w json_mode colorOn answers) = task_titles.
Proof. reflexivity. Qed.

(** ** What every task leaves alone *)

Section Frame.

Variable R : run_state -> run_state -> Prop.
Hypothesis R_refl : forall st, R st st.
Hypothesis R_trans : forall a b c, R a b -> R b c -> R a c.

Lemma preserves_ret {A : Type} (a : A) : preserves R (ret a).
Proof. intros st. apply R_refl. Qed.

Lemma preserves_throw {A : Type} (e : js_error) : preserves R (@throw A e).
Proof. intros st. apply R_refl. Qed.

Lemma preserves_bind {A B : Type} (m : M A) (k : A -> M B) :
  preserves R m -> (forall a, preserves R (k a)) -> preserves R (bind m k).
Proof.
  intros Hm Hk st. unfold bind. specialize (Hm st).
  destruct (m st) as [[a|e] st1]; cbn [snd] in *; [|exact Hm].
  eapply R_trans; [exact Hm | apply Hk].
Qed.

Lemma preserves_get_cwd : preserves R get_cwd.
Proof. intros st. apply R_refl. Qed.

Lemma preserves_get_disk : preserves R get_disk.
Proof. intros st. apply R_refl. Qed.

Variable w : world.
Variable json_mode : bool.
Variable colorOn : bool.
Variable answers : answers_t.

Hypothesis R_push : forall ev, preserves R (push ev).
Hypothesis R_disk : forall f, preserves R (on_disk f).
Hypothesis R_chdir : forall d, preserves R (chdir w d).
Hypothesis R_projectPath : forall d, preserves R (set_projectPath d).
Hypothesis R_print :
  json_mode = false ->
  forall l, (colorOn = false -> styled l = Plain) -> preserves R (print l).

Ltac frame_step :=
  match goal with
  | |- preserves _ (bind _ _) => apply preserves_bind; [|intro]
  | |- preserves _ (when ?c _) => unfold when
  | |- preserves _ (if ?c then _ else _) => destruct c
  | |- preserves _ (match ?x with Some _ => _ | None => _ end) => destruct x
  | |- preserves _ (ret _) => apply preserves_ret
  | |- preserves _ (throw _) => apply preserves_throw
  | |- preserves _ get_cwd => apply preserves_get_cwd
  | |- preserves _ get_disk => apply preserves_get_disk
  | |- preserves _ (push _) => apply R_push
  | |- preserves _ (on_disk _) => apply R_disk
  | |- preserves _ (chdir _ _) => apply R_chdir
  | |- preserves _ (set_projectPath _) => apply R_projectPath
  | |- preserves _ _ => solve [auto with frame]
  end.

Ltac frame_auto := repeat frame_step.

Lemma preserves_run_cmd (cmd : jsstring) : preserves R (run_cmd w cmd).
Proof.
  intros st. unfold run_cmd.
  destruct (run (execa w) cmd no_opts) as [r|e].
  - apply preserves_bind; [apply R_disk | intro; apply preserves_ret].
  - apply R_refl.
Qed.

Lemma preserves_step_cmd (cmd : jsstring) (name msg : string) :
  preserves R (step_cmd w cmd name msg).
Proof.
  unfold step_cmd. apply preserves_bind; [apply preserves_run_cmd|].
  intro r. frame_auto.
Qed.

Lemma preserves_require_command (c msg : string) :
  preserves R (require_command w c msg).
Proof. unfold require_command. frame_auto. Qed.

Create HintDb frame.
#[local] Hint Resolve preserves_step_cmd preserves_require_command
  preserves_run_cmd : frame.

Lemma preserves_prechecks : preserves R (prechecks w answers).
Proof. unfold prechecks. frame_auto. Qed.

Lemma preserves_scaffold : preserves R (scaffold w answers).
Proof. unfold scaffold. frame_auto. Qed.

Lemma preserves_service_check :
  preserves R (service_check w json_mode colorOn answers).
Proof.
  unfold service_check. apply preserves_bind; [|intro; apply R_push].
  destruct json_mode eqn:E; cbn [negb when].
  - apply preserves_ret.
  - apply R_print; [reflexivity|].
    intros Hc. rewrite Hc. reflexivity.
Qed.

Lemma preserves_database_and_env :
  preserves R (database_and_env w json_mode colorOn answers).
Proof.
  unfold database_and_env, supabase_setup, env_for_db.
  apply preserves_bind;
    [unfold when; destruct (_ || _);
     [apply preserves_service_check | apply preserves_ret]|].
  intro. frame_auto.
Qed.

Lemma preserves_two_factor_patch : preserves R two_factor_patch.
Proof.
  unfold two_factor_patch. frame_auto.
  intros st.
  destruct (patchUserFactoryTwoFactorDefaults (disk st)) as [[patch|e] fs'].
  - apply preserves_bind; [apply R_disk | intro; apply R_push].
  - apply preserves_bind; [apply R_disk | intro; apply preserves_throw].
Qed.

Lemma preserves_filament : preserves R (filament w answers).
Proof. unfold filament. frame_auto. Qed.

Lemma preserves_pest_setup : preserves R (pest_setup w).
Proof. unfold pest_setup. frame_auto. Qed.

Lemma preserves_dev_tools : preserves R (dev_tools w).
Proof. unfold dev_tools. frame_auto. Qed.

Lemma preserves_code_quality : preserves R (code_quality w).
Proof. unfold code_quality. frame_auto. Qed.

Lemma preserves_essentials : preserves R (essentials w).
Proof. unfold essentials. frame_auto. Qed.

Lemma preserves_frontend : preserves R (frontend w answers).
Proof. unfold frontend. frame_auto. Qed.

Lemma preserves_localization : preserves R (localization w).
Proof. unfold localization. frame_auto. Qed.

Lemma preserves_pre_commit : preserves R (pre_commit w).
Proof. unfold pre_commit. frame_auto. Qed.

Lemma preserves_git : preserves R (git w answers).
Proof. unfold git. frame_auto. Qed.

(** The tasks after the scaffold: none of them changes directory. *)
Lemma preserves_later_tasks :
  Forall (fun t => preserves R (action t))
         (skipn 2 (tasks w json_mode colorOn answers)).
Proof.
  unfold tasks. cbn [skipn].
  repeat (constructor; [cbn [action]|]); try constructor.
  - apply preserves_database_and_env.
  - apply preserves_two_factor_patch.
  - apply preserves_filament.
  - apply preserves_pest_setup.
  - apply preserves_dev_tools.
  - apply preserves_code_quality.
  - apply preserves_essentials.
  - apply preserves_frontend.
  - apply preserves_localization.
  - apply preserves_pre_commit.
  - apply preserves_git.
Qed.

Lemma preserves_tasks :
  Forall (fun t => preserves R (action t))
         (tasks w json_mode colorOn answers).
Proof.
  change (tasks w json_mode colorOn answers)
    with ({| title := lit "Prechequeos"; action := prechecks w answers |}
          :: {| title := lit "Scaffold del proyecto";
                action := scaffold w answers |}
          :: skipn 2 (tasks w json_mode colorOn answers)).
  constructor; [apply preserves_prechecks|].
  constructor; [apply preserves_scaffold|].
  apply preserves_later_tasks.
Qed.

Hypothesis R_mark : forall t st, R st (mark_started t st).

Lemma preserves_Listr_run (ts : list task) :
  Forall (fun t => preserves R (action t)) ts -> preserves R (Listr_run ts).
Proof.
  induction ts as [|t ts IH]; intros Hts; [apply preserves_ret|].
  inversion Hts as [|? ? Ht Hrest]; subst.
  intros st. cbn [Listr_run].
  specialize (Ht (mark_started (title t) st)).
  destruct (action t (mark_started (title t) st)) as [[[]|e] st1];
    cbn [snd] in *.
  - eapply R_trans; [apply R_mark|]. eapply R_trans; [exact Ht|].
    now apply IH.
  - eapply R_trans; [apply R_mark | exact Ht].
Qed.

End Frame.

(** ** The order in which tasks start *)

Lemma same_started_refl (st : run_state) : same_started st st.
Proof. reflexivity. Qed.

Lemma same_started_trans (a b c : run_state) :
  same_started a b -> same_started b c -> same_started a c.
Proof. unfold same_started. congruence. Qed.

Lemma tasks_same_started (w : world) (json_mode colorOn : bool)
    (answers : answers_t) :
  Forall (fun t => preserves same_started (action t))
         (tasks w json_mode colorOn answers).
Proof.
  apply preserves_tasks;
    try (intros; intro st; reflexivity);
    [exact same_started_refl | exact same_started_trans].
Qed.

Lemma Listr_run_started (ts : list task) :
  Forall (fun t => preserves same_started (action t)) ts ->
  forall st : run_state,
    exists n : nat,
      n <= List.length ts /\
      started (snd (Listr_run ts st)) = started st ++ map title (firstn n ts)
      /\ (forall u st', Listr_run ts st = (Normal u, st') ->
                        n = List.length ts).
Proof.
  induction ts as [|t ts IH]; intros Hts st.
  - exists 0. cbn. rewrite app_nil_r. repeat split; auto.
  - inversion Hts as [|? ? Ht Hrest]; subst.
    cbn [Listr_run].
    specialize (Ht (mark_started (title t) st)). unfold same_started in Ht.
    destruct (action t (mark_started (title t) st)) as [[[]|e] st1] eqn:E;
      cbn [snd] in Ht.
    + destruct (IH Hrest st1) as [n [Hn [Hs Hall]]].
      exists (S n). cbn [List.length firstn map]. split; [lia|]. split.
      * rewrite Hs, Ht. cbn [mark_started started].
        now rewrite <- app_assoc.
      * intros u st' H. f_equal. eapply Hall. exact H.
    + exists 1. cbn [List.length firstn map snd]. split; [lia|]. split.
      * rewrite Ht. reflexivity.
      * intros u st' H. discriminate.
Qed.

Lemma preserves_supabase_report (R : run_state -> run_state -> Prop)
    (w : world) (ctx : ctx_t) (answers : answers_t) :
  (forall st, R st st) ->
  (forall a b c, R a b -> R b c -> R a c) ->
  (forall f, preserves R (on_disk f)) ->
  (forall l, (colorOn w ctx = false -> styled l = Plain) ->
             preserves R (print l)) ->
  preserves R (supabase_report w ctx answers).
Proof.
  intros Hrefl Htrans Hdisk Hprint. unfold supabase_report.
  destruct (is_lit (a_db answers) (lit "supabase"));
    [|now apply preserves_ret].
  apply preserves_bind; try assumption.
  - now apply preserves_run_cmd.
  - intros r.
    destruct (colorOn w ctx), (is_error (r_status r));
      repeat (apply preserves_bind; try assumption; [|intro]);
      apply Hprint; first [discriminate | reflexivity].
Qed.

Lemma preserves_farewell (R : run_state -> run_state -> Prop)
    (w : world) (ctx : ctx_t) (answers : answers_t) :
  (forall st, R st st) ->
  (forall a b c, R a b -> R b c -> R a c) ->
  (forall f, preserves R (on_disk f)) ->
  (forall l, (colorOn w ctx = false -> styled l = Plain) ->
             preserves R (print l)) ->
  preserves R (farewell w ctx answers).
Proof.
  intros Hrefl Htrans Hdisk Hprint. unfold farewell.
  assert (forall s : style,
             colorOn w ctx = false -> styled_if_color w ctx s = Plain)
    as Hplain by (intros s Hc; unfold styled_if_color; now rewrite Hc).
  apply preserves_bind; try assumption;
    [now apply preserves_supabase_report | intro].
  apply preserves_bind; try assumption;
    [apply Hprint; apply Hplain | intro].
  intros st.
  destruct (eqs (showFinalMenu w (projectPath st)) (lit "vscode"));
    [|apply Hrefl].
  destruct (openVSCode w (projectPath st));
    [apply Hprint; apply Hplain | apply Hrefl].
Qed.

Lemma preserves_success_document (R : run_state -> run_state -> Prop)
    (w : world) (ctx : ctx_t) (answers : answers_t) :
  (forall st, R st st) ->
  (forall a b c, R a b -> R b c -> R a c) ->
  (forall f, preserves R (on_disk f)) ->
  preserves R (success_document w ctx answers).
Proof.
  intros Hrefl Htrans Hdisk. unfold success_document.
  apply preserves_bind; try assumption.
  - destruct (is_lit (a_db answers) (lit "supabase"));
      [|now apply preserves_ret].
    apply preserves_bind; try assumption;
      [now apply preserves_run_cmd | intro; now apply preserves_ret].
  - intros s st. apply Hrefl.
Qed.

Lemma attempt_started (w : world) (ctx : ctx_t) (answers : answers_t)
    (st : run_state) :
  exists n : nat,
    n <= 13 /\
    started (snd (attempt w ctx answers st))
    = started st ++ firstn n task_titles /\
    (forall d st', attempt w ctx answers st = (Normal d, st') -> n = 13).
Proof.
  destruct (Listr_run_started (tasks w (json ctx) (colorOn w ctx) answers)
              (tasks_same_started w (json ctx) (colorOn w ctx) answers) st)
    as [n [Hn [Hs Hall]]].
  exists n. split; [exact Hn|].
  rewrite <- (task_titles_of_tasks w (json ctx) (colorOn w ctx) answers).
  rewrite firstn_map.
  unfold attempt, bind.
  destruct (Listr_run (tasks w (json ctx) (colorOn w ctx) answers) st)
    as [[[]|e] st1] eqn:E; cbn [snd] in Hs.
  - assert (forall (m : M (option json_doc)),
               preserves same_started m ->
               started (snd (m st1))
               = started st ++ map title
                                 (firstn n (tasks w (json ctx) (colorOn w ctx)
                                              answers))
               /\ (forall d st', m st1 = (Normal d, st') -> n = 13)) as Hpost.
    { intros m Hm. split; [now rewrite (Hm st1)|].
      intros d st' _. now apply (Hall tt st1). }
    apply Hpost.
    destruct (json ctx);
      (apply preserves_bind; [exact same_started_trans | |]);
      try (intros d; apply preserves_ret; exact same_started_refl).
    + apply preserves_success_document;
        [exact same_started_refl | exact same_started_trans
         | intros f s; reflexivity].
    + apply preserves_farewell;
        [exact same_started_refl | exact same_started_trans
         | intros f s; reflexivity | intros l Hl s; reflexivity].
  - split; [exact Hs | intros d st' H; discriminate].
Qed.

(** X12.  In every run the tasks whose action was invoked are an initial
    segment of the thirteen declared ones, in their declared order;
    and a run ends with exit code 0 only after all thirteen were
    invoked, or after the user cancelled at the prompts, when none
    was. *)
Theorem started_tasks_are_a_prefix :
  forall (w : world) (ctx : ctx_t) (disk0 : filesystem),
    exists n : nat,
      n <= 13 /\
      started (final (runCreate w ctx disk0)) = firstn n task_titles /\
      (exit_code (runCreate w ctx disk0) = 0%Z ->
       n = 13 \/ (n = 0 /\ resolve w ctx = Cancelled)).
Proof.
  intros w ctx disk0. unfold runCreate.
  destruct (resolve w ctx) as [answers | | missing | err] eqn:Hres.
  - destruct (attempt_started w ctx answers (initial_state w disk0))
      as [n [Hn [Hs Hall]]].
    exists n. split; [exact Hn|].
    destruct (attempt w ctx answers (initial_state w disk0))
      as [[d|e] st] eqn:E; cbn [snd] in Hs.
    + cbn [final exit_code]. split; [exact Hs|].
      intros _. left. eapply Hall. reflexivity.
    + unfold report_failure.
      destruct (json ctx); cbn [final exit_code]; (split; [exact Hs|]);
        discriminate.
  - exists 0. cbn. split; [lia|]. split; [reflexivity|]. intros _. now right.
  - exists 0. unfold reject_missing.
    destruct (json ctx); cbn [final exit_code]; (split; [lia|]);
      (split; [reflexivity | discriminate]).
  - exists 0. cbn [final exit_code]. split; [lia|].
    split; [reflexivity | discriminate].
Qed.

(** ** The event log *)

Lemma events_extend_refl (st : run_state) : events_extend st st.
Proof. exists []. now rewrite app_nil_r. Qed.

Lemma events_extend_trans (a b c : run_state) :
  events_extend a b -> events_extend b c -> events_extend a c.
Proof.
  intros [m1 H1] [m2 H2]. exists (m1 ++ m2). now rewrite H2, H1, app_assoc.
Qed.

(** X13.  A task only ever appends to the event log: whatever the
    machine, the parameters and the state a task starts in, and whether
    it returns or throws, the events it leaves are those it found
    followed by its own. *)
Theorem tasks_only_append_events :
  forall (w : world) (json_mode colorOn : bool) (answers : answers_t)
         (t : task) (st : run_state),
    In t (tasks w json_mode colorOn answers) ->
    exists more : list event,
      events (snd (action t st)) = events st ++ more.
Proof.
  intros w json_mode colorOn answers t st Hin.
  assert (Forall (fun t => preserves events_extend (action t))
                 (tasks w json_mode colorOn answers)) as Hall.
  { apply preserves_tasks;
      first [ exact events_extend_refl
            | exact events_extend_trans
            | intros ev s; now exists [ev]
            | intros; intro s; exists []; cbn [snd events];
              now rewrite app_nil_r ]. }
  rewrite Forall_forall in Hall. exact (Hall t Hin st).
Qed.

Lemma tasks_only_append_events_witness :
  exists more : list event,
    events (snd (prechecks calm_world
                   (answers_of_input calm_world sqlite_flags)
                   (initial_state calm_world empty_disk)))
    = events (initial_state calm_world empty_disk) ++ more.
Proof.
  exact (tasks_only_append_events calm_world true false
           (answers_of_input calm_world sqlite_flags)
           {| title := lit "Prechequeos";
              action := prechecks calm_world
                          (answers_of_input calm_world sqlite_flags) |}
           (initial_state calm_world empty_disk) (or_introl eq_refl)).
Defined.

Lemma started_tasks_are_a_prefix_witness :
  exists n : nat,
    n <= 13 /\
    started (final (runCreate calm_world sqlite_ctx empty_disk))
    = firstn n task_titles /\
    (n = 13 \/ (n = 0 /\ resolve calm_world sqlite_ctx = Cancelled)).
Proof.
  destruct (started_tasks_are_a_prefix calm_world sqlite_ctx empty_disk)
    as [n [Hn [Hs Hexit]]].
  exists n. split; [exact Hn|]. split; [exact Hs|].
  apply Hexit. vm_compute. reflexivity.
Defined.

(** ** Structured output *)

Lemma same_console_refl (st : run_state) : same_console st st.
Proof. reflexivity. Qed.

Lemma same_console_trans (a b c : run_state) :
  same_console a b -> same_console b c -> same_console a c.
Proof. unfold same_console. congruence. Qed.

Lemma json_tasks_same_console (w : world) (colorOn : bool)
    (answers : answers_t) :
  Forall (fun t => preserves same_console (action t))
         (tasks w true colorOn answers).
Proof.
  apply preserves_tasks;
    first [ exact same_console_refl
          | exact same_console_trans
          | discriminate
          | intros; intro s; reflexivity ].
Qed.

Lemma json_attempt_same_console (w : world) (ctx : ctx_t)
    (answers : answers_t) :
  json ctx = true -> preserves same_console (attempt w ctx answers).
Proof.
  intros Hjson. unfold attempt. rewrite Hjson.
  apply preserves_bind; [exact same_console_trans | |].
  - apply preserves_Listr_run;
      [exact same_console_refl | exact same_console_trans
       | intros t s; reflexivity | apply json_tasks_same_console].
  - intros _. apply preserves_bind; [exact same_console_trans | |].
    + apply preserves_success_document;
        [exact same_console_refl | exact same_console_trans
         | intros f s; reflexivity].
    + intros d. apply preserves_ret. exact same_console_refl.
Qed.

Lemma json_attempt_document (w : world) (ctx : ctx_t) (answers : answers_t)
    (st st' : run_state) (d : option json_doc) :
  json ctx = true ->
  attempt w ctx answers st = (Normal d, st') -> d <> None.
Proof.
  intros Hjson. unfold attempt, bind. rewrite Hjson.
  destruct (Listr_run _ st) as [[[]|e] st1]; [|discriminate].
  destruct (success_document w ctx answers st1) as [[doc|e] st2];
    [|discriminate].
  cbn [ret]. intros H. inversion H. discriminate.
Qed.

(** X14.  Under [--json], [runCreate] prompts for nothing and itself
    prints nothing: no line goes to its console, colour is off
    ([FORCE_COLOR=0], [NO_COLOR=1]), and the whole outcome is the same
    whatever the prompts, the final menu and the editor would have
    answered.  It writes exactly one document unless it rejects; and it
    rejects in one case only: validation has passed, [--herd-dir] is
    not given, and the look-up of the default Herd directory rejects
    because the directory is absent and cannot be made.  Then no task
    has started and no document is written: index.js reports the error
    and the exit code is 1. *)
Theorem json_run_is_silent :
  forall (w : world) (ctx : ctx_t) (disk0 : filesystem),
    json ctx = true ->
    let input := fill_defaults (nonInteractive ctx) (flags ctx) in
    let o := runCreate w ctx disk0 in
    console (final o) = [] /\
    process_env o
    = [(lit "FORCE_COLOR", lit "0"); (lit "NO_COLOR", lit "1")] /\
    (forall (gather : input_t -> bool -> completion (option answers_t))
            (menu : jsstring -> jsstring)
            (vscode : jsstring -> option jsstring),
        runCreate (with_prompts w gather menu vscode) ctx disk0 = o) /\
    (uncaught o = None -> document o <> None) /\
    (forall error : js_error,
        uncaught o = Some error <->
        validateNonInteractive input = [] /\
        truthy (herdDir (flags ctx)) = false /\
        mkdir_rejects w (home_herd w) = Some error) /\
    (forall error : js_error,
        uncaught o = Some error ->
        document o = None /\ exit_code o = 1%Z /\
        started (final o) = [] /\ events (final o) = []).
Proof.
  intros w ctx disk0 Hjson input o.
  assert (interactive w ctx = false) as Hint
      by (unfold interactive; now rewrite Hjson).
  assert (colorOn w ctx = false) as Hcolor
      by (unfold colorOn, colorsEnabled; cbn [cc_json]; now rewrite Hjson).
  assert (color_env w ctx
          = [(lit "FORCE_COLOR", lit "0"); (lit "NO_COLOR", lit "1")]) as Henv
      by (unfold color_env; now rewrite Hcolor).
  assert (herdDir input = herdDir (flags ctx)) as Hdir by reflexivity.
  assert (herdDir_or_lookup w input
          = if truthy (herdDir (flags ctx))
            then Normal (or_else (herdDir (flags ctx)) [])
            else match mkdir_rejects w (home_herd w) with
                 | Some error => Throw error
                 | None => Normal (home_herd w)
                 end) as Hlookup.
  { unfold herdDir_or_lookup, getHerdDirectory, herdDir_of.
    rewrite Hdir. reflexivity. }
  split; [|split; [|split; [|split; [|split]]]].
  - unfold o, runCreate. rewrite resolve_non_interactive by exact Hint.
    cbv zeta. destruct (0 <? _).
    + unfold reject_missing. rewrite Hjson. reflexivity.
    + destruct (herdDir_or_lookup w _); [|reflexivity].
      pose proof (json_attempt_same_console w ctx
                    (answers_of_input w
                       (fill_defaults (nonInteractive ctx) (flags ctx)))
                    Hjson (initial_state w disk0)) as Hc.
      unfold same_console in Hc.
      destruct (attempt w ctx _ (initial_state w disk0)) as [[d|e] st];
        cbn [snd] in Hc.
      * exact Hc.
      * unfold report_failure. rewrite Hjson. exact Hc.
  - unfold o, runCreate. rewrite resolve_non_interactive by exact Hint.
    cbv zeta. destruct (0 <? _).
    + unfold reject_missing. rewrite Hjson. exact Henv.
    + destruct (herdDir_or_lookup w _); [|exact Henv].
      destruct (attempt w ctx _ (initial_state w disk0)) as [[d|e] st].
      * exact Henv.
      * unfold report_failure. rewrite Hjson. exact Henv.
  - intros gather menu vscode. unfold o.
    destruct ctx as [j ni y v c nc fl]. cbn [json] in Hjson. subst j.
    reflexivity.
  - unfold o, runCreate. rewrite resolve_non_interactive by exact Hint.
    cbv zeta. destruct (0 <? _).
    + unfold reject_missing. rewrite Hjson. discriminate.
    + destruct (herdDir_or_lookup w _); [|discriminate].
      destruct (attempt w ctx _ (initial_state w disk0)) as [[d|e] st] eqn:E.
      * cbn [document]. intros _. eapply json_attempt_document; eassumption.
      * unfold report_failure. rewrite Hjson. discriminate.
  - intros error. unfold o, runCreate.
    rewrite resolve_non_interactive by exact Hint. cbv zeta.
    fold input. rewrite Hlookup.
    destruct (validateNonInteractive input) as [|flag rest];
      cbn [List.length Nat.ltb Nat.leb].
    + destruct (truthy (herdDir (flags ctx))).
      * destruct (attempt w ctx _ (initial_state w disk0)) as [[d|e] st];
          [|unfold report_failure; destruct (json ctx)];
          cbn [uncaught]; (split; [discriminate|]);
          intros (_ & H & _); discriminate H.
      * destruct (mkdir_rejects w (home_herd w)) as [e0|].
        -- cbn [uncaught]. split.
           ++ intros H. now inversion H.
           ++ intros (_ & _ & H). now inversion H.
        -- destruct (attempt w ctx _ (initial_state w disk0)) as [[d|e] st];
             [|unfold report_failure; destruct (json ctx)];
             cbn [uncaught]; (split; [discriminate|]);
             intros (_ & _ & H); discriminate H.
    + unfold reject_missing. destruct (json ctx); cbn [uncaught];
        (split; [discriminate|]); intros (H & _); discriminate H.
  - intros error. unfold o, runCreate.
    destruct (resolve w ctx) as [answers | | missing | err].
    + destruct (attempt w ctx answers (initial_state w disk0)) as [[d|e] st];
        [|unfold report_failure; destruct (json ctx)];
        cbn [uncaught]; discriminate.
    + cbn [uncaught]. discriminate.
    + unfold reject_missing. destruct (json ctx); cbn [uncaught]; discriminate.
    + intros _. repeat split.
Qed.

Lemma json_run_is_silent_witness :
  console (final (runCreate scaffold_fails sqlite_ctx empty_disk)) = []
  /\ runCreate
       (with_prompts calm_world
          (fun _ _ => Normal (Some (answers_of_input calm_world mysql_flags)))
          (fun _ => lit "vscode") (fun _ => Some (lit "no editor")))
       sqlite_ctx empty_disk
     = runCreate calm_world sqlite_ctx empty_disk
  /\ document (runCreate calm_world sqlite_ctx empty_disk) <> None
  /\ uncaught (runCreate herd_locked sqlite_ctx empty_disk) = Some eacces
  /\ document (runCreate herd_locked sqlite_ctx empty_disk) = None.
Proof.
  pose proof (json_run_is_silent calm_world sqlite_ctx empty_disk eq_refl)
    as (_ & _ & Hsame & Hdoc & _ & _).
  pose proof (json_run_is_silent herd_locked sqlite_ctx empty_disk eq_refl)
    as (_ & _ & _ & _ & Hwhen & Hthen).
  assert (uncaught (runCreate herd_locked sqlite_ctx empty_disk)
          = Some eacces) as Hrejects.
  { apply (proj2 (Hwhen eacces)). repeat split. }
  split; [exact (proj1 (json_run_is_silent scaffold_fails sqlite_ctx
                          empty_disk eq_refl))|].
  split; [exact (Hsame _ _ _)|].
  split; [exact (Hdoc eq_refl)|].
  split; [exact Hrejects|].
  exact (proj1 (Hthen eacces Hrejects)).
Defined.

(** ** Properties that every task inherits from its steps *)

Section Compositional.

Variable G : forall A : Type, M A -> Prop.
Variable w : world.
Variable json_mode : bool.
Variable colorOn : bool.
Variable answers : answers_t.

Hypothesis G_ret : forall (A : Type) (a : A), G A (ret a).
Hypothesis G_bind :
  forall (A B : Type) (m : M A) (k : A -> M B),
    G A m -> (forall a, G B (k a)) -> G B (bind m k).
Hypothesis G_note :
  forall (name : string) (st : status) (out : option jsstring),
    st <> Error -> G unit (push (event_note name st out)).
Hypothesis G_step_cmd :
  forall (cmd : jsstring) (name msg : string),
    G unit (step_cmd w cmd name msg).
Hypothesis G_require :
  forall c msg : string, G unit (require_command w c msg).
Hypothesis G_disk : forall f, G unit (on_disk f).
Hypothesis G_chdir : forall d, G unit (chdir w d).
Hypothesis G_projectPath : forall d, G unit (set_projectPath d).
Hypothesis G_print : forall l, G unit (print l).
Hypothesis G_get_cwd : G jsstring get_cwd.
Hypothesis G_get_disk : G filesystem get_disk.
Hypothesis G_no_name :
  a_projectName answers = None -> G unit (throw path_TypeError).
Hypothesis G_two_factor : G unit two_factor_patch.

Ltac comp_step :=
  match goal with
  | |- G _ (bind _ _) => apply G_bind; [|intro]
  | |- G _ (when ?c _) => unfold when
  | |- G _ (if ?c then _ else _) => destruct c
  | |- G _ (ret _) => apply G_ret
  | |- G _ get_cwd => apply G_get_cwd
  | |- G _ get_disk => apply G_get_disk
  | |- G _ (push (event_note _ _ _)) =>
      apply G_note; try discriminate
  | |- G _ (on_disk _) => apply G_disk
  | |- G _ (chdir _ _) => apply G_chdir
  | |- G _ (set_projectPath _) => apply G_projectPath
  | |- G _ (print _) => apply G_print
  | |- G _ (step_cmd _ _ _ _) => apply G_step_cmd
  | |- G _ (require_command _ _ _) => apply G_require
  end.

Ltac comp_auto := repeat comp_step.

Lemma G_prechecks : G unit (prechecks w answers).
Proof. unfold prechecks. comp_auto. Qed.

Lemma G_scaffold : G unit (scaffold w answers).
Proof.
  unfold scaffold. comp_auto; destruct (a_projectName answers) eqn:E;
    comp_auto; now apply G_no_name.
Qed.

Lemma G_service_check : G unit (service_check w json_mode colorOn answers).
Proof.
  unfold service_check. comp_auto;
    match goal with
    | |- (if ?c then _ else _) <> _ => destruct c; discriminate
    end.
Qed.

Lemma G_database_and_env :
  G unit (database_and_env w json_mode colorOn answers).
Proof.
  unfold database_and_env, supabase_setup, env_for_db.
  apply G_bind;
    [unfold when; destruct (_ || _);
     [apply G_service_check | apply G_ret]|].
  intro. comp_auto.
Qed.

Lemma G_filament : G unit (filament w answers).
Proof. unfold filament. comp_auto. Qed.

Lemma G_pest_setup : G unit (pest_setup w).
Proof. unfold pest_setup. comp_auto. Qed.

Lemma G_dev_tools : G unit (dev_tools w).
Proof. unfold dev_tools. comp_auto. Qed.

Lemma G_code_quality : G unit (code_quality w).
Proof. unfold code_quality. comp_auto. Qed.

Lemma G_essentials : G unit (essentials w).
Proof. unfold essentials. comp_auto. Qed.

Lemma G_frontend : G unit (frontend w answers).
Proof. unfold frontend. comp_auto. Qed.

Lemma G_localization : G unit (localization w).
Proof. unfold localization. comp_auto. Qed.

Lemma G_pre_commit : G unit (pre_commit w).
Proof. unfold pre_commit. comp_auto. Qed.

Lemma G_git : G unit (git w answers).
Proof. unfold git. comp_auto. Qed.

Lemma G_tasks :
  Forall (fun t => G unit (action t)) (tasks w json_mode colorOn answers).
Proof.
  unfold tasks.
  repeat (constructor; [cbn [action]|]); try constructor.
  - apply G_prechecks.
  - apply G_scaffold.
  - apply G_database_and_env.
  - apply G_two_factor.
  - apply G_filament.
  - apply G_pest_setup.
  - apply G_dev_tools.
  - apply G_code_quality.
  - apply G_essentials.
  - apply G_frontend.
  - apply G_localization.
  - apply G_pre_commit.
  - apply G_git.
Qed.

End Compositional.

(** ** Triples *)

Lemma hoare_bind {A B : Type} (P : run_state -> Prop) (m : M A)
    (Q : A -> run_state -> Prop) (k : A -> M B)
    (Q' : B -> run_state -> Prop) (E : js_error -> run_state -> Prop) :
  hoare P m Q E -> (forall a, hoare (Q a) (k a) Q' E) ->
  hoare P (bind m k) Q' E.
Proof.
  intros Hm Hk st HP. unfold bind. specialize (Hm st HP).
  destruct (m st) as [[a|e] st1]; [exact (Hk a st1 Hm) | exact Hm].
Qed.

Lemma hoare_Listr_run (P : run_state -> Prop)
    (E : js_error -> run_state -> Prop) (ts : list task) :
  (forall t st, P st -> P (mark_started t st)) ->
  Forall (fun t => hoare P (action t) (fun _ => P) E) ts ->
  hoare P (Listr_run ts) (fun _ => P) E.
Proof.
  intros Hmark. induction ts as [|t ts IH]; intros Hts st HP.
  - exact HP.
  - inversion Hts as [|? ? Ht Hrest]; subst. cbn [Listr_run].
    specialize (Ht (mark_started (title t) st) (Hmark _ _ HP)).
    destruct (action t (mark_started (title t) st)) as [[[]|e] st1].
    + exact (IH Hrest st1 Ht).
    + exact Ht.
Qed.

(** ** Where an error event can stand *)

Lemma clean_removelast (evs : list event) : clean evs -> clean (removelast evs).
Proof.
  unfold clean. intros H. induction evs as [|ev evs IH]; [constructor|].
  inversion H as [|? ? Hev Hrest]; subst.
  destruct evs as [|ev2 evs]; [constructor|].
  change (removelast (ev :: ev2 :: evs)) with (ev :: removelast (ev2 :: evs)).
  constructor; [exact Hev | now apply IH].
Qed.

Lemma careful_of_same_events {A : Type} (m : M A) :
  preserves (fun st st' => events st' = events st) m -> careful A m.
Proof.
  intros Hm st HP. specialize (Hm st).
  destruct (m st) as [[a|e] st1]; cbn [snd] in Hm; rewrite Hm;
    [exact HP | now apply clean_removelast].
Qed.

Lemma careful_bind (A B : Type) (m : M A) (k : A -> M B) :
  careful A m -> (forall a, careful B (k a)) -> careful B (bind m k).
Proof. intros Hm Hk. eapply hoare_bind; [exact Hm | exact Hk]. Qed.

Lemma careful_note (name : string) (s : status) (out : option jsstring) :
  s <> Error -> careful unit (push (event_note name s out)).
Proof.
  intros Hs st HP. cbn. apply Forall_app. split; [exact HP|].
  constructor; [exact Hs | constructor].
Qed.

Lemma careful_step_cmd (w : world) (cmd : jsstring) (name msg : string) :
  careful unit (step_cmd w cmd name msg).
Proof.
  intros st HP. unfold step_cmd, run_cmd, bind.
  destruct (run_returns (execa w) cmd no_opts) as [r [Hr _]].
  rewrite Hr. cbn [on_disk ret push when].
  destruct (is_error (r_status r)) eqn:E; unfold when;
    cbn [throw ret events].
  - now rewrite removelast_last.
  - apply Forall_app. split; [exact HP|].
    constructor; [|constructor]. cbn [event_of ev_status].
    intros H. rewrite H in E. discriminate.
Qed.

Lemma careful_require_command (w : world) (c msg : string) :
  careful unit (require_command w c msg).
Proof.
  intros st HP. unfold require_command.
  destruct (commandExists w (lit c)); cbn; [exact HP|].
  now apply clean_removelast.
Qed.

Lemma careful_two_factor_patch : careful unit two_factor_patch.
Proof.
  unfold two_factor_patch.
  apply careful_bind;
    [apply careful_of_same_events; intros st; reflexivity | intros fs].
  apply careful_bind.
  - apply careful_note.
    destruct (detectTwoFactorColumnsInMigrations fs); discriminate.
  - intros _.
    destruct (negb (detectTwoFactorColumnsInMigrations fs));
      [intros st HP; exact HP|].
    intros st HP.
    destruct (patchUserFactory_cases (disk st))
      as [[reason [Hp _]] | [newContent [Hp _]]]; rewrite Hp; cbn;
      (apply Forall_app; split; [exact HP|]);
      (constructor; [discriminate | constructor]).
Qed.

Lemma careful_tasks (w : world) (json_mode colorOn : bool)
    (answers : answers_t) :
  Forall (fun t => careful unit (action t))
         (tasks w json_mode colorOn answers).
Proof.
  apply (G_tasks careful);
    first [ exact careful_bind
          | exact careful_note
          | apply careful_step_cmd
          | apply careful_require_command
          | exact careful_two_factor_patch
          | intros A a st HP; exact HP
          | intros; apply careful_of_same_events; intros st; reflexivity ].
Qed.

Lemma same_events_after_run (w : world) (ctx : ctx_t) (answers : answers_t) :
  preserves (fun st st' => events st' = events st)
    (if json ctx
     then doc <- success_document w ctx answers ;; ret (Some doc)
     else farewell w ctx answers ;;; ret None).
Proof.
  assert (forall a b c : run_state,
             events b = events a -> events c = events b ->
             events c = events a) as Htrans by (intros; congruence).
  destruct (json ctx);
    (apply preserves_bind; [exact Htrans | |]);
    try (intros d; apply preserves_ret; reflexivity).
  - apply preserves_success_document;
      [reflexivity | exact Htrans | intros f s; reflexivity].
  - apply preserves_farewell;
      [reflexivity | exact Htrans | intros f s; reflexivity
       | intros l Hl s; reflexivity].
Qed.

Lemma careful_attempt (w : world) (ctx : ctx_t) (answers : answers_t) :
  careful (option json_doc) (attempt w ctx answers).
Proof.
  unfold attempt. apply careful_bind.
  - apply hoare_Listr_run; [intros t st H; exact H|].
    apply careful_tasks.
  - intros u. apply careful_of_same_events, same_events_after_run.
Qed.

(** X15.  Only the last event of a run can have the status error: in
    every run all events but the last are successes, warnings or
    skips, and a run that ends with exit code 0 has no error event at
    all. *)
Theorem only_the_last_event_is_an_error :
  forall (w : world) (ctx : ctx_t) (disk0 : filesystem),
    clean (removelast (events (final (runCreate w ctx disk0)))) /\
    (exit_code (runCreate w ctx disk0) = 0%Z ->
     clean (events (final (runCreate w ctx disk0)))).
Proof.
  intros w ctx disk0. unfold runCreate.
  destruct (resolve w ctx) as [answers | | missing | err].
  - pose proof (careful_attempt w ctx answers (initial_state w disk0)
                  (Forall_nil _)) as Hatt.
    destruct (attempt w ctx answers (initial_state w disk0)) as [[d|e] st].
    + cbn [final exit_code]. split; [now apply clean_removelast | auto].
    + unfold report_failure.
      destruct (json ctx); cbn [final exit_code snd print events];
        (split; [exact Hatt | discriminate]).
  - cbn. split; [constructor | intros _; constructor].
  - unfold reject_missing.
    destruct (json ctx); cbn; (split; [constructor | discriminate]).
  - cbn. split; [constructor | discriminate].
Qed.

Lemma only_the_last_event_is_an_error_witness :
  clean (events (final (runCreate calm_world sqlite_ctx empty_disk))) /\
  clean (removelast
           (events (final (runCreate scaffold_fails sqlite_ctx empty_disk)))).
Proof.
  split.
  - apply (proj2 (only_the_last_event_is_an_error calm_world sqlite_ctx
                    empty_disk)).
    vm_compute. reflexivity.
  - exact (proj1 (only_the_last_event_is_an_error scaffold_fails sqlite_ctx
                    empty_disk)).
Defined.

(** ** Runs in which nothing fails *)

Section Unfailing.

Variable w : world.
Hypothesis all_resolve :
  forall cmd opts, exists out, settled (execa w cmd opts) = Normal out.
Hypothesis all_exist : forall c, commandExists w c = true.

Lemma unfailing_bind (A B : Type) (m : M A) (k : A -> M B) :
  unfailing A m -> (forall a, unfailing B (k a)) -> unfailing B (bind m k).
Proof.
  intros Hm Hk. eapply hoare_bind; [exact Hm|].
  intros a st _. exact (Hk a st I).
Qed.

Lemma run_succeeds (cmd : jsstring) :
  exists r, run (execa w) cmd no_opts = Normal r /\ r_status r = Success.
Proof.
  destruct (run_returns (execa w) cmd no_opts) as [r [Hr Hs]].
  exists r. split; [exact Hr|].
  destruct (all_resolve cmd no_opts) as [out Hout].
  exact (Hs out Hout).
Qed.

Lemma unfailing_run_cmd (cmd : jsstring) :
  unfailing run_result (run_cmd w cmd).
Proof.
  intros st _. unfold run_cmd.
  destruct (run_succeeds cmd) as [r [Hr _]]. rewrite Hr. exact I.
Qed.

Lemma unfailing_step_cmd (cmd : jsstring) (name msg : string) :
  unfailing unit (step_cmd w cmd name msg).
Proof.
  intros st _. unfold step_cmd, run_cmd, bind.
  destruct (run_succeeds cmd) as [r [Hr Hs]]. rewrite Hr.
  cbn [on_disk ret push]. rewrite Hs. exact I.
Qed.

Lemma unfailing_require_command (c msg : string) :
  unfailing unit (require_command w c msg).
Proof.
  intros st _. unfold require_command. rewrite all_exist. exact I.
Qed.

Lemma unfailing_two_factor_patch : unfailing unit two_factor_patch.
Proof.
  intros st _. unfold two_factor_patch, bind, get_disk, push.
  destruct (negb (detectTwoFactorColumnsInMigrations (disk st)));
    [exact I|].
  cbn [disk].
  destruct (patchUserFactory_cases (disk st))
    as [[reason [Hp _]] | [newContent [Hp _]]]; rewrite Hp; exact I.
Qed.

Lemma unfailing_tasks (json_mode colorOn : bool) (answers : answers_t) :
  a_projectName answers <> None ->
  Forall (fun t => unfailing unit (action t))
         (tasks w json_mode colorOn answers).
Proof.
  intros Hname.
  apply (G_tasks unfailing);
    first [ exact unfailing_bind
          | apply unfailing_step_cmd
          | apply unfailing_require_command
          | exact unfailing_two_factor_patch
          | contradiction
          | intros; intros ? _; exact I ].
Qed.

Lemma unfailing_attempt (ctx : ctx_t) (answers : answers_t) :
  a_projectName answers <> None ->
  unfailing (option json_doc) (attempt w ctx answers).
Proof.
  intros Hname. unfold attempt. apply unfailing_bind.
  - apply hoare_Listr_run; [auto|]. now apply unfailing_tasks.
  - intros _. destruct (json ctx); apply unfailing_bind;
      try (intros; intros st _; exact I).
    + unfold success_document. apply unfailing_bind.
      * destruct (is_lit (a_db answers) (lit "supabase"));
          [|intros st _; exact I].
        apply unfailing_bind; [apply unfailing_run_cmd|].
        intros r st _. exact I.
      * intros s st _. exact I.
    + unfold farewell, supabase_report.
      apply unfailing_bind.
      * destruct (is_lit (a_db answers) (lit "supabase"));
          [|intros st _; exact I].
        apply unfailing_bind; [apply unfailing_run_cmd|]. intros r.
        destruct (colorOn w ctx), (is_error (r_status r));
          repeat (apply unfailing_bind; [|intro]);
          intros st _; exact I.
      * intros _. apply unfailing_bind; [intros st _; exact I|].
        intros _ st _.
        destruct (eqs (showFinalMenu w (projectPath st)) (lit "vscode"));
          [|exact I].
        destruct (openVSCode w (projectPath st)); exact I.
Qed.

End Unfailing.

(** X16.  A run in which no command fails completes: when the
    parameters are resolved with a project name, every command the
    machine is asked for exists and every spawned command resolves,
    all thirteen tasks are invoked in order, no event is an error, and
    the exit code is 0 -- whatever the disk holds and whatever the
    patchers find there. *)
Theorem run_without_failures_completes :
  forall (w : world) (ctx : ctx_t) (disk0 : filesystem)
         (answers : answers_t),
    resolve w ctx = Resolved answers ->
    a_projectName answers <> None ->
    (forall cmd opts, exists out, settled (execa w cmd opts) = Normal out) ->
    (forall c, commandExists w c = true) ->
    exit_code (runCreate w ctx disk0) = 0%Z /\
    started (final (runCreate w ctx disk0)) = task_titles /\
    clean (events (final (runCreate w ctx disk0))).
Proof.
  intros w ctx disk0 answers Hres Hname Hexec Hcmds.
  unfold runCreate. rewrite Hres.
  pose proof (unfailing_attempt w Hexec Hcmds ctx answers Hname
                (initial_state w disk0) I) as Hrun.
  destruct (attempt_started w ctx answers (initial_state w disk0))
    as [n [_ [Hs Hall]]].
  pose proof (careful_attempt w ctx answers (initial_state w disk0)
                (Forall_nil _)) as Hev.
  destruct (attempt w ctx answers (initial_state w disk0)) as [[d|e] st];
    [|contradiction].
  cbn [final exit_code snd] in *.
  split; [reflexivity|]. split; [|exact Hev].
  rewrite Hs, (Hall d st eq_refl). reflexivity.
Qed.

Lemma run_without_failures_completes_witness :
  exit_code (runCreate calm_world sqlite_ctx empty_disk) = 0%Z /\
  started (final (runCreate calm_world sqlite_ctx empty_disk)) = task_titles /\
  clean (events (final (runCreate calm_world sqlite_ctx empty_disk))).
Proof.
  apply (run_without_failures_completes calm_world sqlite_ctx empty_disk
           (answers_of_input calm_world
              (fill_defaults (nonInteractive sqlite_ctx) (flags sqlite_ctx)))).
  - reflexivity.
  - discriminate.
  - intros cmd opts. eexists. reflexivity.
  - intros c. reflexivity.
Defined.

(** ** The working directory *)

Lemma same_place_refl (st : run_state) : same_place st st.
Proof. split; reflexivity. Qed.

Lemma same_place_trans (a b c : run_state) :
  same_place a b -> same_place b c -> same_place a c.
Proof. unfold same_place. intros [H1 H2] [H3 H4]. split; congruence. Qed.

Lemma hoare_of_preserves {A : Type} (R : run_state -> run_state -> Prop)
    (P Q : run_state -> Prop) (m : M A) :
  preserves R m ->
  (forall st st', P st -> R st st' -> Q st') ->
  hoare P m (fun _ => Q) (fun _ => Q).
Proof.
  intros Hm HQ st HP. specialize (Hm st).
  destruct (m st) as [[a|e] st1]; cbn [snd] in Hm; eapply HQ; eassumption.
Qed.

Lemma placed_same_place (w : world) (answers : answers_t)
    (st st' : run_state) :
  placed w answers st -> same_place st st' -> placed w answers st'.
Proof.
  intros [[name [Hn Hp]] Hc] [H1 H2]. split.
  - exists name. split; [exact Hn | congruence].
  - congruence.
Qed.

Lemma later_tasks_stay (w : world) (json_mode colorOn : bool)
    (answers : answers_t) :
  Forall (fun t => preserves same_place (action t))
         (skipn 2 (tasks w json_mode colorOn answers)).
Proof.
  apply preserves_later_tasks;
    first [ exact same_place_refl
          | exact same_place_trans
          | intros; intro s; split; reflexivity ].
Qed.

Lemma after_run_stays (w : world) (ctx : ctx_t) (answers : answers_t) :
  preserves same_place
    (if json ctx
     then doc <- success_document w ctx answers ;; ret (Some doc)
     else farewell w ctx answers ;;; ret None).
Proof.
  destruct (json ctx);
    (apply preserves_bind; [exact same_place_trans | |]);
    try (intros d; apply preserves_ret; exact same_place_refl).
  - apply preserves_success_document;
      [exact same_place_refl | exact same_place_trans
       | intros f s; split; reflexivity].
  - apply preserves_farewell;
      [exact same_place_refl | exact same_place_trans
       | intros f s; split; reflexivity
       | intros l Hl s; split; reflexivity].
Qed.

(** The prechecks set no project path, and leave the process in the
    directory that the Herd directory resolves to. *)
Lemma prechecks_place (w : world) (answers : answers_t)
    (titles : list jsstring) :
  hoare (fun st => projectPath st = [] /\
                   process_cwd st = initial_cwd w /\
                   started st = titles)
        (prechecks w answers)
        (fun _ st => projectPath st = [] /\
                     process_cwd st = herd_cwd w answers /\
                     started st = titles)
        (fun _ st => projectPath st = [] /\ started st = titles).
Proof.
  intros st (H1 & H2 & H3). unfold prechecks, require_command, bind.
  destruct (commandExists w (lit "herd"));
    cbn [throw ret chdir push projectPath process_cwd started];
    [|now split].
  unfold herd_cwd. rewrite H2. now repeat split.
Qed.

(** The scaffold sets the project path from the directory it finds the
    process in, and enters it; where it throws, it has set nothing. *)
Lemma scaffold_place (w : world) (answers : answers_t)
    (titles : list jsstring) :
  hoare (fun st => projectPath st = [] /\
                   process_cwd st = herd_cwd w answers /\
                   started st = titles)
        (scaffold w answers)
        (fun _ st => placed w answers st)
        (fun _ st => projectPath st = [] /\ started st = titles).
Proof.
  unfold scaffold.
  set (P := fun st : run_state =>
              projectPath st = [] /\
              process_cwd st = herd_cwd w answers /\
              started st = titles).
  set (R := fun st st' : run_state =>
              same_place st st' /\ same_started st st').
  assert (forall (m : M unit),
             preserves R m ->
             hoare P m (fun _ => P)
                   (fun _ st => projectPath st = [] /\ started st = titles))
    as Hkeep.
  { intros m Hm st (HP1 & HP2 & HP3). specialize (Hm st).
    destruct (m st) as [[a|e] st1]; cbn [snd] in Hm;
      destruct Hm as [[H1 H2] H3]; unfold same_started in H3.
    - repeat split; congruence.
    - split; congruence. }
  assert (forall st, R st st) as Hrefl
      by (intros st; split; [apply same_place_refl | reflexivity]).
  assert (forall a b c, R a b -> R b c -> R a c) as Htrans.
  { intros a b c [H1 H2] [H3 H4]. split.
    - eapply same_place_trans; eassumption.
    - eapply same_started_trans; eassumption. }
  assert (forall cmd name msg, preserves R (step_cmd w cmd name msg))
    as Hstep.
  { intros cmd name msg.
    apply preserves_step_cmd;
      first [ exact Hrefl | exact Htrans
            | intros; intro s; split; [split|]; reflexivity ]. }
  eapply hoare_bind.
  { apply Hkeep. unfold when.
    destruct (negb (commandExists w (lit "laravel")));
      [apply Hstep | apply preserves_ret; exact Hrefl]. }
  intros u1. eapply hoare_bind; [apply Hkeep, Hstep|].
  intros u2 st (HP1 & HP2 & HP3). unfold bind, get_cwd.
  destruct (a_projectName answers) as [name|] eqn:En;
    cbn [throw set_projectPath chdir push projectPath process_cwd started].
  - split.
    + exists name. split; [exact En|]. cbn [projectPath]. now rewrite HP2.
    + cbn [process_cwd projectPath]. now rewrite HP2.
  - now split.
Qed.

(** X17.  The project path is set once and the working directory is
    entered once.  At the end of every run with resolved parameters the
    project path is either still empty or is [path.join] of the
    directory that [process.cwd()] answered after the prechecks -- the
    path that the Herd directory resolves to -- and the project name.
    Once the third task has started, and so in every run that ends
    with exit code 0, the path is set and the working directory is the
    one that [process.chdir(projectPath)] led to: no later task and no
    report changes either.  None of this rests on [process.chdir]
    succeeding: where it throws, the task that called it fails, the
    third task is not started and the exit code is 1. *)
Theorem project_directory_is_entered_once :
  forall (w : world) (ctx : ctx_t) (disk0 : filesystem)
         (answers : answers_t),
    resolve w ctx = Resolved answers ->
    let o := runCreate w ctx disk0 in
    (projectPath (final o) = [] \/ project_path_set w answers (final o)) /\
    (In (lit "Base de datos y entorno") (started (final o)) ->
     placed w answers (final o)) /\
    (exit_code o = 0%Z -> placed w answers (final o)).
Proof.
  intros w ctx disk0 answers Hres o.
  set (third := lit "Base de datos y entorno").
  set (E := fun st : run_state =>
              (projectPath st = [] /\ ~ In third (started st))
              \/ placed w answers st).
  assert (~ In third [lit "Prechequeos"]) as Hone.
  { intros [H | []]. vm_compute in H. discriminate H. }
  assert (~ In third [lit "Prechequeos"; lit "Scaffold del proyecto"])
    as Htwo.
  { intros [H | [H | []]]; vm_compute in H; discriminate H. }
  assert (hoare (fun st => projectPath st = [] /\
                           process_cwd st = initial_cwd w /\
                           started st = [])
                (attempt w ctx answers)
                (fun _ st => placed w answers st) (fun _ => E)) as Hatt.
  { unfold attempt. eapply hoare_bind with (Q := fun _ => placed w answers).
    - change (tasks w (json ctx) (colorOn w ctx) answers)
        with ({| title := lit "Prechequeos"; action := prechecks w answers |}
              :: {| title := lit "Scaffold del proyecto";
                    action := scaffold w answers |}
              :: skipn 2 (tasks w (json ctx) (colorOn w ctx) answers)).
      intros st (HP1 & HP2 & HP3). cbn [Listr_run action title].
      pose proof (prechecks_place w answers [lit "Prechequeos"]
                    (mark_started (lit "Prechequeos") st)) as H1.
      cbn [mark_started projectPath process_cwd started] in H1.
      rewrite HP3 in H1. specialize (H1 (conj HP1 (conj HP2 eq_refl))).
      destruct (prechecks w answers (mark_started (lit "Prechequeos") st))
        as [[[]|e1] st1].
      2: { left. destruct H1 as [H1 H1']. rewrite H1'. now split. }
      destruct H1 as (H1 & H1' & H1'').
      pose proof (scaffold_place w answers
                    [lit "Prechequeos"; lit "Scaffold del proyecto"]
                    (mark_started (lit "Scaffold del proyecto") st1)) as H2.
      cbn [mark_started projectPath process_cwd started] in H2.
      rewrite H1'' in H2. specialize (H2 (conj H1 (conj H1' eq_refl))).
      destruct (scaffold w answers
                  (mark_started (lit "Scaffold del proyecto") st1))
        as [[[]|e2] st2].
      2: { left. destruct H2 as [H2 H2']. rewrite H2'. now split. }
      pose proof (hoare_Listr_run (placed w answers)
                    (fun _ st => E st)
                    (skipn 2 (tasks w (json ctx) (colorOn w ctx) answers)))
        as Hrest.
      apply Hrest; [intros t s H; exact H | | exact H2].
      eapply Forall_impl; [|apply later_tasks_stay].
      intros t Ht s Hs. specialize (Ht s).
      destruct (action t s) as [[a|e] s']; cbn [snd] in Ht;
        [|right]; eapply placed_same_place; eassumption.
    - intros u st Hs.
      pose proof (after_run_stays w ctx answers st) as H.
      destruct ((if json ctx
                 then doc <- success_document w ctx answers;; ret (Some doc)
                 else farewell w ctx answers;;; ret None) st)
        as [[a|e] s']; cbn [snd] in H;
        [|right]; eapply placed_same_place; eassumption. }
  assert (forall st : run_state,
             E st ->
             (projectPath st = [] \/ project_path_set w answers st) /\
             (In third (started st) -> placed w answers st)) as HE.
  { intros st [[H1 H2] | H]; split.
    - now left.
    - intros Hin. contradiction.
    - right. exact (proj1 H).
    - intros _. exact H. }
  unfold o, runCreate. rewrite Hres.
  specialize (Hatt (initial_state w disk0)
                (conj eq_refl (conj eq_refl eq_refl))).
  destruct (attempt w ctx answers (initial_state w disk0)) as [[d|e] st].
  - cbn [final exit_code].
    split; [right; exact (proj1 Hatt) | split; intros _; exact Hatt].
  - assert (E (final (report_failure w ctx e st))) as Hfinal.
    { unfold report_failure. destruct (json ctx); cbn [final]; [exact Hatt|].
      destruct Hatt as [H | H]; [left; exact H | right].
      eapply placed_same_place; [exact H | split; reflexivity]. }
    destruct (HE _ Hfinal) as [H1 H2].
    split; [exact H1 | split; [exact H2|]].
    unfold report_failure. destruct (json ctx); cbn [exit_code]; discriminate.
Qed.

Lemma project_directory_is_entered_once_witness :
  placed calm_world
    (answers_of_input calm_world
       (fill_defaults (nonInteractive sqlite_ctx) (flags sqlite_ctx)))
    (final (runCreate calm_world sqlite_ctx empty_disk))
  /\ process_cwd (final (runCreate calm_world relative_herd_ctx empty_disk))
     = lit "/home/dev/Herd2/app"
  /\ projectPath (final (runCreate scaffold_fails sqlite_ctx empty_disk)) = [].
Proof.
  split; [|split].
  - apply (proj2 (proj2 (project_directory_is_entered_once calm_world
                           sqlite_ctx empty_disk _ eq_refl))).
    vm_compute. reflexivity.
  - pose proof (proj2 (proj2 (project_directory_is_entered_once calm_world
                                relative_herd_ctx empty_disk _ eq_refl))
                      eq_refl) as [_ H].
    rewrite H. vm_compute. reflexivity.
  - destruct (proj1 (project_directory_is_entered_once scaffold_fails
                       sqlite_ctx empty_disk _ eq_refl))
      as [H | [name [_ H]]]; [exact H|].
    vm_compute in H. discriminate H.
Defined.

(** ** The document and the event log *)

Lemma entries_of_fields (evs : list event) :
  map t_index (entries_of evs) = seq 0 (List.length evs) /\
  map t_name (entries_of evs) = map ev_name evs /\
  map t_status (entries_of evs) = map ev_status evs.
Proof.
  unfold entries_of. rewrite !map_map. cbn [t_index t_name t_status].
  generalize 0 as i.
  induction evs as [|e evs IH]; intros i; [now repeat split|].
  cbn [List.length seq combine map fst snd].
  destruct (IH (S i)) as [H1 [H2 H3]].
  repeat split; f_equal; assumption.
Qed.

Lemma success_document_entries (w : world) (ctx : ctx_t)
    (answers : answers_t) (st st' : run_state) (d : json_doc) :
  success_document w ctx answers st = (Normal d, st') ->
  doc_tasks d = Some (entries_of (events st')).
Proof.
  unfold success_document, bind.
  destruct (is_lit (a_db answers) (lit "supabase")).
  - unfold run_cmd.
    destruct (run_returns (execa w) (lit "npx supabase status") no_opts)
      as [r [Hr _]].
    rewrite Hr. cbn. intros H. inversion H. reflexivity.
  - cbn. intros H. inversion H. reflexivity.
Qed.

(** X18.  The [tasks] array of a document is the event log of the run,
    whole and in order: whenever a run writes a document that has the
    array -- after success or after a failure -- the array has one
    entry for each event the run recorded up to its end, the entry at
    position [i] has the index [i], and the names and statuses are
    those of the events; so nothing recorded before a failure is
    dropped, and the status query for Supabase that follows the tasks
    adds no entry. *)
Theorem document_lists_the_event_log :
  forall (w : world) (ctx : ctx_t) (disk0 : filesystem) (d : json_doc)
         (entries : list task_entry),
    document (runCreate w ctx disk0) = Some d ->
    doc_tasks d = Some entries ->
    let evs := events (final (runCreate w ctx disk0)) in
    entries = entries_of evs /\
    map t_index entries = seq 0 (List.length evs) /\
    map t_name entries = map ev_name evs /\
    map t_status entries = map ev_status evs.
Proof.
  intros w ctx disk0 d entries Hdoc Htasks evs.
  assert (entries = entries_of evs) as Hentries.
  { unfold evs. clear evs. revert Hdoc. unfold runCreate.
    destruct (resolve w ctx) as [answers | | missing | err].
    - destruct (attempt w ctx answers (initial_state w disk0))
        as [[doc|e] st] eqn:E.
      + cbn [document final]. intros Hdoc. subst doc.
        revert E. unfold attempt, bind.
        destruct (Listr_run _ (initial_state w disk0)) as [[[]|e] st1];
          [|discriminate].
        destruct (json ctx); cbn [ret].
        * destruct (success_document w ctx answers st1)
            as [[doc|e] st2] eqn:E2; [|discriminate].
          intros H. inversion H. subst doc st2.
          apply success_document_entries in E2. congruence.
        * destruct (farewell w ctx answers st1) as [[[]|e] st2];
            discriminate.
      + unfold report_failure. destruct (json ctx); cbn [document final].
        * intros H. inversion H. subst d. cbn in Htasks. congruence.
        * discriminate.
    - discriminate.
    - unfold reject_missing. destruct (json ctx); cbn [document final].
      + intros H. inversion H. subst d. discriminate Htasks.
      + discriminate.
    - discriminate. }
  split; [exact Hentries|]. rewrite Hentries. apply entries_of_fields.
Qed.

Lemma document_lists_the_event_log_witness :
  match document (runCreate scaffold_fails sqlite_ctx empty_disk) with
  | Some d =>
      match doc_tasks d with
      | Some entries =>
          map t_name entries
          = map ev_name
              (events (final (runCreate scaffold_fails sqlite_ctx empty_disk)))
      | None => False
      end
  | None => False
  end.
Proof.
  destruct (document (runCreate scaffold_fails sqlite_ctx empty_disk))
    as [d|] eqn:Hdoc.
  - destruct (doc_tasks d) as [entries|] eqn:Htasks.
    + exact (proj1 (proj2 (proj2
               (document_lists_the_event_log scaffold_fails sqlite_ctx
                  empty_disk d entries Hdoc Htasks)))).
    + vm_compute in Hdoc. inversion Hdoc. subst d. discriminate Htasks.
  - vm_compute in Hdoc. discriminate Hdoc.
Defined.

(** ** Colour *)

Lemma keeps_unstyled_refl (st : run_state) : keeps_unstyled st st.
Proof. intros H. exact H. Qed.

Lemma keeps_unstyled_trans (a b c : run_state) :
  keeps_unstyled a b -> keeps_unstyled b c -> keeps_unstyled a c.
Proof. unfold keeps_unstyled. auto. Qed.

Lemma keeps_unstyled_same_console (st st' : run_state) :
  console st' = console st -> keeps_unstyled st st'.
Proof. unfold keeps_unstyled, unstyled. intros H. now rewrite H. Qed.

Lemma keeps_unstyled_print (l : console_line) (st : run_state) :
  styled l = Plain -> keeps_unstyled st (snd (print l st)).
Proof.
  intros Hl Hst. unfold unstyled. cbn [print snd console].
  apply Forall_app. split; [exact Hst|]. now constructor.
Qed.

Lemma attempt_keeps_unstyled (w : world) (ctx : ctx_t) (answers : answers_t) :
  colorOn w ctx = false ->
  preserves keeps_unstyled (attempt w ctx answers).
Proof.
  intros Hc. unfold attempt.
  apply preserves_bind; [exact keeps_unstyled_trans | |].
  - apply preserves_Listr_run;
      [exact keeps_unstyled_refl | exact keeps_unstyled_trans
       | intros t s; now apply keeps_unstyled_same_console |].
    apply preserves_tasks;
      first [ exact keeps_unstyled_refl
            | exact keeps_unstyled_trans
            | intros Hj l Hl s; apply keeps_unstyled_print; now apply Hl
            | intros; intro s; now apply keeps_unstyled_same_console ].
  - intros u. destruct (json ctx);
      (apply preserves_bind; [exact keeps_unstyled_trans | |]);
      try (intros d; apply preserves_ret; exact keeps_unstyled_refl).
    + apply preserves_success_document;
        [exact keeps_unstyled_refl | exact keeps_unstyled_trans
         | intros f s; now apply keeps_unstyled_same_console].
    + apply preserves_farewell;
        [exact keeps_unstyled_refl | exact keeps_unstyled_trans
         | intros f s; now apply keeps_unstyled_same_console
         | intros l Hl s; apply keeps_unstyled_print; now apply Hl].
Qed.

(** X19.  With colour off, nothing that [runCreate] itself hands to
    [console.log] or [console.error] is styled: whatever the machine,
    the flags and the way the run ends -- cancelled, rejected for
    missing flags, failed or completed -- every line on the console is
    plain text.  (The notes shown inside the interactive prompts are
    not lines of this console.) *)
Theorem colour_off_prints_plain_text :
  forall (w : world) (ctx : ctx_t) (disk0 : filesystem),
    colorOn w ctx = false ->
    unstyled (final (runCreate w ctx disk0)).
Proof.
  intros w ctx disk0 Hc.
  assert (forall s : style, styled_if_color w ctx s = Plain) as Hplain
      by (intros s; unfold styled_if_color; now rewrite Hc).
  assert (unstyled (initial_state w disk0)) as H0 by constructor.
  unfold runCreate.
  destruct (resolve w ctx) as [answers | | missing | err].
  - pose proof (attempt_keeps_unstyled w ctx answers Hc
                  (initial_state w disk0) H0) as Hatt.
    destruct (attempt w ctx answers (initial_state w disk0)) as [[d|e] st];
      cbn [snd] in Hatt; [exact Hatt|].
    unfold report_failure. destruct (json ctx); cbn [final]; [exact Hatt|].
    apply keeps_unstyled_print; [apply Hplain | exact Hatt].
  - exact H0.
  - unfold reject_missing. destruct (json ctx); cbn [final]; [exact H0|].
    apply keeps_unstyled_print; [apply Hplain | exact H0].
  - exact H0.
Qed.

Lemma colour_off_prints_plain_text_witness :
  unstyled (final (runCreate scaffold_fails bare_ctx empty_disk)).
Proof.
  apply (colour_off_prints_plain_text scaffold_fails bare_ctx empty_disk).
  vm_compute. reflexivity.
Defined.
